(** * sleepme: the sleep.me API client

    A shallow embedding of [sleepme.go]: the client record, its constructor
    [New] and the three operations [ListDevices], [Get] and [Update],
    together with the parts of the Go standard library they call
    ([strings], [net/url], [net/http], [encoding/json], [strconv]).

    Go strings are byte strings: they are modelled by [string], one [ascii]
    per byte. *)

From Stdlib Require Import ZArith NArith String Ascii List Bool Lia.
From Stdlib Require Import DecimalString DecimalZ.
From Stdlib Require Import Floats.SpecFloat.
From stdpp Require Import base option list gmap strings.

Local Open Scope string_scope.
Local Open Scope Z_scope.

#[local] Arguments String.append : simpl nomatch.

(** * Bytes and strings *)

Module bytes.

Definition code (c : ascii) : N := N_of_ascii c.

Definition between (lo hi : N) (c : ascii) : bool :=
  ((lo <=? code c) && (code c <=? hi))%N.

Definition isDigit (c : ascii) : bool := between 48 57 c.
Definition isLower (c : ascii) : bool := between 97 122 c.
Definition isUpper (c : ascii) : bool := between 65 90 c.
Definition isLetter (c : ascii) : bool := isLower c || isUpper c.
Definition isAlnum (c : ascii) : bool := isLetter c || isDigit c.
Definition ishex (c : ascii) : bool :=
  isDigit c || between 97 102 c || between 65 70 c.

Definition unhex (c : ascii) : N :=
  if isDigit c then code c - 48
  else if between 97 102 c then code c - 97 + 10
  else if between 65 70 c then code c - 65 + 10
  else 0.

Definition toLower (c : ascii) : ascii :=
  if isUpper c then ascii_of_N (code c + 32) else c.
Definition toUpper (c : ascii) : ascii :=
  if isLower c then ascii_of_N (code c - 32) else c.

(** The double quote, byte 0x22. *)
Definition dquote : ascii := "034"%char.
(** Line feed, byte 0x0A. *)
Definition LF : ascii := "010"%char.

Definition hexdigit (upper : bool) (n : N) : ascii :=
  if (n <? 10)%N then ascii_of_N (48 + n)
  else ascii_of_N ((if upper then 55 else 87) + n).

End bytes.

Module strings.

Fixpoint ToLower (s : string) : string :=
  match s with
  | EmptyString => EmptyString
  | String c r => String (bytes.toLower c) (ToLower r)
  end.

Definition HasPrefix (s p : string) : bool := String.prefix p s.

Fixpoint ContainsByte (s : string) (c : ascii) : bool :=
  match s with
  | EmptyString => false
  | String d r => Ascii.eqb d c || ContainsByte r c
  end.

Fixpoint CountByte (s : string) (c : ascii) : nat :=
  match s with
  | EmptyString => O
  | String d r => ((if Ascii.eqb d c then 1 else 0) + CountByte r c)%nat
  end.

(** [strings.Cut s sep] for a separator of one byte: the text before and
    after its first occurrence. *)
Fixpoint Cut (s : string) (sep : ascii) : string * string * bool :=
  match s with
  | EmptyString => (EmptyString, EmptyString, false)
  | String d r =>
      if Ascii.eqb d sep then (EmptyString, r, true)
      else let '(b, a, f) := Cut r sep in (String d b, a, f)
  end.

(** The split at the first occurrence of [sep], the separator staying at
    the head of the second part ([s[:i]], [s[i:]] for [i = IndexByte]). *)
Fixpoint splitAt (s : string) (sep : ascii) : option (string * string) :=
  match s with
  | EmptyString => None
  | String d r =>
      if Ascii.eqb d sep then Some (EmptyString, s)
      else match splitAt r sep with
           | Some (b, a) => Some (String d b, a)
           | None => None
           end
  end.

(** The split at the last occurrence of [sep] ([LastIndex]), the separator
    staying at the head of the second part. *)
Fixpoint splitAtLast (s : string) (sep : ascii) : option (string * string) :=
  match s with
  | EmptyString => None
  | String d r =>
      match splitAtLast r sep with
      | Some (b, a) => Some (String d b, a)
      | None => if Ascii.eqb d sep then Some (EmptyString, s) else None
      end
  end.

(** [strings.HasSuffix s sep] for a suffix of one byte. *)
Fixpoint HasSuffixByte (s : string) (c : ascii) : bool :=
  match s with
  | EmptyString => false
  | String d EmptyString => Ascii.eqb d c
  | String _ r => HasSuffixByte r c
  end.

(** [s[:len(s)-1]]. *)
Fixpoint dropLast (s : string) : string :=
  match s with
  | EmptyString => EmptyString
  | String _ EmptyString => EmptyString
  | String d r => String d (dropLast r)
  end.

Definition tail (s : string) : string :=
  match s with EmptyString => EmptyString | String _ r => r end.

(** First occurrence of the text [sub] in [s]: the parts before it and
    from it on. *)
Fixpoint splitAtString (s sub : string) : option (string * string) :=
  if String.prefix sub s then Some (EmptyString, s)
  else match s with
       | EmptyString => None
       | String d r =>
           match splitAtString r sub with
           | Some (b, a) => Some (String d b, a)
           | None => None
           end
       end.

End strings.

(** * fmt and strconv: integers *)

Module strconv.

(** [strconv.Itoa], the [%d] verb of [fmt]. *)
Definition Itoa (n : Z) : string := NilZero.string_of_int (Z.to_int n).

Definition allDigits (s : string) : bool :=
  negb (String.eqb s "")
  && forallb bytes.isDigit (list_ascii_of_string s).

(** [strconv.ParseInt s 10 64]: an optional sign and decimal digits, the
    value within the range of [int64]. *)
Definition ParseInt (s : string) : option Z :=
  let digits :=
    match s with
    | String "-" r => r
    | String "+" r => r
    | _ => s
    end in
  if allDigits digits then
    match NilZero.int_of_string
            (match s with String "+" r => r | _ => s end) with
    | Some d =>
        let n := Z.of_int d in
        if (- 2 ^ 63 <=? n) && (n <=? 2 ^ 63 - 1) then Some n else None
    | None => None
    end
  else None.

(** ** float64

    A [float64] is a binary64 number of IEEE 754, in Rocq's specification
    of floating-point numbers: [S754_finite s m e] is (-1)^s * m * 2^e. *)

Definition float64 : Type := spec_float.

Definition prec : Z := 53.
Definition emax : Z := 1024.

Definition IsNaN (f : float64) : bool :=
  match f with S754_nan => true | _ => false end.
Definition IsInf (f : float64) : bool :=
  match f with S754_infinity _ => true | _ => false end.

Definition sameFloat (a b : float64) : bool :=
  match a, b with
  | S754_zero s, S754_zero s' => Bool.eqb s s'
  | S754_finite s m e, S754_finite s' m' e' =>
      Bool.eqb s s' && Pos.eqb m m' && Z.eqb e e'
  | S754_infinity s, S754_infinity s' => Bool.eqb s s'
  | S754_nan, S754_nan => true
  | _, _ => false
  end.

(** The binary64 number nearest to (-1)^neg * M * 10^E, ties to even. *)
Definition fromDecimal (neg : bool) (M E : Z) : float64 :=
  match M with
  | Zpos m =>
      if 0 <=? E then binary_round prec emax neg (Z.to_pos (M * 10 ^ E)) 0
      else SFdiv prec emax (S754_finite neg m 0)
                 (S754_finite false (Z.to_pos (10 ^ (- E))) 0)
  | _ => S754_zero neg
  end.

Definition digitsValue (s : string) : Z :=
  match NilZero.uint_of_string s with
  | Some d => Z.of_uint d
  | None => 0
  end.

Fixpoint spanDigits (s : string) : string * string :=
  match s with
  | EmptyString => (EmptyString, EmptyString)
  | String c r =>
      if bytes.isDigit c
      then let '(d, r') := spanDigits r in (String c d, r')
      else (EmptyString, s)
  end.

(** [strconv.ParseFloat s 64] on a decimal literal: sign, digits, an
    optional fraction and an optional exponent.  [None] for a text of
    another form and for a value out of range (which rounds to an
    infinity). *)
Definition ParseFloat (s : string) : option float64 :=
  let '(neg, s1) :=
    match s with
    | String c r =>
        if Ascii.eqb c "-" then (true, r)
        else if Ascii.eqb c "+" then (false, r) else (false, s)
    | EmptyString => (false, s)
    end in
  let '(ip, s2) := spanDigits s1 in
  let '(fp, s3) :=
    match s2 with
    | String c r => if Ascii.eqb c "." then spanDigits r else ("", s2)
    | EmptyString => ("", s2)
    end in
  let ex : option Z :=
    match s3 with
    | EmptyString => Some 0
    | String c r =>
        if Ascii.eqb c "e" || Ascii.eqb c "E" then
          let '(eneg, r1) :=
            match r with
            | String g r' =>
                if Ascii.eqb g "-" then (true, r')
                else if Ascii.eqb g "+" then (false, r') else (false, r)
            | EmptyString => (false, r)
            end in
          if allDigits r1
          then Some (if eneg then - digitsValue r1 else digitsValue r1)
          else None
        else None
    end in
  if String.eqb (ip ++ fp) "" then None
  else
    match ex with
    | None => None
    | Some e =>
        let f := fromDecimal neg (digitsValue (ip ++ fp))
                             (e - Z.of_nat (String.length fp)) in
        if IsInf f then None else Some f
    end.

(** |f| as a fraction [P / Q]. *)
Definition fraction (m : positive) (e : Z) : Z * Z :=
  if 0 <=? e then (Zpos m * 2 ^ e, 1) else (Zpos m, 2 ^ (- e)).

Definition nbDigits (n : Z) : Z :=
  Z.of_nat (Decimal.nb_digits (N.to_uint (Z.to_N n))).

Fixpoint pointBelow (fuel : nat) (P Q k : Z) : Z :=
  match fuel with
  | O => k
  | S f => if Q <=? P then k else pointBelow f (P * 10) Q (k + 1)
  end.

(** The [dp] with 10^(dp-1) <= P/Q < 10^dp. *)
Definition decimalPoint (P Q : Z) : Z :=
  if Q <=? P then nbDigits (P / Q) else 1 - pointBelow 400 P Q 0.

(** The decimal [D * 10^(dp-n)] of [n] digits that converts back to [f],
    the one nearer to [f] when the two around it both do. *)
Definition candidate (f : float64) (neg : bool) (P Q dp n : Z)
  : option Z :=
  let '(P', Q') :=
    if 0 <=? n - dp then (P * 10 ^ (n - dp), Q)
    else (P, Q * 10 ^ (dp - n)) in
  let lo := P' / Q' in
  let rem := P' mod Q' in
  let okLo := sameFloat (fromDecimal neg lo (dp - n)) f in
  let okHi := sameFloat (fromDecimal neg (lo + 1) (dp - n)) f in
  let up := (Q' <? 2 * rem) || ((Q' =? 2 * rem) && Z.odd lo) in
  if okLo && okHi then Some (if up then lo + 1 else lo)
  else if okLo then Some lo
  else if okHi then Some (lo + 1)
  else None.

Fixpoint shortestFrom (fuel : nat) (f : float64) (neg : bool)
         (P Q dp n : Z) : Z * Z :=
  match fuel with
  | O => (P / Q, n)
  | S k =>
      match candidate f neg P Q dp n with
      | Some D => (D, n)
      | None => shortestFrom k f neg P Q dp (n + 1)
      end
  end.

Fixpoint stripZeros (fuel : nat) (D : Z) : Z :=
  match fuel with
  | O => D
  | S k =>
      if (D mod 10 =? 0) && negb (D =? 0) then stripZeros k (D / 10)
      else D
  end.

(** The shortest digits [d1 ... dn] that identify [f], and [dp]:
    |f| reads 0.d1...dn * 10^dp ([decimalSlice] after the shortest
    formatting). *)
Definition shortest (f : float64) : string * Z :=
  match f with
  | S754_finite neg m e =>
      let '(P, Q) := fraction m e in
      let dp := decimalPoint P Q in
      let '(D, n) := shortestFrom 17 f neg P Q dp 1 in
      (NilZero.string_of_uint (N.to_uint (Z.to_N (stripZeros 20 D))),
       if D =? 10 ^ n then dp + 1 else dp)
  | _ => (EmptyString, 0)
  end.

Definition isNeg (f : float64) : bool :=
  match f with
  | S754_zero s | S754_infinity s | S754_finite s _ _ => s
  | S754_nan => false
  end.

Fixpoint zeros (n : nat) : string :=
  match n with O => EmptyString | S k => String "0" (zeros k) end.

(** [%f] with the shortest precision ([fmtF]). *)
Definition fmtF (neg : bool) (d : string) (dp : Z) : string :=
  let nd := Z.of_nat (String.length d) in
  (if neg then "-" else "")
  ++ (if 0 <? dp then
        String.substring 0 (Z.to_nat (Z.min nd dp)) d
        ++ zeros (Z.to_nat (dp - nd))
      else "0")
  ++ (if 0 <? nd - dp then
        "." ++ zeros (Z.to_nat (- dp))
        ++ String.substring (Z.to_nat dp) (Z.to_nat (nd - Z.max dp 0)) d
      else "").

(** [%e] with the shortest precision ([fmtE]). *)
Definition fmtE (neg : bool) (d : string) (dp : Z) : string :=
  let ex := if String.eqb d "" then 0 else dp - 1 in
  (if neg then "-" else "")
  ++ match d with
     | EmptyString => "0"
     | String c r =>
         String c (if String.eqb r "" then "" else "." ++ r)
     end
  ++ "e" ++ (if ex <? 0 then "-" else "+")
  ++ (if Z.abs ex <? 10 then "0" else "") ++ Itoa (Z.abs ex).

(** [strconv.FormatFloat f fmt (-1) 64] for [fmt] one of ['e'], ['f'],
    on a finite number. *)
Definition FormatFloat (f : float64) (fmt : ascii) : string :=
  let '(d, dp) := shortest f in
  if Ascii.eqb fmt "e" then fmtE (isNeg f) d dp else fmtF (isNeg f) d dp.

(** [%q] of [fmt]: the text between double quotes (the escaping inside is
    not modelled, it only occurs in a message). *)
Definition Quote (s : string) : string :=
  String bytes.dquote (s ++ String bytes.dquote "").

End strconv.

(** * Errors

    Go's [error] is an interface; the values this package and the library
    functions it calls can produce are the constructors below.  [foreign]
    stands for an error value made elsewhere: by a configuration function
    or by the HTTP transport. *)

Inductive GoType : Type :=
| T_string | T_int | T_bool | T_float64
| T_slice (elem : GoType)
| T_struct (name : string).

Inductive error : Type :=
| errorString (msg : string)                      (* errors.New, fmt.Errorf *)
| url_EscapeError (s : string)
| url_InvalidHostError (s : string)
| url_Error (Op URL : string) (Err : error)
| json_SyntaxError (c : ascii) (context : string)
| json_UnmarshalTypeError (Value : string) (Type_ : GoType)
| json_UnsupportedValueError (Str : string)
| io_EOF
| io_ErrUnexpectedEOF
| foreign (tag : string).

Module fmt.
(** [fmt.Errorf] with its format already expanded. *)
Definition Errorf (msg : string) : error := errorString msg.
End fmt.

(** * net/url *)

Module url.

Import bytes strings.

Record Userinfo := {
  username : string;
  password : string;
  passwordSet : bool
}.

Record URL := {
  Scheme : string;
  Opaque : string;
  User : option Userinfo;
  Host : string;
  Path : string;
  RawPath : string;
  OmitHost : bool;
  ForceQuery : bool;
  RawQuery : string;
  Fragment : string;
  RawFragment : string
}.

Definition empty : URL :=
  {| Scheme := ""; Opaque := ""; User := None; Host := ""; Path := "";
     RawPath := ""; OmitHost := false; ForceQuery := false; RawQuery := "";
     Fragment := ""; RawFragment := "" |}.

Inductive encoding :=
| encodePath | encodePathSegment | encodeHost | encodeZone
| encodeUserPassword | encodeQueryComponent | encodeFragment.

Definition isHostMode (mode : encoding) : bool :=
  match mode with encodeHost | encodeZone => true | _ => false end.

Definition shouldEscape (c : ascii) (mode : encoding) : bool :=
  if isAlnum c then false
  else if isHostMode mode
          && (ContainsByte "!$&'()*+,;=:[]<>" c || Ascii.eqb c dquote)
  then false
  else if ContainsByte "-_.~" c then false
  else if ContainsByte "$&+,/:;=?@" c then
    match mode with
    | encodePath => Ascii.eqb c "?"
    | encodePathSegment => ContainsByte "/;,?" c
    | encodeUserPassword => ContainsByte "@/?:" c
    | encodeQueryComponent => true
    | encodeFragment => false
    | encodeHost | encodeZone => true
    end
  else match mode with
       | encodeFragment => negb (ContainsByte "!()*" c)
       | _ => true
       end.

Definition take3 (s : string) : string := String.substring 0 3 s.

(** The first loop of [unescape]: every [%] is followed by two hex digits,
    and in a host no byte stands that would need escaping. *)
Fixpoint unescapeCheck (mode : encoding) (s : string) : option error :=
  match s with
  | EmptyString => None
  | String c r =>
      if Ascii.eqb c "%" then
        match r with
        | String a (String b r') =>
            if ishex a && ishex b then
              if match mode with encodeHost => true | _ => false end
                 && (unhex a <? 8)%N
                 && negb (Ascii.eqb a "2" && Ascii.eqb b "5")
              then Some (url_EscapeError (take3 s))
              else if match mode with encodeZone => true | _ => false end
                      && negb (Ascii.eqb a "2" && Ascii.eqb b "5")
                      && negb (N.eqb (unhex a * 16 + unhex b) 32)
                      && shouldEscape (ascii_of_N (unhex a * 16 + unhex b))
                                      encodeHost
              then Some (url_EscapeError (take3 s))
              else unescapeCheck mode r'
            else Some (url_EscapeError (take3 s))
        | _ => Some (url_EscapeError (take3 s))
        end
      else if isHostMode mode && (code c <? 128)%N
              && shouldEscape c encodeHost
      then Some (url_InvalidHostError (String c ""))
      else unescapeCheck mode r
  end.

(** The second loop of [unescape], on a checked text. *)
Fixpoint unescapeBytes (mode : encoding) (s : string) : string :=
  match s with
  | EmptyString => EmptyString
  | String c r =>
      if Ascii.eqb c "%" then
        match r with
        | String a (String b r') =>
            String (ascii_of_N (unhex a * 16 + unhex b))
                   (unescapeBytes mode r')
        | _ => String c (unescapeBytes mode r)
        end
      else if Ascii.eqb c "+" then
        String (match mode with
                | encodeQueryComponent => " "%char
                | _ => "+"%char
                end) (unescapeBytes mode r)
      else String c (unescapeBytes mode r)
  end.

Definition unescape (s : string) (mode : encoding) : error + string :=
  match unescapeCheck mode s with
  | Some e => inl e
  | None => inr (unescapeBytes mode s)
  end.

Fixpoint escape (s : string) (mode : encoding) : string :=
  match s with
  | EmptyString => EmptyString
  | String c r =>
      if shouldEscape c mode then
        if Ascii.eqb c " "
           && match mode with encodeQueryComponent => true | _ => false end
        then String "+" (escape r mode)
        else String "%" (String (hexdigit true (code c / 16))
               (String (hexdigit true (code c mod 16)) (escape r mode)))
      else String c (escape r mode)
  end.

Definition stringContainsCTLByte (s : string) : bool :=
  existsb (fun c => (code c <? 32)%N || N.eqb (code c) 127)
          (list_ascii_of_string s).

(** [getScheme]: the text before the first colon when it is a scheme name,
    and the rest. *)
Fixpoint getSchemeFrom (i : nat) (rawURL s : string)
  : error + (string * string) :=
  match s with
  | EmptyString => inr ("", rawURL)
  | String c r =>
      if isLetter c then getSchemeFrom (S i) rawURL r
      else if isDigit c || ContainsByte "+-." c then
        match i with
        | O => inr ("", rawURL)
        | _ => getSchemeFrom (S i) rawURL r
        end
      else if Ascii.eqb c ":" then
        match i with
        | O => inl (errorString "missing protocol scheme")
        | _ => inr (String.substring 0 i rawURL, r)
        end
      else inr ("", rawURL)
  end.

Definition getScheme (rawURL : string) : error + (string * string) :=
  getSchemeFrom 0 rawURL rawURL.

Definition validOptionalPort (port : string) : bool :=
  match port with
  | EmptyString => true
  | String c r => Ascii.eqb c ":" && forallb isDigit (list_ascii_of_string r)
  end.

Definition validUserinfo (s : string) : bool :=
  forallb (fun c => isAlnum c || ContainsByte "-._:~!$&'()*+,;=%@" c)
          (list_ascii_of_string s).

Definition parseHost (host : string) : error + string :=
  if HasPrefix host "[" then
    match splitAtLast host "]" with
    | None => inl (errorString "missing ']' in host")
    | Some (before, fromBracket) =>
        let colonPort := tail fromBracket in
        if negb (validOptionalPort colonPort) then
          inl (fmt.Errorf ("invalid port " ++ strconv.Quote colonPort
                           ++ " after host"))
        else
          match splitAtString before "%25" with
          | Some (h1, h2) =>
              match unescape h1 encodeHost with
              | inl e => inl e
              | inr host1 =>
                  match unescape h2 encodeZone with
                  | inl e => inl e
                  | inr host2 =>
                      match unescape fromBracket encodeHost with
                      | inl e => inl e
                      | inr host3 => inr (host1 ++ host2 ++ host3)
                      end
                  end
              end
          | None => unescape host encodeHost
          end
    end
  else
    match splitAtLast host ":" with
    | Some (_, colonPort) =>
        if negb (validOptionalPort colonPort) then
          inl (fmt.Errorf ("invalid port " ++ strconv.Quote colonPort
                           ++ " after host"))
        else unescape host encodeHost
    | None => unescape host encodeHost
    end.

Definition parseAuthority (authority : string)
  : error + (option Userinfo * string) :=
  match splitAtLast authority "@" with
  | None =>
      match parseHost authority with
      | inl e => inl e
      | inr host => inr (None, host)
      end
  | Some (userinfo, atHost) =>
      match parseHost (tail atHost) with
      | inl e => inl e
      | inr host =>
          if negb (validUserinfo userinfo) then
            inl (errorString "net/url: invalid userinfo")
          else if negb (ContainsByte userinfo ":") then
            match unescape userinfo encodeUserPassword with
            | inl e => inl e
            | inr u =>
                inr (Some {| username := u; password := "";
                             passwordSet := false |}, host)
            end
          else
            let '(uname, pw, _) := Cut userinfo ":" in
            match unescape uname encodeUserPassword with
            | inl e => inl e
            | inr u =>
                match unescape pw encodeUserPassword with
                | inl e => inl e
                | inr p =>
                    inr (Some {| username := u; password := p;
                                 passwordSet := true |}, host)
                end
            end
      end
  end.

(** [URL.setPath]. *)
Definition setPath (u : URL) (p : string) : error + URL :=
  match unescape p encodePath with
  | inl e => inl e
  | inr path =>
      inr {| Scheme := Scheme u; Opaque := Opaque u; User := User u;
             Host := Host u; Path := path;
             RawPath := if String.eqb p (escape path encodePath)
                        then "" else p;
             OmitHost := OmitHost u; ForceQuery := ForceQuery u;
             RawQuery := RawQuery u; Fragment := Fragment u;
             RawFragment := RawFragment u |}
  end.

(** [URL.setFragment]. *)
Definition setFragment (u : URL) (f : string) : error + URL :=
  match unescape f encodeFragment with
  | inl e => inl e
  | inr frag =>
      inr {| Scheme := Scheme u; Opaque := Opaque u; User := User u;
             Host := Host u; Path := Path u; RawPath := RawPath u;
             OmitHost := OmitHost u; ForceQuery := ForceQuery u;
             RawQuery := RawQuery u; Fragment := frag;
             RawFragment := if String.eqb f (escape frag encodeFragment)
                            then "" else f |}
  end.

(** [parse rawURL viaRequest], the URL without its fragment. *)
Definition parse (rawURL : string) (viaRequest : bool) : error + URL :=
  if stringContainsCTLByte rawURL then
    inl (errorString "net/url: invalid control character in URL")
  else if String.eqb rawURL "" && viaRequest then
    inl (errorString "empty url")
  else if String.eqb rawURL "*" then
    inr {| Scheme := ""; Opaque := ""; User := None; Host := "";
           Path := "*"; RawPath := ""; OmitHost := false;
           ForceQuery := false; RawQuery := ""; Fragment := "";
           RawFragment := "" |}
  else
    match getScheme rawURL with
    | inl e => inl e
    | inr (scheme, rest) =>
        let scheme := ToLower scheme in
        let '(rest, force, query) :=
          if HasSuffixByte rest "?" && (CountByte rest "?" =? 1)%nat
          then (dropLast rest, true, "")
          else let '(b, a, _) := Cut rest "?" in (b, false, a) in
        let hasScheme := negb (String.eqb scheme "") in
        if negb (HasPrefix rest "/") && hasScheme then
          inr {| Scheme := scheme; Opaque := rest; User := None;
                 Host := ""; Path := ""; RawPath := ""; OmitHost := false;
                 ForceQuery := force; RawQuery := query; Fragment := "";
                 RawFragment := "" |}
        else if negb (HasPrefix rest "/") && viaRequest then
          inl (errorString "invalid URI for request")
        else if negb (HasPrefix rest "/")
                && ContainsByte (fst (fst (Cut rest "/"))) ":" then
          inl (errorString
                 "first path segment in URL cannot contain colon")
        else
          let withAuthority :=
            (hasScheme || negb viaRequest && negb (HasPrefix rest "///"))
            && HasPrefix rest "//" in
          let authority_rest :=
            if withAuthority then
              let a := String.substring 2 (String.length rest - 2) rest in
              match splitAt a "/" with
              | Some (auth, r) => (auth, r)
              | None => (a, "")
              end
            else ("", rest) in
          match (if withAuthority
                 then parseAuthority (fst authority_rest)
                 else inr (None, "")) with
          | inl e => inl e
          | inr (user, host) =>
              setPath {| Scheme := scheme; Opaque := ""; User := user;
                         Host := host; Path := ""; RawPath := "";
                         OmitHost := negb withAuthority && hasScheme
                                     && HasPrefix rest "/";
                         ForceQuery := force; RawQuery := query;
                         Fragment := ""; RawFragment := "" |}
                      (snd authority_rest)
          end
    end.

(** [url.Parse]. *)
Definition Parse (rawURL : string) : error + URL :=
  let '(u, frag, _) := Cut rawURL "#" in
  match parse u false with
  | inl e => inl (url_Error "parse" u e)
  | inr url =>
      if String.eqb frag "" then inr url
      else match setFragment url frag with
           | inl e => inl (url_Error "parse" rawURL e)
           | inr url' => inr url'
           end
  end.

End url.

(** * unicode/utf8 and unicode/utf16

    Runes are code points, here numbers in [N]. *)

Module utf8.

Import bytes.

Definition RuneError : N := 65533.   (* U+FFFD *)
Definition MaxRune : N := 1114111.   (* U+10FFFF *)
Definition RuneSelf : N := 128.

Definition isCont (c : ascii) : bool := between 128 191 c.

(** The range accepted for the second byte after the leading byte [p0],
    and the length of the sequence: the table [first] with its
    [acceptRanges]; [None] for a byte that starts no sequence. *)
Definition lead (p0 : ascii) : option (nat * N * N) :=
  let b := code p0 in
  if (b <? 194)%N then None
  else if (b <=? 223)%N then Some (2%nat, 128, 191)%N
  else if (b =? 224)%N then Some (3%nat, 160, 191)%N
  else if (b =? 237)%N then Some (3%nat, 128, 159)%N
  else if (b <=? 239)%N then Some (3%nat, 128, 191)%N
  else if (b =? 240)%N then Some (4%nat, 144, 191)%N
  else if (b <=? 243)%N then Some (4%nat, 128, 191)%N
  else if (b =? 244)%N then Some (4%nat, 128, 143)%N
  else None.

Definition low6 (c : ascii) : N := N.land (code c) 63.

(** [utf8.DecodeRune] on a text that is not empty: the rune at its head
    and the number of bytes it takes; [(RuneError, 1)] for a byte that
    starts no well-formed sequence. *)
Definition DecodeRune (p0 : ascii) (r : string) : N * nat :=
  if (code p0 <? RuneSelf)%N then (code p0, 1%nat)
  else
    match lead p0 with
    | None => (RuneError, 1%nat)
    | Some (sz, lo, hi) =>
        match r with
        | String b1 r1 =>
            if negb (between lo hi b1) then (RuneError, 1%nat)
            else
              match sz with
              | 2%nat =>
                  (N.lor (N.shiftl (N.land (code p0) 31) 6) (low6 b1),
                   2%nat)
              | _ =>
                  match r1 with
                  | String b2 r2 =>
                      if negb (isCont b2) then (RuneError, 1%nat)
                      else
                        match sz with
                        | 3%nat =>
                            (N.lor (N.lor
                               (N.shiftl (N.land (code p0) 15) 12)
                               (N.shiftl (low6 b1) 6)) (low6 b2), 3%nat)
                        | _ =>
                            match r2 with
                            | String b3 _ =>
                                if negb (isCont b3) then (RuneError, 1%nat)
                                else
                                  (N.lor (N.lor (N.lor
                                     (N.shiftl (N.land (code p0) 7) 18)
                                     (N.shiftl (low6 b1) 12))
                                     (N.shiftl (low6 b2) 6)) (low6 b3),
                                   4%nat)
                            | EmptyString => (RuneError, 1%nat)
                            end
                        end
                  | EmptyString => (RuneError, 1%nat)
                  end
              end
        | EmptyString => (RuneError, 1%nat)
        end
    end.

Definition cont (n : N) : ascii := ascii_of_N (N.lor 128 (N.land n 63)).

(** [utf8.AppendRune]: the encoding of a rune, that of [RuneError] for a
    surrogate or a rune out of range. *)
Definition EncodeRune (r : N) : string :=
  if (r <=? 127)%N then String (ascii_of_N r) ""
  else if (r <=? 2047)%N then
    String (ascii_of_N (N.lor 192 (N.shiftr r 6))) (String (cont r) "")
  else if (MaxRune <? r)%N || ((55296 <=? r) && (r <=? 57343))%N then
    String "239" (String "191" (String "189" ""))
  else if (r <=? 65535)%N then
    String (ascii_of_N (N.lor 224 (N.shiftr r 12)))
      (String (cont (N.shiftr r 6)) (String (cont r) ""))
  else
    String (ascii_of_N (N.lor 240 (N.shiftr r 18)))
      (String (cont (N.shiftr r 12))
         (String (cont (N.shiftr r 6)) (String (cont r) ""))).

End utf8.

Module utf16.

Definition IsSurrogate (r : N) : bool := ((55296 <=? r) && (r <? 57344))%N.

(** [utf16.DecodeRune]: the rune of a surrogate pair, U+FFFD when the two
    are no pair. *)
Definition DecodeRune (r1 r2 : N) : N :=
  if ((55296 <=? r1) && (r1 <? 56320) && (56320 <=? r2) && (r2 <? 57344))%N
  then (N.lor (N.shiftl (r1 - 55296) 10) (r2 - 56320) + 65536)%N
  else utf8.RuneError.

End utf16.

(** * encoding/json: the syntax of a value

    The decoder first scans one complete value (the state machine of
    [scanner.go]), then stores it into the target.  The scan is modelled by
    a parser to a tree; a string in the tree is already unquoted. *)

Module json.

Import bytes.

#[warnings="-register-all"]
Inductive value : Type :=
| Null
| Bool (b : bool)
| Number (lit : string)
| Str (s : string)
| Array (elems : list value)
| Object (members : list (string * value)).

(** What scanning a prefix of the input gives: a result and the text left,
    the end of the input inside a value, or a byte that cannot stand
    where it does.  [ScanFuel] is the recursion bound of the model,
    never met on the fuel the decoder starts with. *)
Inductive scan (A : Type) : Type :=
| Scanned (a : A) (rest : string)
| ScanEOF
| ScanError (c : ascii) (context : string)
| ScanFuel.
Arguments Scanned {A} a rest.
Arguments ScanEOF {A}.
Arguments ScanError {A} c context.
Arguments ScanFuel {A}.

Definition scan_map {A B} (f : A -> B) (x : scan A) : scan B :=
  match x with
  | Scanned a rest => Scanned (f a) rest
  | ScanEOF => ScanEOF
  | ScanError c ctx => ScanError c ctx
  | ScanFuel => ScanFuel
  end.

Definition isSpace (c : ascii) : bool :=
  Ascii.eqb c " " || Ascii.eqb c "009" || Ascii.eqb c "013"
  || Ascii.eqb c "010".

Fixpoint skipSpace (s : string) : string :=
  match s with
  | EmptyString => EmptyString
  | String c r => if isSpace c then skipSpace r else s
  end.

(** ** Strings *)

Definition hex4 (h1 h2 h3 h4 : ascii) : N :=
  (((unhex h1 * 16 + unhex h2) * 16 + unhex h3) * 16 + unhex h4)%N.

(** [getu4]: the rune of a [\uXXXX] at the head of the text. *)
Definition getu4 (s : string) : option N :=
  match s with
  | String b (String u (String h1 (String h2 (String h3 (String h4 _))))) =>
      if Ascii.eqb b "\" && Ascii.eqb u "u"
         && ishex h1 && ishex h2 && ishex h3 && ishex h4
      then Some (hex4 h1 h2 h3 h4) else None
  | _ => None
  end.

(** An escape, seen from the byte after the backslash: the text it stands
    for and the number of bytes it takes after the backslash. *)
Inductive escape : Type :=
| EscText (t : string) (len : nat)
| EscEOF
| EscBad (c : ascii) (context : string).

Definition uContext : string := "in \u hexadecimal character escape".

Definition escapeAt (r : string) : escape :=
  match r with
  | EmptyString => EscEOF
  | String e r1 =>
      if Ascii.eqb e dquote || Ascii.eqb e "\" || Ascii.eqb e "/"
      then EscText (String e "") 1
      else if Ascii.eqb e "b" then EscText (String "008" "") 1
      else if Ascii.eqb e "f" then EscText (String "012" "") 1
      else if Ascii.eqb e "n" then EscText (String "010" "") 1
      else if Ascii.eqb e "r" then EscText (String "013" "") 1
      else if Ascii.eqb e "t" then EscText (String "009" "") 1
      else if Ascii.eqb e "u" then
        match r1 with
        | EmptyString => EscEOF
        | String h1 r2 =>
            if negb (ishex h1) then EscBad h1 uContext else
            match r2 with
            | EmptyString => EscEOF
            | String h2 r3 =>
                if negb (ishex h2) then EscBad h2 uContext else
                match r3 with
                | EmptyString => EscEOF
                | String h3 r4 =>
                    if negb (ishex h3) then EscBad h3 uContext else
                    match r4 with
                    | EmptyString => EscEOF
                    | String h4 r5 =>
                        if negb (ishex h4) then EscBad h4 uContext else
                        let rr := hex4 h1 h2 h3 h4 in
                        if utf16.IsSurrogate rr then
                          match getu4 r5 with
                          | Some rr1 =>
                              let dec := utf16.DecodeRune rr rr1 in
                              if negb (N.eqb dec utf8.RuneError)
                              then EscText (utf8.EncodeRune dec) 11
                              else EscText (utf8.EncodeRune utf8.RuneError) 5
                          | None => EscText (utf8.EncodeRune utf8.RuneError) 5
                          end
                        else EscText (utf8.EncodeRune rr) 5
                    end
                end
            end
        end
      else EscBad e "in string escape code"
  end.

(** The text of a string literal from the byte after its opening quote,
    unquoted as [unquoteBytes] does, and the input after its closing
    quote.  [skip] counts the bytes of the current escape or rune that
    remain to be passed over. *)
Fixpoint unquoteFrom (skip : nat) (s : string) : scan string :=
  match s with
  | EmptyString => ScanEOF
  | String c r =>
      match skip with
      | S k => unquoteFrom k r
      | O =>
          if Ascii.eqb c dquote then Scanned "" r
          else if Ascii.eqb c "\" then
            match escapeAt r with
            | EscText t n => scan_map (append t) (unquoteFrom n r)
            | EscEOF => ScanEOF
            | EscBad c' ctx => ScanError c' ctx
            end
          else if (code c <? 32)%N then ScanError c "in string literal"
          else if (code c <? utf8.RuneSelf)%N then
            scan_map (String c) (unquoteFrom 0 r)
          else
            let '(rr, size) := utf8.DecodeRune c r in
            scan_map (append (utf8.EncodeRune rr))
                     (unquoteFrom (size - 1) r)
      end
  end.

Definition scanString (s : string) : scan string := unquoteFrom 0 s.

(** ** Numbers *)

Fixpoint digits (s : string) : string * string :=
  match s with
  | EmptyString => (EmptyString, EmptyString)
  | String c r =>
      if isDigit c then let '(d, r') := digits r in (String c d, r')
      else (EmptyString, s)
  end.

(** A run of digits, at least one. *)
Definition digits1 (context : string) (s : string) : scan string :=
  match s with
  | EmptyString => ScanEOF
  | String c _ =>
      if isDigit c then let '(d, r) := digits s in Scanned d r
      else ScanError c context
  end.

Definition scanExponent (s : string) : scan string :=
  match s with
  | String e r =>
      if Ascii.eqb e "e" || Ascii.eqb e "E" then
        match r with
        | EmptyString => ScanEOF
        | String sg r1 =>
            if Ascii.eqb sg "+" || Ascii.eqb sg "-" then
              scan_map (fun d => String e (String sg d))
                       (digits1 "in exponent of numeric literal" r1)
            else
              scan_map (String e)
                       (digits1 "in exponent of numeric literal" r)
        end
      else Scanned "" s
  | EmptyString => Scanned "" s
  end.

Definition scanFraction (s : string) : scan string :=
  match s with
  | String p r =>
      if Ascii.eqb p "." then
        match digits1 "after decimal point in numeric literal" r with
        | Scanned d r1 =>
            scan_map (fun x => String p (d ++ x)) (scanExponent r1)
        | ScanEOF => ScanEOF
        | ScanError c ctx => ScanError c ctx
        | ScanFuel => ScanFuel
        end
      else scanExponent s
  | EmptyString => Scanned "" s
  end.

Definition scanUnsigned (s : string) : scan string :=
  match s with
  | EmptyString => ScanEOF
  | String c r =>
      if Ascii.eqb c "0" then scan_map (String c) (scanFraction r)
      else if isDigit c then
        let '(d, r1) := digits r in
        scan_map (fun x => String c (d ++ x)) (scanFraction r1)
      else ScanError c "in numeric literal"
  end.

(** The literal of a number at the head of the text. *)
Definition scanNumber (s : string) : scan string :=
  match s with
  | String c r =>
      if Ascii.eqb c "-" then scan_map (String c) (scanUnsigned r)
      else scanUnsigned s
  | EmptyString => ScanEOF
  end.

(** ** The literals true, false and null *)

Fixpoint expect (lit name : string) (s : string) : scan unit :=
  match lit with
  | EmptyString => Scanned tt s
  | String l lit' =>
      match s with
      | EmptyString => ScanEOF
      | String c r =>
          if Ascii.eqb c l then expect lit' name r
          else ScanError c ("in literal " ++ name ++ " (expecting '"
                            ++ String l "')")
      end
  end.

(** ** Values *)

Definition noValue : string := "looking for beginning of value".

Fixpoint scanValue (fuel : nat) (s : string) : scan value :=
  match fuel with
  | O => ScanFuel
  | S f =>
      match skipSpace s with
      | EmptyString => ScanEOF
      | String c r =>
          if Ascii.eqb c "{" then
            match skipSpace r with
            | EmptyString => ScanEOF
            | String c' r' =>
                if Ascii.eqb c' "}" then Scanned (Object []) r'
                else scan_map Object (scanMembers f (String c' r'))
            end
          else if Ascii.eqb c "[" then
            match skipSpace r with
            | EmptyString => ScanEOF
            | String c' r' =>
                if Ascii.eqb c' "]" then Scanned (Array []) r'
                else scan_map Array (scanElements f (String c' r'))
            end
          else if Ascii.eqb c dquote then scan_map Str (scanString r)
          else if Ascii.eqb c "-" || isDigit c then
            scan_map Number (scanNumber (String c r))
          else if Ascii.eqb c "t" then
            scan_map (fun _ => Bool true) (expect "rue" "true" r)
          else if Ascii.eqb c "f" then
            scan_map (fun _ => Bool false) (expect "alse" "false" r)
          else if Ascii.eqb c "n" then
            scan_map (fun _ => Null) (expect "ull" "null" r)
          else ScanError c noValue
      end
  end

with scanElements (fuel : nat) (s : string) : scan (list value) :=
  match fuel with
  | O => ScanFuel
  | S f =>
      match scanValue f s with
      | Scanned v r1 =>
          match skipSpace r1 with
          | EmptyString => ScanEOF
          | String c r2 =>
              if Ascii.eqb c "," then scan_map (cons v) (scanElements f r2)
              else if Ascii.eqb c "]" then Scanned [v] r2
              else ScanError c "after array element"
          end
      | ScanEOF => ScanEOF
      | ScanError c ctx => ScanError c ctx
      | ScanFuel => ScanFuel
      end
  end

with scanMembers (fuel : nat) (s : string) : scan (list (string * value)) :=
  match fuel with
  | O => ScanFuel
  | S f =>
      match s with
      | EmptyString => ScanEOF
      | String q r =>
          if negb (Ascii.eqb q dquote) then
            ScanError q "looking for beginning of object key string"
          else
            match scanString r with
            | Scanned k r1 =>
                match skipSpace r1 with
                | EmptyString => ScanEOF
                | String c1 r2 =>
                    if negb (Ascii.eqb c1 ":") then
                      ScanError c1 "after object key"
                    else
                      match scanValue f r2 with
                      | Scanned v r3 =>
                          match skipSpace r3 with
                          | EmptyString => ScanEOF
                          | String c3 r4 =>
                              if Ascii.eqb c3 "," then
                                scan_map (cons (k, v))
                                         (scanMembers f (skipSpace r4))
                              else if Ascii.eqb c3 "}" then
                                Scanned [(k, v)] r4
                              else
                                ScanError c3 "after object key:value pair"
                          end
                      | ScanEOF => ScanEOF
                      | ScanError c ctx => ScanError c ctx
                      | ScanFuel => ScanFuel
                      end
                end
            | ScanEOF => ScanEOF
            | ScanError c ctx => ScanError c ctx
            | ScanFuel => ScanFuel
            end
      end
  end.

(** ** Writing a value *)

(** [htmlSafeSet]: the ASCII bytes a string literal holds as they are. *)
Definition htmlSafe (c : ascii) : bool :=
  (32 <=? code c)%N && (code c <? 128)%N
  && negb (Ascii.eqb c dquote || Ascii.eqb c "\" || Ascii.eqb c "<"
           || Ascii.eqb c ">" || Ascii.eqb c "&").

Definition hexLower (n : N) : ascii := hexdigit false n.

(** The escape of an ASCII byte that is not [htmlSafe]. *)
Definition escapeByte (c : ascii) : string :=
  if Ascii.eqb c "\" || Ascii.eqb c dquote then String "\" (String c "")
  else if Ascii.eqb c "008" then "\b"
  else if Ascii.eqb c "012" then "\f"
  else if Ascii.eqb c "010" then "\n"
  else if Ascii.eqb c "013" then "\r"
  else if Ascii.eqb c "009" then "\t"
  else "\u00" ++ String (hexLower (N.shiftr (code c) 4))
                   (String (hexLower (N.land (code c) 15)) "").

(** The loop of [appendString] (with [escapeHTML], as an [Encoder] has
    it): the inside of the literal for [s].  [skip] counts the bytes of
    the current rune that remain to be passed over. *)
Fixpoint appendFrom (skip : nat) (s : string) : string :=
  match s with
  | EmptyString => EmptyString
  | String c r =>
      match skip with
      | S k => appendFrom k r
      | O =>
          if (code c <? utf8.RuneSelf)%N then
            (if htmlSafe c then String c "" else escapeByte c)
            ++ appendFrom 0 r
          else
            let '(rr, size) := utf8.DecodeRune c r in
            if N.eqb rr utf8.RuneError && Nat.eqb size 1 then
              "\ufffd" ++ appendFrom 0 r
            else if N.eqb rr 8232 || N.eqb rr 8233 then
              "\u202" ++ String (hexLower (N.land rr 15)) ""
              ++ appendFrom (size - 1) r
            else
              String.substring 0 size s ++ appendFrom (size - 1) r
      end
  end.

Definition appendString (s : string) : string :=
  String dquote (appendFrom 0 s ++ String dquote "").

Fixpoint join (l : list string) : string :=
  match l with
  | [] => ""
  | [x] => x
  | x :: r => x ++ "," ++ join r
  end.

(** The compact text of a value, as the encoder writes it. *)
Fixpoint print (v : value) : string :=
  match v with
  | Null => "null"
  | Bool true => "true"
  | Bool false => "false"
  | Number lit => lit
  | Str s => appendString s
  | Array l => "[" ++ join (map print l) ++ "]"
  | Object ms =>
      "{" ++ join (map (fun kv => appendString (fst kv) ++ ":"
                                  ++ print (snd kv)) ms) ++ "}"
  end.

(** ** Storing a value into a Go variable

    [decodeState] keeps the first error it meets ([saveError]) and goes
    on storing. *)

Definition Dec (A : Type) : Type := option error -> A * option error.

Definition ret {A} (a : A) : Dec A := fun saved => (a, saved).

Definition bind {A B} (m : Dec A) (k : A -> Dec B) : Dec B :=
  fun saved => let '(a, saved') := m saved in k a saved'.

Definition saveError (e : error) : Dec unit :=
  fun saved => (tt, match saved with None => Some e | Some _ => saved end).

(** What [UnmarshalTypeError.Value] says of a value that has another
    type than its target. *)
Definition describe (v : value) : string :=
  match v with
  | Null => "null"
  | Bool _ => "bool"
  | Number _ => "number"
  | Str _ => "string"
  | Array _ => "array"
  | Object _ => "object"
  end.

Definition mismatch {A} (ty : GoType) (v : value) (old : A) : Dec A :=
  bind (saveError (json_UnmarshalTypeError (describe v) ty))
       (fun _ => ret old).

Definition storeString (v : value) (old : string) : Dec string :=
  match v with
  | Null => ret old
  | Str s => ret s
  | _ => mismatch T_string v old
  end.

Definition storeBool (v : value) (old : bool) : Dec bool :=
  match v with
  | Null => ret old
  | Bool b => ret b
  | _ => mismatch T_bool v old
  end.

(** Into an [int], of 64 bits. *)
Definition storeInt (v : value) (old : Z) : Dec Z :=
  match v with
  | Null => ret old
  | Number lit =>
      match strconv.ParseInt lit with
      | Some n => ret n
      | None =>
          bind (saveError (json_UnmarshalTypeError ("number " ++ lit) T_int))
               (fun _ => ret old)
      end
  | _ => mismatch T_int v old
  end.

Definition storeFloat64 (v : value) (old : strconv.float64)
  : Dec strconv.float64 :=
  match v with
  | Null => ret old
  | Number lit =>
      match strconv.ParseFloat lit with
      | Some f => ret f
      | None =>
          bind (saveError
                  (json_UnmarshalTypeError ("number " ++ lit) T_float64))
               (fun _ => ret old)
      end
  | _ => mismatch T_float64 v old
  end.

(** The elements of an array, each stored into the element the slice has
    at its index, or into a zero value beyond its length. *)
Fixpoint storeElements {A} (store : value -> A -> Dec A) (zero : A)
         (elems : list value) (old : list A) : Dec (list A) :=
  match elems with
  | [] => ret []
  | v :: vs =>
      bind (store v (hd zero old)) (fun a =>
      bind (storeElements store zero vs (tl old)) (fun r =>
      ret (a :: r)))
  end.

(** Into a slice, [None] the nil slice. *)
Definition storeSlice {A} (elem : GoType) (store : value -> A -> Dec A)
           (zero : A) (v : value) (old : option (list A))
  : Dec (option (list A)) :=
  match v with
  | Null => ret None
  | Array elems =>
      bind (storeElements store zero elems (default [] old)) (fun l =>
      ret (Some l))
  | _ => mismatch (T_slice elem) v old
  end.

(** A field of a struct type as the decoder sees it: the name of its
    [json] tag and the way to store into it. *)
Record field (T : Type) : Type := {
  name : string;
  store : value -> T -> Dec T
}.
Arguments name {T} f.
Arguments store {T} f.

Definition fieldOf {T A} (n : string) (get : T -> A) (set : A -> T -> T)
           (st : value -> A -> Dec A) : field T :=
  {| name := n;
     store := fun v t => bind (st v (get t)) (fun a => ret (set a t)) |}.

(** [foldName] on the runes that fold to an ASCII letter: the letters
    themselves, U+017F (long s) and U+212A (Kelvin sign).  Other runes
    are left as they are; they keep a key from matching a name in
    ASCII. *)
Fixpoint foldName (s : string) : string :=
  match s with
  | EmptyString => EmptyString
  | String c r =>
      match r with
      | String c2 r2 =>
          if Ascii.eqb c "197" && Ascii.eqb c2 "191" then
            String "S" (foldName r2)
          else
            match r2 with
            | String c3 r3 =>
                if Ascii.eqb c "226" && Ascii.eqb c2 "132"
                   && Ascii.eqb c3 "170"
                then String "K" (foldName r3)
                else String (toUpper c) (foldName r)
            | EmptyString => String (toUpper c) (foldName r)
            end
      | EmptyString => String (toUpper c) EmptyString
      end
  end.

(** The field a key names: the one of that name, else the first whose
    name is the key up to case. *)
Definition findField {T} (fields : list (field T)) (key : string)
  : option (field T) :=
  match List.find (fun f => String.eqb (name f) key) fields with
  | Some f => Some f
  | None =>
      List.find (fun f => String.eqb (foldName (name f)) (foldName key))
                fields
  end.

Fixpoint storeMembers {T} (fields : list (field T))
         (ms : list (string * value)) (t : T) : Dec T :=
  match ms with
  | [] => ret t
  | (k, v) :: ms' =>
      bind (match findField fields k with
            | Some f => store f v t
            | None => ret t
            end)
           (storeMembers fields ms')
  end.

Definition storeStruct {T} (ty : GoType) (fields : list (field T))
           (v : value) (old : T) : Dec T :=
  match v with
  | Null => ret old
  | Object ms => storeMembers fields ms old
  | _ => mismatch ty v old
  end.

(** ** Reading a Go value *)

(** A field of a struct type as the encoder sees it. *)
Record encField (T : Type) : Type := {
  tag : string;
  omitEmpty : bool;
  isEmptyValue : T -> bool;
  encode : T -> error + value
}.
Arguments tag {T} e.
Arguments omitEmpty {T} e.
Arguments isEmptyValue {T} e.
Arguments encode {T} e.

Fixpoint encodeFields {T} (fields : list (encField T)) (t : T)
  : error + list (string * value) :=
  match fields with
  | [] => inr []
  | f :: fs =>
      if omitEmpty f && isEmptyValue f t then encodeFields fs t
      else
        match encode f t with
        | inl e => inl e
        | inr v =>
            match encodeFields fs t with
            | inl e => inl e
            | inr ms => inr ((tag f, v) :: ms)
            end
        end
  end.

Definition encodeStruct {T} (fields : list (encField T)) (t : T)
  : error + value :=
  match encodeFields fields t with
  | inl e => inl e
  | inr ms => inr (Object ms)
  end.

Definition encodeString (s : string) : error + value := inr (Str s).

(** [floatEncoder]: no text for a NaN or an infinity; the exponent form
    below 1e-6 and from 1e21 on, its [e-0d] written [e-d]. *)
Definition floatText (f : strconv.float64) : string :=
  let a := SFabs f in
  let useE :=
    negb (match a with S754_zero _ => true | _ => false end)
    && (SFltb a (strconv.fromDecimal false 1 (-6))
        || SFleb (strconv.fromDecimal false 1 21) a) in
  if useE then
    let b := strconv.FormatFloat f "e" in
    let n := String.length b in
    if (4 <=? n)%nat
       && String.eqb (String.substring (n - 4) 3 b) "e-0"
    then String.substring 0 (n - 2) b ++ String.substring (n - 1) 1 b
    else b
  else strconv.FormatFloat f "f".

Definition encodeFloat64 (f : strconv.float64) : error + value :=
  if strconv.IsInf f then
    inl (json_UnsupportedValueError
           (if strconv.isNeg f then "-Inf" else "+Inf"))
  else if strconv.IsNaN f then inl (json_UnsupportedValueError "NaN")
  else inr (Number (floatText f)).

(** A pointer: [null] for nil, else what it points to. *)
Definition encodePtr {A} (enc : A -> error + value) (p : option A)
  : error + value :=
  match p with
  | None => inr Null
  | Some a => enc a
  end.

(** A slice: [null] for the nil slice, else the array of its elements;
    the first element that cannot be written ends the encoding. *)
Fixpoint encodeElements {A} (enc : A -> error + value) (l : list A)
  : error + list value :=
  match l with
  | [] => inr []
  | a :: r =>
      match enc a with
      | inl e => inl e
      | inr v =>
          match encodeElements enc r with
          | inl e => inl e
          | inr vs => inr (v :: vs)
          end
      end
  end.

Definition encodeSlice {A} (enc : A -> error + value) (s : option (list A))
  : error + value :=
  match s with
  | None => inr Null
  | Some l =>
      match encodeElements enc l with
      | inl e => inl e
      | inr vs => inr (Array vs)
      end
  end.

Definition encFieldOf {T A} (n : string) (omit : bool) (get : T -> A)
           (empty : A -> bool) (enc : A -> error + value) : encField T :=
  {| tag := n; omitEmpty := omit;
     isEmptyValue := fun t => empty (get t);
     encode := fun t => enc (get t) |}.

Definition isNil {A} (p : option A) : bool :=
  match p with None => true | Some _ => false end.

(** ** Decoder and Encoder *)

(** [Decoder.readValue] on the bytes the reader has left: the next value
    and the bytes after it. *)
Definition readValue (data : string) : error + (value * string) :=
  match skipSpace data with
  | EmptyString => inl io_EOF
  | s =>
      match scanValue (2 * String.length s + 1) s with
      | Scanned v rest => inr (v, rest)
      | ScanEOF => inl io_ErrUnexpectedEOF
      | ScanError c ctx => inl (json_SyntaxError c ctx)
      | ScanFuel => inl (errorString "json: recursion bound of the model")
      end
  end.

(** [Encoder.Encode] into a [bytes.Buffer]: the text of the value and a
    line feed. *)
Definition Encode (v : error + value) : error + string :=
  match v with
  | inl e => inl e
  | inr j => inr (print j ++ String LF "")
  end.

(** [json.Marshal]: the compact text of the value, with the escaping of
    HTML that [Marshal] and an [Encoder] share. *)
Definition Marshal (v : error + value) : error + string :=
  match v with
  | inl e => inl e
  | inr j => inr (print j)
  end.

End json.

(** A piece of JSON text with its quotes: [q "id"] is the four bytes of the
    literal for the text [id]. *)
Definition q (s : string) : string :=
  String bytes.dquote (s ++ String bytes.dquote "").

(** * net/http

    The world the client acts on: the requests handed to an HTTP client so
    far, and the bodies of the responses received, each a reader the
    client may read from and has to close.  A response refers to its body
    by its index in the store. *)

Module http.

Import bytes strings.

(** A [context.Context], an opaque handle the transport consults. *)
Definition Context : Type := nat.

Record Request : Type := {
  Method : string;
  URL : url.URL;
  Header : gmap string (list string);
  Body : option string;
  ContentLength : Z;
  Host : string;
  ctx : Context
}.

(** The body of a response: the bytes the server sent, whether a reader
    has been reading from it, and whether it has been closed. *)
Record ReadCloser : Type := {
  data : string;
  readFrom : bool;
  closed : bool
}.

Record Response : Type := {
  StatusCode : Z;
  RespBody : nat
}.

Record World : Type := {
  requests : list Request;
  bodies : list ReadCloser
}.

Definition IO (A : Type) : Type := World -> A * World.

Definition ret {A} (a : A) : IO A := fun w => (a, w).

Definition bind {A B} (m : IO A) (k : A -> IO B) : IO B :=
  fun w => let '(a, w') := m w in k a w'.

(** [defer cleanup] before [body]: [cleanup] runs when [body] has
    produced the results the function returns. *)
Definition defer {A} (cleanup : IO unit) (body : IO A) : IO A :=
  bind body (fun a => bind cleanup (fun _ => ret a)).

(** An [*http.Client]: what [Do] answers to a request, after the
    requests made before it: an error, or a status code and the bytes of
    a body. *)
Record Client : Type := {
  exchange : list Request -> Request -> error + (Z * string)
}.

Definition validHeaderFieldByte (c : ascii) : bool :=
  isAlnum c || ContainsByte "!#$%&'*+-.^_`|~" c.

Fixpoint canonical (upper : bool) (s : string) : string :=
  match s with
  | EmptyString => EmptyString
  | String c r =>
      let c' := if upper then toUpper c else toLower c in
      String c' (canonical (Ascii.eqb c' "-") r)
  end.

(** [textproto.CanonicalMIMEHeaderKey]. *)
Definition CanonicalMIMEHeaderKey (s : string) : string :=
  if forallb validHeaderFieldByte (list_ascii_of_string s)
  then canonical true s else s.

(** [req.Header.Set key value]. *)
Definition Header_Set (req : Request) (key value : string) : Request :=
  {| Method := Method req; URL := URL req;
     Header := <[CanonicalMIMEHeaderKey key := [value]]> (Header req);
     Body := Body req; ContentLength := ContentLength req;
     Host := Host req; ctx := ctx req |}.

(** [req.WithContext ctx]. *)
Definition WithContext (req : Request) (c : Context) : Request :=
  {| Method := Method req; URL := URL req; Header := Header req;
     Body := Body req; ContentLength := ContentLength req;
     Host := Host req; ctx := c |}.

Definition validMethod (method : string) : bool :=
  negb (String.eqb method "")
  && forallb validHeaderFieldByte (list_ascii_of_string method).

Definition removeEmptyPort (host : string) : string :=
  match splitAtLast host ":" with
  | Some (before, colonPort) =>
      if String.eqb colonPort ":" && negb (ContainsByte colonPort "]")
      then before else host
  | None => host
  end.

(** [context.Background ()]. *)
Definition Background : Context := O.

(** [http.NewRequest method url body], the body a [*bytes.Buffer] or
    nil. *)
Definition NewRequest (method rawURL : string) (body : option string)
  : error + Request :=
  let method := if String.eqb method "" then "GET" else method in
  if negb (validMethod method) then
    inl (fmt.Errorf ("net/http: invalid method " ++ strconv.Quote method))
  else
    match url.Parse rawURL with
    | inl err => inl err
    | inr u =>
        let host := removeEmptyPort (url.Host u) in
        let u' :=
          {| url.Scheme := url.Scheme u; url.Opaque := url.Opaque u;
             url.User := url.User u; url.Host := host;
             url.Path := url.Path u; url.RawPath := url.RawPath u;
             url.OmitHost := url.OmitHost u;
             url.ForceQuery := url.ForceQuery u;
             url.RawQuery := url.RawQuery u;
             url.Fragment := url.Fragment u;
             url.RawFragment := url.RawFragment u |} in
        inr {| Method := method; URL := u'; Header := ∅; Body := body;
               ContentLength :=
                 match body with
                 | Some b => Z.of_nat (String.length b)
                 | None => 0
                 end;
               Host := host; ctx := Background |}
    end.

(** [client.Do req]: the request goes out; a response brings a new body
    into the store. *)
Definition Do (c : Client) (req : Request) : IO (error + Response) :=
  fun w =>
    match exchange c (requests w) req with
    | inl err =>
        (inl err, {| requests := requests w ++ [req]; bodies := bodies w |})
    | inr (code, bytes) =>
        (inr {| StatusCode := code; RespBody := length (bodies w) |},
         {| requests := requests w ++ [req];
            bodies := bodies w ++ [{| data := bytes; readFrom := false;
                                      closed := false |}] |})
    end.

(** [resp.Body.Close ()]. *)
Definition Close (body : nat) : IO unit :=
  fun w =>
    (tt, {| requests := requests w;
            bodies := alter (fun b => {| data := data b;
                                         readFrom := readFrom b;
                                         closed := true |})
                            body (bodies w) |}).

(** [json.NewDecoder(body).Decode(&target)]: the decoder reads from the
    body, scans one value and stores it into the target.  The target
    keeps what was stored into it when an error comes back. *)
Definition Decode {T} (body : nat) (store : json.value -> T -> json.Dec T)
           (target : T) : IO (T * option error) :=
  fun w =>
    match bodies w !! body with
    | None =>
        ((target, Some (errorString "http: read on closed response body")),
         w)
    | Some b =>
        if closed b then
          ((target, Some (errorString "http: read on closed response body")),
           w)
        else
          let w' :=
            {| requests := requests w;
               bodies := <[body := {| data := data b; readFrom := true;
                                      closed := false |}]> (bodies w) |} in
          match json.readValue (data b) with
          | inl err => ((target, Some err), w')
          | inr (v, _) => (store v target None, w')
          end
    end.

Definition StatusOK : Z := 200.

End http.

(** * Package sleepme *)

Import http.

Definition ProductionAPIEndpoint : string := "https://api.developer.sleep.me/v1".

(** [Client.Client] is the embedded [*http.Client]. *)
Record Client : Type := {
  APIEndpoint : string;
  token : string;
  http_Client : http.Client
}.

(** A configuration function, [func(c *Client) error]: it may change the
    client it is given and act on the world, and may return an error. *)
Definition Option : Type := Client -> IO (Client * option error).

(** The loop of [New] over the options. *)
Fixpoint applyOptions (opts : list Option) (c : Client)
  : IO (option Client * option error) :=
  match opts with
  | [] => ret (Some c, None)
  | opt :: rest =>
      bind (opt c) (fun r =>
        match r with
        | (_, Some err) => ret (None, Some err)
        | (c', None) => applyOptions rest c'
        end)
  end.

Section New.

(** [&http.Client{}], the client of the default transport. *)
Variable DefaultClient : http.Client.

Definition New (tok : string) (opts : list Option)
  : IO (option Client * option error) :=
  applyOptions opts
    {| token := tok;
       APIEndpoint := ProductionAPIEndpoint;
       http_Client := DefaultClient |}.

End New.

(** Device represents a Dock Pro unit. *)
Record Device : Type := {
  ID : string;
  Name : string;
  Attachments : option (list string)
}.

Definition T_Device : GoType := T_struct "sleepme.Device".

Definition Device_zero : Device :=
  {| ID := ""; Name := ""; Attachments := None |}.

(** The fields of [Device] by their [json] tags. *)
Definition Device_fields : list (json.field Device) :=
  [ json.fieldOf "id" ID
      (fun x d => {| ID := x; Name := Name d; Attachments := Attachments d |})
      json.storeString;
    json.fieldOf "name" Name
      (fun x d => {| ID := ID d; Name := x; Attachments := Attachments d |})
      json.storeString;
    json.fieldOf "attachments" Attachments
      (fun x d => {| ID := ID d; Name := Name d; Attachments := x |})
      (json.storeSlice T_string json.storeString "") ].

Definition storeDevice : json.value -> Device -> json.Dec Device :=
  json.storeStruct T_Device Device_fields.

Definition storeDevices
  : json.value -> option (list Device) -> json.Dec (option (list Device)) :=
  json.storeSlice T_Device storeDevice Device_zero.

Definition statusError (code : Z) : error :=
  fmt.Errorf ("expected 200, got " ++ strconv.Itoa code).

(** ListDevices lists all Dock Pro units available with the active user.
    In [return res, Decode(&res)] the call comes first and [res] is read
    after it. *)
Definition ListDevices (c : Client) (ctx : Context)
  : IO (option (list Device) * option error) :=
  match NewRequest "GET" (APIEndpoint c ++ "/devices") None with
  | inl err => ret (None, Some err)
  | inr req =>
      let req := Header_Set req "Accept" "application/json" in
      let req := Header_Set req "Authorization" ("Bearer " ++ token c) in
      let req := WithContext req ctx in
      bind (Do (http_Client c) req) (fun r =>
        match r with
        | inl err => ret (None, Some err)
        | inr resp =>
            defer (Close (RespBody resp))
              (if negb (StatusCode resp =? StatusOK) then
                 ret (None, Some (statusError (StatusCode resp)))
               else
                 Decode (RespBody resp) storeDevices None)
        end)
  end.

(** DeviceDetails contains all the details available via the API. *)
Module About.
Record t : Type := {
  FirmwareVersion : string;
  IpAddress : string;
  LanAddress : string;
  MacAddress : string;
  Model : string;
  SerialNumber : string
}.
Definition zero : t :=
  {| FirmwareVersion := ""; IpAddress := ""; LanAddress := "";
     MacAddress := ""; Model := ""; SerialNumber := "" |}.
End About.

Module Control.
Record t : Type := {
  BrightnessLevel : Z;
  DisplayTemperatureUnit : string;
  SetTemperatureC : Z;
  SetTemperatureF : Z;
  ThermalControlStatus : string;
  TimeZone : string
}.
Definition zero : t :=
  {| BrightnessLevel := 0; DisplayTemperatureUnit := "";
     SetTemperatureC := 0; SetTemperatureF := 0;
     ThermalControlStatus := ""; TimeZone := "" |}.
End Control.

Module Status.
Record t : Type := {
  IsConnected : bool;
  IsWaterLow : bool;
  WaterLevel : Z;
  WaterTemperatureF : Z;
  WaterTemperatureC : strconv.float64
}.
Definition zero : t :=
  {| IsConnected := false; IsWaterLow := false; WaterLevel := 0;
     WaterTemperatureF := 0; WaterTemperatureC := S754_zero false |}.
End Status.

Record DeviceDetails : Type := {
  About : About.t;
  Control : Control.t;
  Status : Status.t
}.

Definition DeviceDetails_zero : DeviceDetails :=
  {| About := About.zero; Control := Control.zero; Status := Status.zero |}.

Definition T_About : GoType := T_struct "struct About".
Definition T_Control : GoType := T_struct "struct Control".
Definition T_Status : GoType := T_struct "struct Status".
Definition T_DeviceDetails : GoType := T_struct "sleepme.DeviceDetails".

Definition About_fields : list (json.field About.t) :=
  let mk a b c d e f :=
    {| About.FirmwareVersion := a; About.IpAddress := b;
       About.LanAddress := c; About.MacAddress := d; About.Model := e;
       About.SerialNumber := f |} in
  [ json.fieldOf "firmware_version" About.FirmwareVersion
      (fun x t => mk x (About.IpAddress t) (About.LanAddress t)
                    (About.MacAddress t) (About.Model t)
                    (About.SerialNumber t)) json.storeString;
    json.fieldOf "ip_address" About.IpAddress
      (fun x t => mk (About.FirmwareVersion t) x (About.LanAddress t)
                    (About.MacAddress t) (About.Model t)
                    (About.SerialNumber t)) json.storeString;
    json.fieldOf "lan_address" About.LanAddress
      (fun x t => mk (About.FirmwareVersion t) (About.IpAddress t) x
                    (About.MacAddress t) (About.Model t)
                    (About.SerialNumber t)) json.storeString;
    json.fieldOf "mac_address" About.MacAddress
      (fun x t => mk (About.FirmwareVersion t) (About.IpAddress t)
                    (About.LanAddress t) x (About.Model t)
                    (About.SerialNumber t)) json.storeString;
    json.fieldOf "model" About.Model
      (fun x t => mk (About.FirmwareVersion t) (About.IpAddress t)
                    (About.LanAddress t) (About.MacAddress t) x
                    (About.SerialNumber t)) json.storeString;
    json.fieldOf "serial_number" About.SerialNumber
      (fun x t => mk (About.FirmwareVersion t) (About.IpAddress t)
                    (About.LanAddress t) (About.MacAddress t)
                    (About.Model t) x) json.storeString ].

Definition Control_fields : list (json.field Control.t) :=
  let mk a b c d e f :=
    {| Control.BrightnessLevel := a; Control.DisplayTemperatureUnit := b;
       Control.SetTemperatureC := c; Control.SetTemperatureF := d;
       Control.ThermalControlStatus := e; Control.TimeZone := f |} in
  [ json.fieldOf "brightness_level" Control.BrightnessLevel
      (fun x t => mk x (Control.DisplayTemperatureUnit t)
                    (Control.SetTemperatureC t) (Control.SetTemperatureF t)
                    (Control.ThermalControlStatus t) (Control.TimeZone t))
      json.storeInt;
    json.fieldOf "display_temperature_unit" Control.DisplayTemperatureUnit
      (fun x t => mk (Control.BrightnessLevel t) x
                    (Control.SetTemperatureC t) (Control.SetTemperatureF t)
                    (Control.ThermalControlStatus t) (Control.TimeZone t))
      json.storeString;
    json.fieldOf "set_temperature_c" Control.SetTemperatureC
      (fun x t => mk (Control.BrightnessLevel t)
                    (Control.DisplayTemperatureUnit t) x
                    (Control.SetTemperatureF t)
                    (Control.ThermalControlStatus t) (Control.TimeZone t))
      json.storeInt;
    json.fieldOf "set_temperature_f" Control.SetTemperatureF
      (fun x t => mk (Control.BrightnessLevel t)
                    (Control.DisplayTemperatureUnit t)
                    (Control.SetTemperatureC t) x
                    (Control.ThermalControlStatus t) (Control.TimeZone t))
      json.storeInt;
    json.fieldOf "thermal_control_status" Control.ThermalControlStatus
      (fun x t => mk (Control.BrightnessLevel t)
                    (Control.DisplayTemperatureUnit t)
                    (Control.SetTemperatureC t) (Control.SetTemperatureF t)
                    x (Control.TimeZone t))
      json.storeString;
    json.fieldOf "time_zone" Control.TimeZone
      (fun x t => mk (Control.BrightnessLevel t)
                    (Control.DisplayTemperatureUnit t)
                    (Control.SetTemperatureC t) (Control.SetTemperatureF t)
                    (Control.ThermalControlStatus t) x)
      json.storeString ].

Definition Status_fields : list (json.field Status.t) :=
  let mk a b c d e :=
    {| Status.IsConnected := a; Status.IsWaterLow := b;
       Status.WaterLevel := c; Status.WaterTemperatureF := d;
       Status.WaterTemperatureC := e |} in
  [ json.fieldOf "is_connected" Status.IsConnected
      (fun x t => mk x (Status.IsWaterLow t) (Status.WaterLevel t)
                    (Status.WaterTemperatureF t) (Status.WaterTemperatureC t))
      json.storeBool;
    json.fieldOf "is_water_low" Status.IsWaterLow
      (fun x t => mk (Status.IsConnected t) x (Status.WaterLevel t)
                    (Status.WaterTemperatureF t) (Status.WaterTemperatureC t))
      json.storeBool;
    json.fieldOf "water_level" Status.WaterLevel
      (fun x t => mk (Status.IsConnected t) (Status.IsWaterLow t) x
                    (Status.WaterTemperatureF t) (Status.WaterTemperatureC t))
      json.storeInt;
    json.fieldOf "water_temperature_f" Status.WaterTemperatureF
      (fun x t => mk (Status.IsConnected t) (Status.IsWaterLow t)
                    (Status.WaterLevel t) x (Status.WaterTemperatureC t))
      json.storeInt;
    json.fieldOf "water_temperature_c" Status.WaterTemperatureC
      (fun x t => mk (Status.IsConnected t) (Status.IsWaterLow t)
                    (Status.WaterLevel t) (Status.WaterTemperatureF t) x)
      json.storeFloat64 ].

Definition DeviceDetails_fields : list (json.field DeviceDetails) :=
  [ json.fieldOf "about" About
      (fun x d => {| About := x; Control := Control d; Status := Status d |})
      (json.storeStruct T_About About_fields);
    json.fieldOf "control" Control
      (fun x d => {| About := About d; Control := x; Status := Status d |})
      (json.storeStruct T_Control Control_fields);
    json.fieldOf "status" Status
      (fun x d => {| About := About d; Control := Control d; Status := x |})
      (json.storeStruct T_Status Status_fields) ].

Definition storeDeviceDetails
  : json.value -> DeviceDetails -> json.Dec DeviceDetails :=
  json.storeStruct T_DeviceDetails DeviceDetails_fields.

(** Get fetches details for a specific Dock Pro unit.  The first result is
    the pointer [&res]: [Some d] for a pointer to a record [d]. *)
Definition Get (c : Client) (ctx : Context) (deviceID : string)
  : IO (option DeviceDetails * option error) :=
  match NewRequest "GET" (APIEndpoint c ++ "/devices/" ++ deviceID) None with
  | inl err => ret (None, Some err)
  | inr req =>
      let req := Header_Set req "Accept" "application/json" in
      let req := Header_Set req "Authorization" ("Bearer " ++ token c) in
      let req := WithContext req ctx in
      bind (Do (http_Client c) req) (fun r =>
        match r with
        | inl err => ret (None, Some err)
        | inr resp =>
            defer (Close (RespBody resp))
              (if negb (StatusCode resp =? StatusOK) then
                 ret (None, Some (statusError (StatusCode resp)))
               else
                 bind (Decode (RespBody resp) storeDeviceDetails
                              DeviceDetails_zero)
                      (fun r => ret (Some (fst r), snd r)))
        end)
  end.

(** The fields of [DeviceDetails] and of its three groups as the encoder
    reads their [json] tags; none has [omitempty]. *)
Definition never {A} (_ : A) : bool := false.






(** The fields of [Device] as the encoder reads their [json] tags, and a
    slice of devices. *)
Definition Device_encFields : list (json.encField Device) :=
  [ json.encFieldOf "id" false ID never json.encodeString;
    json.encFieldOf "name" false Name never json.encodeString;
    json.encFieldOf "attachments" false Attachments never
      (json.encodeSlice json.encodeString) ].

Definition encodeDevice (d : Device) : error + json.value :=
  json.encodeStruct Device_encFields d.

Definition encodeDevices (l : option (list Device)) : error + json.value :=
  json.encodeSlice encodeDevice l.

(** ThermalControlStatus configures if the unit is active or not. *)
Definition ThermalControlStatus : Type := string.
Definition ThermalControlStatusActive : ThermalControlStatus := "active".
Definition ThermalControlStatusStandby : ThermalControlStatus := "standby".

(** DisplayTemperatureUnit configures what unit is used in the Dock Pro
    display. *)
Definition DisplayTemperatureUnit : Type := string.
Definition DisplayTemperatureUnitC : DisplayTemperatureUnit := "c".
Definition DisplayTemperatureUnitF : DisplayTemperatureUnit := "f".

(** UpdateRequest contains all the fields that can be changed via the API
    on a Dock Pro.  Every field is a pointer, [None] the nil pointer. *)
Module UpdateRequest.
Record t : Type := {
  ThermalControlStatus : option ThermalControlStatus;
  SetTemperatureF : option strconv.float64;
  SetTemperatureC : option strconv.float64;
  DisplayTemperatureUnit : option DisplayTemperatureUnit;
  TimeZone : option string
}.
End UpdateRequest.

(** The fields of [UpdateRequest] by their [json] tags, each with
    [omitempty]. *)
Definition UpdateRequest_fields : list (json.encField UpdateRequest.t) :=
  [ json.encFieldOf "thermal_control_status" true
      UpdateRequest.ThermalControlStatus json.isNil
      (json.encodePtr json.encodeString);
    json.encFieldOf "set_temperature_f" true
      UpdateRequest.SetTemperatureF json.isNil
      (json.encodePtr json.encodeFloat64);
    json.encFieldOf "set_temperature_c" true
      UpdateRequest.SetTemperatureC json.isNil
      (json.encodePtr json.encodeFloat64);
    json.encFieldOf "display_temperature_unit" true
      UpdateRequest.DisplayTemperatureUnit json.isNil
      (json.encodePtr json.encodeString);
    json.encFieldOf "time_zone" true
      UpdateRequest.TimeZone json.isNil
      (json.encodePtr json.encodeString) ].

Definition encodeUpdateRequest (r : UpdateRequest.t) : error + json.value :=
  json.encodeStruct UpdateRequest_fields r.

(** Update reconfigures a Dock Pro. *)
Definition Update (c : Client) (ctx : Context) (deviceID : string)
           (r : UpdateRequest.t) : IO (option error) :=
  match json.Encode (encodeUpdateRequest r) with
  | inl err => ret (Some err)
  | inr bs =>
      match NewRequest "PATCH" (APIEndpoint c ++ "/devices/" ++ deviceID)
                       (Some bs) with
      | inl err => ret (Some err)
      | inr req =>
          let req := Header_Set req "Content-Type" "application/json" in
          let req := Header_Set req "Authorization" ("Bearer " ++ token c) in
          let req := WithContext req ctx in
          bind (Do (http_Client c) req) (fun r =>
            match r with
            | inl err => ret (Some err)
            | inr resp =>
                defer (Close (RespBody resp))
                  (if negb (StatusCode resp =? StatusOK) then
                     ret (Some (statusError (StatusCode resp)))
                   else ret None)
            end)
      end
  end.

(** * The vocabulary of the properties

    The notions the statements below are worded in, by the part of the
    development that uses them. *)

(** ** Requests and answers *)

(** The run of an operation from the world [w] hands exactly the request
    [req] to the HTTP client. *)
Definition sends {A} (m : IO A) (w : World) (req : Request) : Prop :=
  requests (snd (m w)) = (requests w ++ [req])%list.

(** The requests the three operations build. *)
Definition readRequest (c : Client) (ctx : Context) (rawURL : string)
  : error + Request :=
  match NewRequest "GET" rawURL None with
  | inl err => inl err
  | inr req =>
      inr (WithContext
             (Header_Set (Header_Set req "Accept" "application/json")
                         "Authorization" ("Bearer " ++ token c)) ctx)
  end.

Definition writeRequest (c : Client) (ctx : Context) (rawURL body : string)
  : error + Request :=
  match NewRequest "PATCH" rawURL (Some body) with
  | inl err => inl err
  | inr req =>
      inr (WithContext
             (Header_Set (Header_Set req "Content-Type" "application/json")
                         "Authorization" ("Bearer " ++ token c)) ctx)
  end.

(** What each operation does with the answer of the HTTP client. *)
Definition afterList (r : error + Response)
  : IO (option (list Device) * option error) :=
  match r with
  | inl err => ret (None, Some err)
  | inr resp =>
      defer (Close (RespBody resp))
        (if negb (StatusCode resp =? StatusOK) then
           ret (None, Some (statusError (StatusCode resp)))
         else Decode (RespBody resp) storeDevices None)
  end.

Definition afterGet (r : error + Response)
  : IO (option DeviceDetails * option error) :=
  match r with
  | inl err => ret (None, Some err)
  | inr resp =>
      defer (Close (RespBody resp))
        (if negb (StatusCode resp =? StatusOK) then
           ret (None, Some (statusError (StatusCode resp)))
         else
           bind (Decode (RespBody resp) storeDeviceDetails DeviceDetails_zero)
                (fun r => ret (Some (fst r), snd r)))
  end.

Definition afterUpdate (r : error + Response) : IO (option error) :=
  match r with
  | inl err => ret (Some err)
  | inr resp =>
      defer (Close (RespBody resp))
        (if negb (StatusCode resp =? StatusOK) then
           ret (Some (statusError (StatusCode resp)))
         else ret None)
  end.

(** The answer of the client, as [Do] hands it on. *)
Definition answer (c : Client) (w : World) (req : Request)
  : error + Response :=
  match exchange (http_Client c) (requests w) req with
  | inl err => inl err
  | inr (code, _) =>
      inr {| StatusCode := code; RespBody := length (bodies w) |}
  end.

Definition afterDo (c : Client) (w : World) (req : Request) : World :=
  snd (Do (http_Client c) req w).

(** ** Concrete clients and worlds *)

(** A client whose server answers every request with the same status code
    and body. *)
Definition fixedClient (code : Z) (bytes : string) : http.Client :=
  {| exchange := fun _ _ => inr (code, bytes) |}.

Definition emptyWorld : World := {| requests := []; bodies := [] |}.

Definition exampleClient (code : Z) (bytes : string) : Client :=
  {| APIEndpoint := "https://api.example.test/v1";
     token := "abc";
     http_Client := fixedClient code bytes |}.

Definition emptyUpdate : UpdateRequest.t :=
  {| UpdateRequest.ThermalControlStatus := None;
     UpdateRequest.SetTemperatureF := None;
     UpdateRequest.SetTemperatureC := None;
     UpdateRequest.DisplayTemperatureUnit := None;
     UpdateRequest.TimeZone := None |}.

(** ** Options *)

(** The options [opts], run one after the other from the client [c] in
    the world [w], all return a nil error and leave the client [c'] in the
    world [w']. *)
Inductive runsOptions
  : list Option -> Client -> World -> Client -> World -> Prop :=
| runs_nil c w : runsOptions [] c w c w
| runs_cons opt opts c w c1 w1 c' w' :
    opt c w = ((c1, None), w1) ->
    runsOptions opts c1 w1 c' w' ->
    runsOptions (opt :: opts) c w c' w'.

(** An option that sets the endpoint, and one that fails. *)
Definition withEndpoint (endpoint : string) : Option :=
  fun c => ret ({| APIEndpoint := endpoint; token := token c;
                   http_Client := http_Client c |}, None).

Definition failingOption (tag : string) : Option :=
  fun c => ret (c, Some (foreign tag)).

(** ** Response bodies *)

Definition closeBody (b : ReadCloser) : ReadCloser :=
  {| data := data b; readFrom := readFrom b; closed := true |}.

Definition freshBody (bytes : string) : ReadCloser :=
  {| data := bytes; readFrom := false; closed := false |}.

(** ** The parts of a URL *)

(** The parts of an identifier as [url.Parse] cuts a text: up to its first
    [?] or [#], between the first [?] and the first [#], and after the
    first [#]. *)
Definition idFragment (id : string) : string :=
  snd (fst (strings.Cut id "#")).

Definition idQuery (id : string) : string :=
  snd (fst (strings.Cut (fst (fst (strings.Cut id "#"))) "?")).

Definition idPath (id : string) : string :=
  fst (fst (strings.Cut (fst (fst (strings.Cut id "#"))) "?")).

(** The URL of a request is the parse of the text it was built from. *)
Definition parsedAs (req : Request) (u : url.URL) : Prop :=
  url.Scheme (URL req) = url.Scheme u
  /\ url.Path (URL req) = url.Path u
  /\ url.RawPath (URL req) = url.RawPath u
  /\ url.RawQuery (URL req) = url.RawQuery u
  /\ url.Fragment (URL req) = url.Fragment u
  /\ url.Host (URL req) = removeEmptyPort (url.Host u).

(** ** The decoder on the bytes of a body *)

(** What the decoder makes of the bytes of a body, for a target [t]. *)
Definition decodeBytes {T} (st : json.value -> T -> json.Dec T) (t : T)
           (bytes : string) : T * option error :=
  match json.readValue bytes with
  | inl e => (t, Some e)
  | inr (v, _) => st v t None
  end.

(** What is stored does not depend on the error saved so far. *)
Definition steady {A} (m : json.Dec A) : Prop :=
  forall s1 s2, fst (m s1) = fst (m s2).



(** ** The fuel of the scanner *)

(** [x] is a result that leaves less input than [s], or a failure other
    than the recursion bound. *)
Definition shrinks {A} (s : string) (x : json.scan A) : Prop :=
  match x with
  | json.Scanned _ r => (String.length r < String.length s)%nat
  | json.ScanFuel => False
  | _ => True
  end.

Definition shrinks_le {A} (s : string) (x : json.scan A) : Prop :=
  match x with
  | json.Scanned _ r => (String.length r <= String.length s)%nat
  | json.ScanFuel => False
  | _ => True
  end.

(** ** The values that fit a target *)














(** A JSON text of the spec: a list of one device. *)
Definition oneDevice : string :=
  "[{" ++ q "id" ++ ":" ++ q "d1" ++ "," ++ q "name" ++ ":" ++ q "Dock"
  ++ "," ++ q "attachments" ++ ":[]}]".

(** A body whose [control] is a number, between two groups that fit. *)
Definition partialDetails : string :=
  "{" ++ q "about" ++ ":{" ++ q "model" ++ ":" ++ q "Dock Pro" ++ "},"
  ++ q "control" ++ ":7," ++ q "status" ++ ":{" ++ q "water_level"
  ++ ":3}}".

(** ** The object of an update *)

(** The sparse patch as the spec words it: one member for each field that
    is set, in the order of the fields, and no member for a field that is
    not. *)
Definition member (tag : string) (v : option json.value)
  : list (string * json.value) :=
  match v with
  | Some x => [(tag, x)]
  | None => []
  end.

Definition sparseObject (r : UpdateRequest.t) : list (string * json.value) :=
  (member "thermal_control_status"
          (json.Str <$> UpdateRequest.ThermalControlStatus r)
   ++ member "set_temperature_f"
          ((fun f => json.Number (json.floatText f))
             <$> UpdateRequest.SetTemperatureF r)
   ++ member "set_temperature_c"
          ((fun f => json.Number (json.floatText f))
             <$> UpdateRequest.SetTemperatureC r)
   ++ member "display_temperature_unit"
          (json.Str <$> UpdateRequest.DisplayTemperatureUnit r)
   ++ member "time_zone" (json.Str <$> UpdateRequest.TimeZone r))%list.

(** A temperature that is set is a number: no NaN and no infinity. *)
Definition isNumber (f : option strconv.float64) : Prop :=
  match f with
  | Some x => strconv.IsNaN x = false /\ strconv.IsInf x = false
  | None => True
  end.


(** The float64 72. *)
Definition float72 : strconv.float64 :=
  S754_finite false 5066549580791808 (-46).

(** ** Runes and well-formed UTF-8 *)

(** A rune from 128 on that UTF-8 encodes: up to [MaxRune] and no
    surrogate. *)
Definition scalar (r : N) : bool :=
  ((128 <=? r) && (r <=? utf8.MaxRune)
   && negb ((55296 <=? r) && (r <=? 57343)))%N.

(** The bytes [EncodeRune] writes for [r] start with a byte from 128 on
    and decode to [r], taking all of them, at least two. *)
Definition decodesBack (r : N) : bool :=
  match utf8.EncodeRune r with
  | String c t =>
      let '(r', n) := utf8.DecodeRune c t in
      (128 <=? bytes.code c)%N && (r' =? r)%N
      && (n =? S (String.length t))%nat && (2 <=? n)%nat
  | EmptyString => false
  end.

(** [decodesBack] on the [scalar] runes of [lo, lo + 2^k). *)
Fixpoint checkRange (k : nat) (lo : N) : bool :=
  match k with
  | O => if scalar lo then decodesBack lo else true
  | S k' =>
      if checkRange k' lo then checkRange k' (lo + 2 ^ N.of_nat k')%N
      else false
  end.

(** The rune [EncodeRune] writes for [r]: U+FFFD for a rune it does not
    encode. *)
Definition canonicalRune (r : N) : N :=
  if scalar r then r else utf8.RuneError.

(** The encoding of a sequence of runes. *)
Fixpoint runeText (rs : list N) : string :=
  match rs with
  | [] => ""
  | r :: rs' => utf8.EncodeRune r ++ runeText rs'
  end.

(** Well-formed UTF-8: the encoding of a sequence of runes. *)
Definition wellFormed (s : string) : Prop := exists rs, s = runeText rs.

(** ** Number literals *)

(** A text that cannot continue a number. *)
Definition endsNumber (rest : string) : bool :=
  match rest with
  | EmptyString => true
  | String c _ =>
      negb (bytes.isDigit c || Ascii.eqb c "." || Ascii.eqb c "e"
            || Ascii.eqb c "E")
  end.

(** The range of an [int] of 64 bits. *)
Definition int64 (n : Z) : bool :=
  ((- 2 ^ 63 <=? n) && (n <=? 2 ^ 63 - 1))%Z.

(** ** The object of a record *)

(** [v] is read back from its text on any fuel from [n] on, before any
    text that cannot continue a number. *)
Definition scansWith (n : nat) (v : json.value) : Prop :=
  forall fuel rest, (n <= fuel)%nat -> endsNumber rest = true ->
    json.scanValue fuel (json.print v ++ rest) = json.Scanned v rest.

(** The text of a member of an object. *)
Definition memberText (kv : string * json.value) : string :=
  json.appendString (fst kv) ++ ":" ++ json.print (snd kv).





(** The scanner takes the whole of [lit] as one number. *)
Definition scannedWhole (lit : string) : bool :=
  match json.scanNumber lit with
  | json.Scanned x EmptyString => String.eqb x lit
  | _ => false
  end.


(** What the decoder guarantees of a record it has filled. *)
Definition goodAbout (a : About.t) : Prop :=
  wellFormed (About.FirmwareVersion a) /\ wellFormed (About.IpAddress a)
  /\ wellFormed (About.LanAddress a) /\ wellFormed (About.MacAddress a)
  /\ wellFormed (About.Model a) /\ wellFormed (About.SerialNumber a).

Definition goodControl (c : Control.t) : Prop :=
  int64 (Control.BrightnessLevel c) = true
  /\ wellFormed (Control.DisplayTemperatureUnit c)
  /\ int64 (Control.SetTemperatureC c) = true
  /\ int64 (Control.SetTemperatureF c) = true
  /\ wellFormed (Control.ThermalControlStatus c)
  /\ wellFormed (Control.TimeZone c).

Definition goodStatus (s : Status.t) : Prop :=
  int64 (Status.WaterLevel s) = true
  /\ int64 (Status.WaterTemperatureF s) = true.

Definition goodDetails (d : DeviceDetails) : Prop :=
  goodAbout (About d) /\ goodControl (Control d) /\ goodStatus (Status d).

(** A text of ASCII bytes, as the names of the fields are. *)
Fixpoint isASCII (s : string) : bool :=
  match s with
  | EmptyString => true
  | String c r => (bytes.code c <? 128)%N && isASCII r
  end.

(** ** Well-formed values *)

(** Every string of the value is well-formed UTF-8. *)
#[warnings="-register-all"]
Inductive wfValue : json.value -> Prop :=
| wf_Null : wfValue json.Null
| wf_Bool b : wfValue (json.Bool b)
| wf_Number lit : wfValue (json.Number lit)
| wf_Str s : wellFormed s -> wfValue (json.Str s)
| wf_Array l : Forall wfValue l -> wfValue (json.Array l)
| wf_Object ms : Forall (fun kv => wfValue (snd kv)) ms ->
                 wfValue (json.Object ms).

(** Storing a well-formed value keeps the property [Q] of the target. *)
Definition keeps {A} (Q : A -> Prop) (st : json.value -> A -> json.Dec A)
  : Prop :=
  forall v old saved, wfValue v -> Q old -> Q (fst (st v old saved)).



(** ** Transports that fail, and white space *)

(** A client whose transport fails on every request with the same error. *)
Definition failingClient (err : error) : http.Client :=
  {| exchange := fun _ _ => inl err |}.

Definition unreachableClient (err : error) : Client :=
  {| APIEndpoint := "https://api.example.test/v1";
     token := "abc";
     http_Client := failingClient err |}.

(** The world after a request that the transport answered with an error:
    the request is on record and no body has come. *)
Definition afterFailure (w : World) (req : Request) : World :=
  {| requests := (requests w ++ [req])%list; bodies := bodies w |}.

(** A text of the white space of JSON only: space, tab, carriage return
    and line feed. *)
Fixpoint allSpace (s : string) : bool :=
  match s with
  | EmptyString => true
  | String c r => json.isSpace c && allSpace r
  end.

(** Two requests that differ at most in their [Authorization] header. *)
Definition sameButAuthorization (r1 r2 : Request) : Prop :=
  Method r1 = Method r2 /\ URL r1 = URL r2 /\ Body r1 = Body r2
  /\ ContentLength r1 = ContentLength r2 /\ Host r1 = Host r2
  /\ http.ctx r1 = http.ctx r2
  /\ delete "Authorization" (Header r1) = delete "Authorization" (Header r2).

(** A body whose [model] is one byte that is no UTF-8. *)
Definition illFormedDetails : string :=
  "{" ++ q "about" ++ ":{" ++ q "model" ++ ":" ++ q (String "255" "")
  ++ "}}".

(** ** The array of a list of devices *)

(** The value the encoder writes for a slice of strings, for a device and
    for a slice of devices: [null] for a nil slice. *)
Definition stringsValue (l : option (list string)) : json.value :=
  match l with
  | None => json.Null
  | Some ss => json.Array (map json.Str ss)
  end.

Definition deviceValue (d : Device) : json.value :=
  json.Object
    [ ("id", json.Str (ID d));
      ("name", json.Str (Name d));
      ("attachments", stringsValue (Attachments d)) ].

Definition devicesValue (l : option (list Device)) : json.value :=
  match l with
  | None => json.Null
  | Some ds => json.Array (map deviceValue ds)
  end.

(** What the decoder guarantees of the devices it has filled. *)
Definition goodStrings (l : option (list string)) : Prop :=
  match l with
  | None => True
  | Some ss => Forall wellFormed ss
  end.

Definition goodDevice (d : Device) : Prop :=
  wellFormed (ID d) /\ wellFormed (Name d) /\ goodStrings (Attachments d).

Definition goodDevices (l : option (list Device)) : Prop :=
  match l with
  | None => True
  | Some ds => Forall goodDevice ds
  end.

(** [v] is read back from its text on enough fuel. *)
Definition scansSome (v : json.value) : Prop := exists n, scansWith n v.

(** A list of two devices, one without attachments. *)
Definition twoDevices : string :=
  "[{" ++ q "id" ++ ":" ++ q "d1" ++ "," ++ q "name" ++ ":" ++ q "Dock"
  ++ "," ++ q "attachments" ++ ":[" ++ q "CHILIPAD_PRO_ME" ++ "]},{"
  ++ q "id" ++ ":" ++ q "d2" ++ "}]".

(** ** What is read from the text of a string *)

(** The text a reader takes from the literal written for [s]: [s] with
    U+FFFD for every byte that is part of no well-formed sequence.  [skip]
    counts the bytes of the current rune that remain to be passed over. *)
Fixpoint validFrom (skip : nat) (s : string) : string :=
  match s with
  | EmptyString => EmptyString
  | String c r =>
      match skip with
      | S k => validFrom k r
      | O =>
          if (bytes.code c <? utf8.RuneSelf)%N then String c (validFrom 0 r)
          else
            let '(rr, size) := utf8.DecodeRune c r in
            utf8.EncodeRune rr ++ validFrom (size - 1) r
      end
  end.

Definition toValid (s : string) : string := validFrom 0 s.

(** The value read from the text of [v], a string or a number. *)
Definition readBack (v : json.value) : json.value :=
  match v with
  | json.Str s => json.Str (toValid s)
  | _ => v
  end.

(** The member read from the text of a member. *)
Definition readBackMember (kv : string * json.value) : string * json.value :=
  (toValid (fst kv), readBack (snd kv)).

(** [v'] is read from the text of [v] on any fuel from [n] on. *)
Definition scansTo (n : nat) (v v' : json.value) : Prop :=
  forall fuel rest, (n <= fuel)%nat -> endsNumber rest = true ->
    json.scanValue fuel (json.print v ++ rest) = json.Scanned v' rest.

(** The temperatures of a request, where set, are numbers whose text is a
    number of JSON. *)
Definition numberText (f : option strconv.float64) : Prop :=
  match f with
  | Some x =>
      strconv.IsNaN x = false /\ strconv.IsInf x = false
      /\ scannedWhole (json.floatText x) = true
  | None => True
  end.

(** The strings of a request, where set, are well-formed UTF-8. *)
Definition textOK (s : option string) : Prop :=
  match s with
  | Some x => wellFormed x
  | None => True
  end.

(** A request with a time zone whose last byte is no UTF-8. *)
Definition illFormedUpdate : UpdateRequest.t :=
  {| UpdateRequest.ThermalControlStatus := Some "active";
     UpdateRequest.SetTemperatureF := Some float72;
     UpdateRequest.SetTemperatureC := None;
     UpdateRequest.DisplayTemperatureUnit := None;
     UpdateRequest.TimeZone := Some ("UTC" ++ String "255" "") |}.

(** ** Members that name no field *)





(** ** The members that reach a field *)




(** ** Bytes after a value *)

(** The text [junk], put after a number that left [r] unread, cannot
    change the number: something was left, or [junk] cannot continue a
    number. *)
Definition cutOff (r junk : string) : Prop :=
  r <> "" \/ endsNumber junk = true.

(** A value whose text ends with its own last byte: any value but a
    number. *)
Definition closedValue (v : json.value) : bool :=
  match v with
  | json.Number _ => false
  | _ => true
  end.

(** * Checks of the library model on concrete inputs *)

Example Itoa_404 : strconv.Itoa 404 = "404".
Proof. reflexivity. Qed.

Example Itoa_neg : strconv.Itoa (-7) = "-7".
Proof. reflexivity. Qed.

Example ParseInt_ok : strconv.ParseInt "-120" = Some (-120).
Proof. reflexivity. Qed.

Example ParseInt_fraction : strconv.ParseInt "1.5" = None.
Proof. reflexivity. Qed.

Example ParseFloat_tenth :
  strconv.ParseFloat "0.1" = Some (S754_finite false 7205759403792794 (-56)).
Proof. vm_compute. reflexivity. Qed.

Example ParseFloat_range : strconv.ParseFloat "1e400" = None.
Proof. vm_compute. reflexivity. Qed.

Example FormatFloat_f :
  option_map (fun f => strconv.FormatFloat f "f") (strconv.ParseFloat "72.50")
  = Some "72.5".
Proof. vm_compute. reflexivity. Qed.

Example FormatFloat_small :
  option_map (fun f => strconv.FormatFloat f "f") (strconv.ParseFloat "-1.5e-3")
  = Some "-0.0015".
Proof. vm_compute. reflexivity. Qed.

Example FormatFloat_big :
  option_map (fun f => strconv.FormatFloat f "f") (strconv.ParseFloat "12e3")
  = Some "12000".
Proof. vm_compute. reflexivity. Qed.

Example FormatFloat_e :
  option_map (fun f => strconv.FormatFloat f "e") (strconv.ParseFloat "1234e20")
  = Some "1.234e+23".
Proof. vm_compute. reflexivity. Qed.

Example FormatFloat_e_small :
  option_map (fun f => strconv.FormatFloat f "e") (strconv.ParseFloat "5e-324")
  = Some "5e-324".
Proof. vm_compute. reflexivity. Qed.

Example FormatFloat_zero :
  strconv.FormatFloat (S754_zero true) "f" = "-0".
Proof. vm_compute. reflexivity. Qed.

Example ParseInt_range : strconv.ParseInt "9223372036854775808" = None.
Proof. reflexivity. Qed.

Example Parse_production :
  url.Parse "https://api.developer.sleep.me/v1/devices" =
  inr {| url.Scheme := "https"; url.Opaque := ""; url.User := None;
         url.Host := "api.developer.sleep.me"; url.Path := "/v1/devices";
         url.RawPath := ""; url.OmitHost := false; url.ForceQuery := false;
         url.RawQuery := ""; url.Fragment := ""; url.RawFragment := "" |}.
Proof. reflexivity. Qed.

Example Parse_bad_escape :
  url.Parse "https://api.developer.sleep.me/v1/devices/%zz" =
  inl (url_Error "parse" "https://api.developer.sleep.me/v1/devices/%zz"
         (url_EscapeError "%zz")).
Proof. reflexivity. Qed.

Example DecodeRune_euro :
  utf8.DecodeRune "226" (String "130" (String "172" "x")) = (8364%N, 3%nat).
Proof. reflexivity. Qed.

Example EncodeRune_euro :
  utf8.EncodeRune 8364 = String "226" (String "130" (String "172" "")).
Proof. reflexivity. Qed.

Example DecodeRune_overlong :
  utf8.DecodeRune "192" (String "128" "") = (utf8.RuneError, 1%nat).
Proof. reflexivity. Qed.

Example scan_scenario :
  json.scanValue 20
    ("[{" ++ q "id" ++ ":" ++ q "d1" ++ "," ++ q "name" ++ ":" ++ q "Dock"
     ++ "," ++ q "attachments" ++ ":[]}]") =
  json.Scanned
    (json.Array [json.Object [("id", json.Str "d1"); ("name", json.Str "Dock");
                              ("attachments", json.Array [])]]) "".
Proof. reflexivity. Qed.

Example scan_escapes :
  json.scanValue 5 (String bytes.dquote ("a\né😀" ++ String bytes.dquote ","))
  = json.Scanned
      (json.Str (String "a" (String "010" (String "195" (String "169"
         (String "240" (String "159" (String "152" (String "128" "")))))))))
      ",".
Proof. reflexivity. Qed.

Example scan_number_then_text :
  json.scanValue 5 " -12.5e+3xyz" = json.Scanned (json.Number "-12.5e+3") "xyz".
Proof. reflexivity. Qed.

Example scan_leading_zero :
  json.scanValue 5 "[01]" = json.ScanError "1" "after array element".
Proof. reflexivity. Qed.

Example scan_truncated :
  json.scanValue 5 "[tru" = json.ScanEOF.
Proof. reflexivity. Qed.

Example canonical_key :
  http.CanonicalMIMEHeaderKey "content-type" = "Content-Type".
Proof. reflexivity. Qed.

(** * Properties of the client *)

Lemma ListDevices_unfold c ctx :
  ListDevices c ctx =
  match readRequest c ctx (APIEndpoint c ++ "/devices") with
  | inl err => ret (None, Some err)
  | inr req => bind (Do (http_Client c) req) afterList
  end.
Proof.
  unfold ListDevices, readRequest.
  destruct (NewRequest _ _ _); reflexivity.
Qed.

Lemma Get_unfold c ctx deviceID :
  Get c ctx deviceID =
  match readRequest c ctx (APIEndpoint c ++ "/devices/" ++ deviceID) with
  | inl err => ret (None, Some err)
  | inr req => bind (Do (http_Client c) req) afterGet
  end.
Proof.
  unfold Get, readRequest.
  destruct (NewRequest _ _ _); reflexivity.
Qed.

Lemma Update_unfold c ctx deviceID r :
  Update c ctx deviceID r =
  match json.Encode (encodeUpdateRequest r) with
  | inl err => ret (Some err)
  | inr bs =>
      match writeRequest c ctx (APIEndpoint c ++ "/devices/" ++ deviceID) bs
      with
      | inl err => ret (Some err)
      | inr req => bind (Do (http_Client c) req) afterUpdate
      end
  end.
Proof.
  unfold Update, writeRequest.
  destruct (json.Encode _); [reflexivity|].
  destruct (NewRequest _ _ _); reflexivity.
Qed.

Lemma app_singleton_neq {A} (l : list A) (x : A) : l <> (l ++ [x])%list.
Proof.
  intros H. apply (f_equal (@length A)) in H.
  rewrite length_app in H. simpl in H. lia.
Qed.

Lemma Do_run c req w :
  Do (http_Client c) req w = (answer c w req, afterDo c w req).
Proof.
  unfold afterDo, answer, Do.
  destruct (exchange _ _ _) as [e|[code bytes]]; reflexivity.
Qed.

Lemma afterDo_requests c w req :
  requests (afterDo c w req) = (requests w ++ [req])%list.
Proof.
  unfold afterDo, Do.
  destruct (exchange _ _ _) as [e|[code bytes]]; reflexivity.
Qed.

Lemma Decode_requests {T} body (st : json.value -> T -> json.Dec T) t w :
  requests (snd (Decode body st t w)) = requests w.
Proof.
  unfold Decode.
  destruct (bodies w !! body) as [b|]; simpl; [|reflexivity].
  destruct (closed b); simpl; [reflexivity|].
  destruct (json.readValue _) as [e|[v s]]; reflexivity.
Qed.

Lemma defer_Close_requests {A} body (m : IO A) w :
  requests (snd (defer (Close body) m w)) = requests (snd (m w)).
Proof. unfold defer, bind, Close, ret. destruct (m w); reflexivity. Qed.

Lemma afterList_requests r w : requests (snd (afterList r w)) = requests w.
Proof.
  destruct r as [e|resp]; simpl; [reflexivity|].
  rewrite defer_Close_requests.
  destruct (negb _); [reflexivity|apply Decode_requests].
Qed.

Lemma afterGet_requests r w : requests (snd (afterGet r w)) = requests w.
Proof.
  destruct r as [e|resp]; simpl; [reflexivity|].
  rewrite defer_Close_requests.
  destruct (negb _); [reflexivity|].
  unfold bind.
  pose proof (Decode_requests (RespBody resp) storeDeviceDetails
                DeviceDetails_zero w) as H.
  destruct (Decode _ _ _ w); exact H.
Qed.

Lemma afterUpdate_requests r w : requests (snd (afterUpdate r w)) = requests w.
Proof.
  destruct r as [e|resp]; simpl; [reflexivity|].
  rewrite defer_Close_requests.
  destruct (negb _); reflexivity.
Qed.

(** An operation that sends [req] has built it as [readRequest] or
    [writeRequest] says, and goes on with the answer to it. *)
Lemma ListDevices_sends c ctx w req :
  sends (ListDevices c ctx) w req ->
  readRequest c ctx (APIEndpoint c ++ "/devices") = inr req
  /\ ListDevices c ctx w = afterList (answer c w req) (afterDo c w req).
Proof.
  unfold sends. rewrite ListDevices_unfold.
  destruct (readRequest _ _ _) as [e|req0]; simpl.
  - intros H. destruct (app_singleton_neq _ _ H).
  - unfold bind. rewrite Do_run, afterList_requests, afterDo_requests.
    intros H. apply app_inj_tail in H as [_ ->]. auto.
Qed.

Lemma Get_sends c ctx deviceID w req :
  sends (Get c ctx deviceID) w req ->
  readRequest c ctx (APIEndpoint c ++ "/devices/" ++ deviceID) = inr req
  /\ Get c ctx deviceID w = afterGet (answer c w req) (afterDo c w req).
Proof.
  unfold sends. rewrite Get_unfold.
  destruct (readRequest _ _ _) as [e|req0]; simpl.
  - intros H. destruct (app_singleton_neq _ _ H).
  - unfold bind. rewrite Do_run, afterGet_requests, afterDo_requests.
    intros H. apply app_inj_tail in H as [_ ->]. auto.
Qed.

Lemma Update_sends c ctx deviceID r w req :
  sends (Update c ctx deviceID r) w req ->
  exists bs,
    json.Encode (encodeUpdateRequest r) = inr bs
    /\ writeRequest c ctx (APIEndpoint c ++ "/devices/" ++ deviceID) bs
       = inr req
    /\ Update c ctx deviceID r w
       = afterUpdate (answer c w req) (afterDo c w req).
Proof.
  unfold sends. rewrite Update_unfold.
  destruct (json.Encode _) as [e|bs]; simpl.
  { intros H. destruct (app_singleton_neq _ _ H). }
  destruct (writeRequest _ _ _ _) as [e|req0] eqn:Hw; simpl.
  - intros H. destruct (app_singleton_neq _ _ H).
  - unfold bind. rewrite Do_run, afterUpdate_requests, afterDo_requests.
    intros H. apply app_inj_tail in H as [_ ->].
    exists bs. auto.
Qed.

(** ** Status errors *)

Lemma int_of_string_Itoa (z : Z) :
  NilZero.int_of_string (strconv.Itoa z) = Some (Z.to_int z).
Proof.
  unfold strconv.Itoa.
  destruct z as [|p|p]; [reflexivity| |];
    apply NilZero.isi; simpl; intros [= H];
    exact (DecimalPos.Unsigned.to_uint_nonnil p H).
Qed.

Lemma Itoa_inj (a b : Z) : strconv.Itoa a = strconv.Itoa b -> a = b.
Proof.
  intros H.
  apply (f_equal NilZero.int_of_string) in H.
  rewrite !int_of_string_Itoa in H.
  injection H as H.
  now apply DecimalZ.to_int_inj.
Qed.

Lemma statusError_inj (a b : Z) : statusError a = statusError b -> a = b.
Proof.
  unfold statusError, fmt.Errorf. intros [= H]. now apply Itoa_inj.
Qed.

Lemma answer_status c w req code bytes :
  exchange (http_Client c) (requests w) req = inr (code, bytes) ->
  answer c w req = inr {| StatusCode := code; RespBody := length (bodies w) |}.
Proof. unfold answer. now intros ->. Qed.

Lemma not_OK (code : Z) : code <> 200 -> negb (code =? StatusOK) = true.
Proof. unfold StatusOK. intros H. apply negb_true_iff, Z.eqb_neq, H. Qed.

(** C1: whenever the HTTP exchange of [ListDevices], [Get] or [Update]
    completes with a status code other than 200, the operation returns
    the error [expected 200, got <code>], and [ListDevices] and [Get]
    return nil beside it. *)
Theorem status_error_no_value
  (c : Client) (ctx : Context) (deviceID : string) (r : UpdateRequest.t)
  (w : World) (req : Request) (code : Z) (bytes : string) :
  code <> 200 ->
  exchange (http_Client c) (requests w) req = inr (code, bytes) ->
  (sends (ListDevices c ctx) w req ->
   fst (ListDevices c ctx w)
   = (None, Some (fmt.Errorf ("expected 200, got " ++ strconv.Itoa code))))
  /\ (sends (Get c ctx deviceID) w req ->
      fst (Get c ctx deviceID w)
      = (None, Some (fmt.Errorf ("expected 200, got " ++ strconv.Itoa code))))
  /\ (sends (Update c ctx deviceID r) w req ->
      fst (Update c ctx deviceID r w)
      = Some (fmt.Errorf ("expected 200, got " ++ strconv.Itoa code))).
Proof.
  intros Hcode Hex. repeat split; intros Hs.
  - apply ListDevices_sends in Hs as [_ ->].
    rewrite (answer_status _ _ _ _ _ Hex). simpl.
    rewrite (not_OK _ Hcode). reflexivity.
  - apply Get_sends in Hs as [_ ->].
    rewrite (answer_status _ _ _ _ _ Hex). simpl.
    rewrite (not_OK _ Hcode). reflexivity.
  - apply Update_sends in Hs as (bs & _ & _ & ->).
    rewrite (answer_status _ _ _ _ _ Hex). simpl.
    rewrite (not_OK _ Hcode). reflexivity.
Qed.

Lemma status_error_no_value_witness :
  fst (ListDevices (exampleClient 404 "not found") Background emptyWorld)
  = (None, Some (errorString "expected 200, got 404"))
  /\ fst (Get (exampleClient 404 "not found") Background "unknown" emptyWorld)
     = (None, Some (errorString "expected 200, got 404"))
  /\ fst (Update (exampleClient 404 "not found") Background "unknown"
                 emptyUpdate emptyWorld)
     = Some (errorString "expected 200, got 404").
Proof.
  assert (H404 : 404 <> 200) by lia.
  pose proof (fun req =>
    status_error_no_value (exampleClient 404 "not found") Background
      "unknown" emptyUpdate emptyWorld req 404 "not found" H404 eq_refl)
    as H.
  split; [|split].
  - eapply H. reflexivity.
  - eapply H. reflexivity.
  - eapply H. reflexivity.
Defined.

(** ** The requests *)

Lemma ListDevices_sent c ctx w req :
  readRequest c ctx (APIEndpoint c ++ "/devices") = inr req ->
  sends (ListDevices c ctx) w req.
Proof.
  intros H. unfold sends. rewrite ListDevices_unfold, H.
  unfold bind. rewrite Do_run, afterList_requests, afterDo_requests.
  reflexivity.
Qed.

Lemma Get_sent c ctx deviceID w req :
  readRequest c ctx (APIEndpoint c ++ "/devices/" ++ deviceID) = inr req ->
  sends (Get c ctx deviceID) w req.
Proof.
  intros H. unfold sends. rewrite Get_unfold, H.
  unfold bind. rewrite Do_run, afterGet_requests, afterDo_requests.
  reflexivity.
Qed.

Lemma Update_sent c ctx deviceID r w bs req :
  json.Encode (encodeUpdateRequest r) = inr bs ->
  writeRequest c ctx (APIEndpoint c ++ "/devices/" ++ deviceID) bs = inr req ->
  sends (Update c ctx deviceID r) w req.
Proof.
  intros He H. unfold sends. rewrite Update_unfold, He, H.
  unfold bind. rewrite Do_run, afterUpdate_requests, afterDo_requests.
  reflexivity.
Qed.

Lemma NewRequest_fields method rawURL body req :
  NewRequest method rawURL body = inr req ->
  Method req = (if String.eqb method "" then "GET" else method)
  /\ Header req = ∅ /\ Body req = body.
Proof.
  unfold NewRequest.
  destruct (negb (validMethod _)); [discriminate|].
  destruct (url.Parse rawURL); [discriminate|].
  intros [= <-]. auto.
Qed.

Lemma readRequest_shape c ctx rawURL :
  match NewRequest "GET" rawURL None with
  | inl err => readRequest c ctx rawURL = inl err
  | inr req0 =>
      exists req,
        readRequest c ctx rawURL = inr req
        /\ Method req = "GET" /\ URL req = URL req0 /\ Body req = None
        /\ http.ctx req = ctx
        /\ Header req
           = <["Authorization" := ["Bearer " ++ token c]]>
               (<["Accept" := ["application/json"]]> ∅)
  end.
Proof.
  unfold readRequest.
  destruct (NewRequest "GET" rawURL None) as [e|req0] eqn:Hn; [reflexivity|].
  apply NewRequest_fields in Hn as (Hm & Hh & Hb).
  eexists. split; [reflexivity|]. simpl.
  rewrite Hh. auto.
Qed.

Lemma writeRequest_shape c ctx rawURL bs :
  match NewRequest "PATCH" rawURL (Some bs) with
  | inl err => writeRequest c ctx rawURL bs = inl err
  | inr req0 =>
      exists req,
        writeRequest c ctx rawURL bs = inr req
        /\ Method req = "PATCH" /\ URL req = URL req0 /\ Body req = Some bs
        /\ http.ctx req = ctx
        /\ Header req
           = <["Authorization" := ["Bearer " ++ token c]]>
               (<["Content-Type" := ["application/json"]]> ∅)
  end.
Proof.
  unfold writeRequest.
  destruct (NewRequest "PATCH" rawURL (Some bs)) as [e|req0] eqn:Hn;
    [reflexivity|].
  apply NewRequest_fields in Hn as (Hm & Hh & Hb).
  eexists. split; [reflexivity|]. simpl.
  rewrite Hh. auto.
Qed.

(** C4: every request carries [Authorization: Bearer <token>];
    [ListDevices] and [Get] send GET to [{endpoint}/devices] and
    [{endpoint}/devices/{id}] with [Accept: application/json]; [Update]
    sends PATCH to [{endpoint}/devices/{id}] with
    [Content-Type: application/json], the serialized request as its body,
    and no [Accept] header.  An operation sends its one request whenever
    [http.NewRequest] can build it, and none otherwise. *)
Theorem requests_carry_headers
  (c : Client) (ctx : Context) (deviceID : string) (r : UpdateRequest.t)
  (w : World) :
  match NewRequest "GET" (APIEndpoint c ++ "/devices") None with
  | inl err => ListDevices c ctx w = ((None, Some err), w)
  | inr req0 =>
      exists req,
        sends (ListDevices c ctx) w req
        /\ Method req = "GET" /\ URL req = URL req0 /\ Body req = None
        /\ Header req !! "Authorization" = Some ["Bearer " ++ token c]
        /\ Header req !! "Accept" = Some ["application/json"]
  end
  /\ match NewRequest "GET" (APIEndpoint c ++ "/devices/" ++ deviceID) None
     with
     | inl err => Get c ctx deviceID w = ((None, Some err), w)
     | inr req0 =>
         exists req,
           sends (Get c ctx deviceID) w req
           /\ Method req = "GET" /\ URL req = URL req0 /\ Body req = None
           /\ Header req !! "Authorization" = Some ["Bearer " ++ token c]
           /\ Header req !! "Accept" = Some ["application/json"]
     end
  /\ match json.Encode (encodeUpdateRequest r) with
     | inl err => Update c ctx deviceID r w = (Some err, w)
     | inr bs =>
         match NewRequest "PATCH" (APIEndpoint c ++ "/devices/" ++ deviceID)
                          (Some bs) with
         | inl err => Update c ctx deviceID r w = (Some err, w)
         | inr req0 =>
             exists req,
               sends (Update c ctx deviceID r) w req
               /\ Method req = "PATCH" /\ URL req = URL req0
               /\ Body req = Some bs
               /\ Header req !! "Authorization"
                  = Some ["Bearer " ++ token c]
               /\ Header req !! "Content-Type" = Some ["application/json"]
               /\ Header req !! "Accept" = None
         end
     end.
Proof.
  split; [|split].
  - pose proof (readRequest_shape c ctx (APIEndpoint c ++ "/devices")) as H.
    destruct (NewRequest _ _ _) as [e|req0].
    + rewrite ListDevices_unfold, H. reflexivity.
    + destruct H as (req & Hr & Hm & Hu & Hb & _ & Hh).
      exists req. rewrite Hh.
      repeat split; auto using ListDevices_sent.
  - pose proof (readRequest_shape c ctx
                  (APIEndpoint c ++ "/devices/" ++ deviceID)) as H.
    destruct (NewRequest _ _ _) as [e|req0].
    + rewrite Get_unfold, H. reflexivity.
    + destruct H as (req & Hr & Hm & Hu & Hb & _ & Hh).
      exists req. rewrite Hh.
      repeat split; auto using Get_sent.
  - destruct (json.Encode (encodeUpdateRequest r)) as [e|bs] eqn:He.
    { rewrite Update_unfold, He. reflexivity. }
    pose proof (writeRequest_shape c ctx
                  (APIEndpoint c ++ "/devices/" ++ deviceID) bs) as H.
    destruct (NewRequest _ _ _) as [e|req0].
    + rewrite Update_unfold, He, H. reflexivity.
    + destruct H as (req & Hr & Hm & Hu & Hb & _ & Hh).
      exists req. rewrite Hh.
      repeat split; eauto using Update_sent.
Qed.

(** ** Construction *)

Lemma applyOptions_ok opts c w c' w' :
  runsOptions opts c w c' w' ->
  applyOptions opts c w = ((Some c', None), w').
Proof.
  induction 1 as [|opt opts c w c1 w1 c' w' Hopt _ IH]; [reflexivity|].
  simpl. unfold bind. rewrite Hopt. exact IH.
Qed.

Lemma applyOptions_fail pre opt post c w c1 w1 c2 err w2 :
  runsOptions pre c w c1 w1 ->
  opt c1 w1 = ((c2, Some err), w2) ->
  applyOptions (pre ++ opt :: post)%list c w = ((None, Some err), w2).
Proof.
  induction 1 as [|o os c w c1 w1 c' w' Ho _ IH]; intros Hopt; simpl.
  - unfold bind. rewrite Hopt. reflexivity.
  - unfold bind. rewrite Ho. apply IH, Hopt.
Qed.

Lemma applyOptions_requests opts :
  (forall opt c w, In opt opts -> requests (snd (opt c w)) = requests w) ->
  forall c w, requests (snd (applyOptions opts c w)) = requests w.
Proof.
  induction opts as [|opt opts IH]; intros Hq c w; [reflexivity|].
  simpl. unfold bind.
  pose proof (Hq opt c w (or_introl eq_refl)) as H1.
  destruct (opt c w) as [[c1 [e|]] w1]; simpl in *; [exact H1|].
  rewrite IH; [exact H1|].
  intros o c2 w2 Hin. apply Hq. now right.
Qed.

(** C7: [New token opts] runs the options in the order given on a client
    that starts with the production endpoint; the first option that fails
    ends the construction with its error and no client, the options after
    it are not run; when all succeed (and when there are none) the client
    they leave is returned; [New] hands no request to an HTTP client
    beyond what the options themselves do. *)
Theorem New_applies_options
  (DefaultClient : http.Client) (tok : string) :
  let c0 := {| APIEndpoint := "https://api.developer.sleep.me/v1";
               token := tok; http_Client := DefaultClient |} in
  (forall w, New DefaultClient tok [] w = ((Some c0, None), w))
  /\ (forall opts w c' w',
        runsOptions opts c0 w c' w' ->
        New DefaultClient tok opts w = ((Some c', None), w'))
  /\ (forall pre opt post w c1 w1 c2 err w2,
        runsOptions pre c0 w c1 w1 ->
        opt c1 w1 = ((c2, Some err), w2) ->
        New DefaultClient tok (pre ++ opt :: post)%list w
        = ((None, Some err), w2))
  /\ (forall opts w,
        (forall opt c w, In opt opts ->
                         requests (snd (opt c w)) = requests w) ->
        requests (snd (New DefaultClient tok opts w)) = requests w).
Proof.
  intros c0. unfold New, ProductionAPIEndpoint. fold c0.
  split; [reflexivity|]. split; [|split].
  - intros opts w c' w'. apply applyOptions_ok.
  - intros pre opt post w c1 w1 c2 err w2. apply applyOptions_fail.
  - intros opts w H. apply applyOptions_requests, H.
Qed.

Lemma New_applies_options_witness :
  New (fixedClient 200 "") "abc"
      [withEndpoint "http://localhost:8080"] emptyWorld
  = ((Some {| APIEndpoint := "http://localhost:8080"; token := "abc";
              http_Client := fixedClient 200 "" |}, None), emptyWorld)
  /\ New (fixedClient 200 "") "abc"
         [withEndpoint "http://localhost:8080"; failingOption "first";
          failingOption "second"] emptyWorld
     = ((None, Some (foreign "first")), emptyWorld)
  /\ requests (snd (New (fixedClient 200 "") "abc"
                        [withEndpoint "http://localhost:8080"] emptyWorld))
     = [].
Proof.
  destruct (New_applies_options (fixedClient 200 "") "abc")
    as (_ & Hok & Hfail & Hreq).
  split; [|split].
  - apply Hok. eapply runs_cons; [reflexivity|apply runs_nil].
  - eapply (Hfail [withEndpoint "http://localhost:8080"]
                  (failingOption "first") [failingOption "second"]).
    + eapply runs_cons; [reflexivity|apply runs_nil].
    + reflexivity.
  - apply Hreq. intros opt c w [<-|[]]. reflexivity.
Defined.

(** ** The response body *)

Lemma afterDo_bodies c w req code bytes :
  exchange (http_Client c) (requests w) req = inr (code, bytes) ->
  bodies (afterDo c w req) = (bodies w ++ [freshBody bytes])%list.
Proof. unfold afterDo, Do. now intros ->. Qed.

Lemma alter_last {A} (f : A -> A) (l : list A) (b : A) :
  alter f (length l) (l ++ [b])%list = (l ++ [f b])%list.
Proof.
  rewrite alter_app_r_alt by lia.
  replace (length l - length l)%nat with 0%nat by lia. reflexivity.
Qed.

Lemma Decode_last {T} q (l : list ReadCloser) bytes
      (st : json.value -> T -> json.Dec T) t :
  snd (Decode (length l) st t
         {| requests := q; bodies := (l ++ [freshBody bytes])%list |})
  = {| requests := q;
       bodies := (l ++ [{| data := bytes; readFrom := true;
                           closed := false |}])%list |}.
Proof.
  unfold Decode. simpl.
  rewrite list_lookup_middle by reflexivity. simpl.
  rewrite insert_app_r_alt by lia.
  replace (length l - length l)%nat with 0%nat by lia. simpl.
  destruct (json.readValue bytes) as [e|[v s]]; reflexivity.
Qed.

Lemma world_eta (w : World) :
  w = {| requests := requests w; bodies := bodies w |}.
Proof. now destruct w. Qed.

Ltac close_body :=
  unfold defer, bind, Close, ret; simpl; rewrite ?alter_last; reflexivity.

Lemma afterList_bodies c w req code bytes :
  exchange (http_Client c) (requests w) req = inr (code, bytes) ->
  bodies (snd (afterList (answer c w req) (afterDo c w req)))
  = (bodies w ++ [{| data := bytes; readFrom := (code =? 200);
                     closed := true |}])%list.
Proof.
  intros Hex. rewrite (answer_status _ _ _ _ _ Hex).
  rewrite (world_eta (afterDo c w req)).
  rewrite (afterDo_bodies _ _ _ _ _ Hex). simpl.
  unfold defer, bind at 1, StatusOK.
  destruct (code =? 200); simpl; [|close_body].
  pose proof (Decode_last (requests (afterDo c w req)) (bodies w) bytes
                storeDevices None) as Hd.
  destruct (Decode _ _ _ _) as [x w1]. simpl in Hd. subst w1.
  close_body.
Qed.

Lemma afterGet_bodies c w req code bytes :
  exchange (http_Client c) (requests w) req = inr (code, bytes) ->
  bodies (snd (afterGet (answer c w req) (afterDo c w req)))
  = (bodies w ++ [{| data := bytes; readFrom := (code =? 200);
                     closed := true |}])%list.
Proof.
  intros Hex. rewrite (answer_status _ _ _ _ _ Hex).
  rewrite (world_eta (afterDo c w req)).
  rewrite (afterDo_bodies _ _ _ _ _ Hex). simpl.
  unfold defer, bind at 1, StatusOK.
  destruct (code =? 200); simpl; [|close_body].
  unfold bind at 1.
  pose proof (Decode_last (requests (afterDo c w req)) (bodies w) bytes
                storeDeviceDetails DeviceDetails_zero) as Hd.
  destruct (Decode _ _ _ _) as [x w1]. simpl in Hd. subst w1.
  close_body.
Qed.

Lemma afterUpdate_bodies c w req code bytes :
  exchange (http_Client c) (requests w) req = inr (code, bytes) ->
  bodies (snd (afterUpdate (answer c w req) (afterDo c w req)))
  = (bodies w ++ [{| data := bytes; readFrom := false;
                     closed := true |}])%list.
Proof.
  intros Hex. rewrite (answer_status _ _ _ _ _ Hex).
  rewrite (world_eta (afterDo c w req)).
  rewrite (afterDo_bodies _ _ _ _ _ Hex). simpl.
  destruct (negb _); close_body.
Qed.

(** C8, as the code has it: once a response is received its body is
    closed on every path; [ListDevices] and [Get] read from it on a status
    200 only, and [Update] never reads from it. *)
Theorem body_closed_on_every_path
  (c : Client) (ctx : Context) (deviceID : string) (r : UpdateRequest.t)
  (w : World) (req : Request) (code : Z) (bytes : string) :
  exchange (http_Client c) (requests w) req = inr (code, bytes) ->
  (sends (ListDevices c ctx) w req ->
   bodies (snd (ListDevices c ctx w))
   = (bodies w ++ [{| data := bytes; readFrom := (code =? 200);
                      closed := true |}])%list)
  /\ (sends (Get c ctx deviceID) w req ->
      bodies (snd (Get c ctx deviceID w))
      = (bodies w ++ [{| data := bytes; readFrom := (code =? 200);
                         closed := true |}])%list)
  /\ (sends (Update c ctx deviceID r) w req ->
      bodies (snd (Update c ctx deviceID r w))
      = (bodies w ++ [{| data := bytes; readFrom := false;
                         closed := true |}])%list).
Proof.
  intros Hex. repeat split; intros Hs.
  - apply ListDevices_sends in Hs as [_ ->].
    apply (afterList_bodies _ _ _ _ _ Hex).
  - apply Get_sends in Hs as [_ ->].
    apply (afterGet_bodies _ _ _ _ _ Hex).
  - apply Update_sends in Hs as (bs & _ & _ & ->).
    apply (afterUpdate_bodies _ _ _ _ _ Hex).
Qed.

Lemma body_closed_on_every_path_witness :
  bodies (snd (ListDevices (exampleClient 200 "[]") Background emptyWorld))
  = [{| data := "[]"; readFrom := true; closed := true |}]
  /\ bodies (snd (Get (exampleClient 200 "{") Background "d1" emptyWorld))
     = [{| data := "{"; readFrom := true; closed := true |}]
  /\ bodies (snd (Update (exampleClient 200 "ok") Background "d1"
                         emptyUpdate emptyWorld))
     = [{| data := "ok"; readFrom := false; closed := true |}].
Proof.
  split; [|split].
  - eapply (body_closed_on_every_path (exampleClient 200 "[]") Background
              "d1" emptyUpdate emptyWorld _ 200 "[]" eq_refl).
    reflexivity.
  - eapply (body_closed_on_every_path (exampleClient 200 "{") Background
              "d1" emptyUpdate emptyWorld _ 200 "{" eq_refl).
    reflexivity.
  - eapply (body_closed_on_every_path (exampleClient 200 "ok") Background
              "d1" emptyUpdate emptyWorld _ 200 "ok" eq_refl).
    reflexivity.
Defined.

(** C8 as stated fails: after a status 500 the body is closed, and not one
    byte of it has been read. *)
Lemma body_not_consumed_on_status_error :
  fst (Get (exampleClient 500 "internal error") Background "d1" emptyWorld)
  = (None, Some (errorString "expected 200, got 500"))
  /\ bodies (snd (Get (exampleClient 500 "internal error") Background "d1"
                      emptyWorld))
     = [{| data := "internal error"; readFrom := false; closed := true |}].
Proof. split; reflexivity. Qed.

(** ** The device identifier in the URL *)

Lemma Cut_cons d r c :
  strings.Cut (String d r) c
  = if Ascii.eqb d c then ("", r, true)
    else let '(b, a, f) := strings.Cut r c in (String d b, a, f).
Proof. reflexivity. Qed.

Lemma Cut_app a b c :
  strings.ContainsByte a c = false ->
  strings.Cut (a ++ b) c
  = (a ++ fst (fst (strings.Cut b c)), snd (fst (strings.Cut b c)),
     snd (strings.Cut b c)).
Proof.
  induction a as [|d a IH]; simpl.
  - intros _. destruct (strings.Cut b c) as [[x y] f]. reflexivity.
  - intros H. apply orb_false_iff in H as [Hd Ha].
    rewrite Hd, (IH Ha). reflexivity.
Qed.

Lemma substring_all s : String.substring 0 (String.length s) s = s.
Proof. induction s; simpl; congruence. Qed.

Lemma substring_drop2 c1 c2 s :
  String.substring 2 (String.length (String c1 (String c2 s)) - 2)
                   (String c1 (String c2 s)) = s.
Proof. simpl. rewrite Nat.sub_0_r. apply substring_all. Qed.

Lemma HasSuffixByte_count s c :
  strings.HasSuffixByte s c = true -> (1 <= strings.CountByte s c)%nat.
Proof.
  induction s as [|d s IH]; [discriminate|].
  destruct s as [|e s].
  - simpl. intros ->. lia.
  - intros H. specialize (IH H). cbn [strings.CountByte] in *. lia.
Qed.

(** A text that ends with its only [?] is cut at its end. *)
Lemma Cut_force s c :
  strings.HasSuffixByte s c = true ->
  strings.CountByte s c = 1%nat ->
  strings.Cut s c = (strings.dropLast s, "", true).
Proof.
  induction s as [|d s IH]; [discriminate|].
  destruct s as [|e s].
  - simpl. intros ->. reflexivity.
  - intros Hs Hc.
    change (strings.HasSuffixByte (String e s) c = true) in Hs.
    pose proof (HasSuffixByte_count _ _ Hs) as Hl.
    cbn [strings.CountByte] in Hc, Hl.
    rewrite Cut_cons.
    destruct (Ascii.eqb d c) eqn:Hd; [lia|].
    rewrite IH; [reflexivity|exact Hs|].
    cbn [strings.CountByte]. lia.
Qed.

Lemma querySplit rest :
  (if strings.HasSuffixByte rest "?" && (strings.CountByte rest "?" =? 1)%nat
   then (strings.dropLast rest, true, "")
   else let '(b, a, _) := strings.Cut rest "?" in (b, false, a))
  = (fst (fst (strings.Cut rest "?")),
     strings.HasSuffixByte rest "?" && (strings.CountByte rest "?" =? 1)%nat,
     snd (fst (strings.Cut rest "?"))).
Proof.
  destruct (strings.HasSuffixByte rest "?") eqn:Hs; simpl.
  - destruct (strings.CountByte rest "?" =? 1)%nat eqn:Hc.
    + apply Nat.eqb_eq in Hc. rewrite (Cut_force _ _ Hs Hc). reflexivity.
    + now destruct (strings.Cut rest "?") as [[b a] f].
  - now destruct (strings.Cut rest "?") as [[b a] f].
Qed.

Lemma getScheme_production x :
  url.getScheme (ProductionAPIEndpoint ++ "/devices/" ++ x)
  = inr ("https", "//api.developer.sleep.me/v1/devices/" ++ x).
Proof. reflexivity. Qed.

(** Under the production endpoint, what [url.Parse] makes of an
    identifier: the text after its first [?] is the query, the text after
    its first [#] the fragment, and only what stands before them is part
    of the path. *)
Lemma Parse_production_id id u :
  url.Parse (ProductionAPIEndpoint ++ "/devices/" ++ id) = inr u ->
  url.Scheme u = "https" /\ url.Host u = "api.developer.sleep.me"
  /\ url.Path u
     = url.unescapeBytes url.encodePath ("/v1/devices/" ++ idPath id)
  /\ url.RawQuery u = idQuery id
  /\ url.Fragment u = url.unescapeBytes url.encodeFragment (idFragment id).
Proof.
  unfold url.Parse, idPath, idQuery, idFragment.
  change (ProductionAPIEndpoint ++ "/devices/" ++ id)
    with ("https://api.developer.sleep.me/v1/devices/" ++ id).
  rewrite Cut_app by reflexivity.
  destruct (strings.Cut id "#") as [[x frag] f1]. cbn [fst snd].
  unfold url.parse.
  destruct (url.stringContainsCTLByte _); [discriminate|].
  change (String.eqb ("https://api.developer.sleep.me/v1/devices/" ++ x) "")
    with false.
  change (String.eqb ("https://api.developer.sleep.me/v1/devices/" ++ x) "*")
    with false.
  cbn [andb].
  change ("https://api.developer.sleep.me/v1/devices/" ++ x)
    with (ProductionAPIEndpoint ++ "/devices/" ++ x).
  rewrite getScheme_production, querySplit.
  rewrite (Cut_app "//api.developer.sleep.me/v1/devices/" x "?")
    by reflexivity.
  destruct (strings.Cut x "?") as [[b a] f2]. cbn [fst snd].
  change (strings.ToLower "https") with "https".
  change (strings.HasPrefix
            ("//api.developer.sleep.me/v1/devices/" ++ b) "/") with true.
  change (strings.HasPrefix
            ("//api.developer.sleep.me/v1/devices/" ++ b) "//") with true.
  cbn [String.eqb Ascii.eqb Bool.eqb negb andb orb].
  change ("//api.developer.sleep.me/v1/devices/" ++ b)
    with (String "/" (String "/" ("api.developer.sleep.me/v1/devices/" ++ b))).
  rewrite substring_drop2.
  change (strings.splitAt ("api.developer.sleep.me/v1/devices/" ++ b) "/")
    with (Some ("api.developer.sleep.me", "/v1/devices/" ++ b)).
  cbn [fst snd].
  change (url.parseAuthority "api.developer.sleep.me")
    with (@inr error _ (@None url.Userinfo, "api.developer.sleep.me")).
  cbv beta iota.
  unfold url.setPath, url.unescape.
  destruct (url.unescapeCheck url.encodePath ("/v1/devices/" ++ b));
    [discriminate|].
  destruct (String.eqb frag "") eqn:Hf.
  - apply String.eqb_eq in Hf. subst frag. intros [= <-]. simpl. auto.
  - unfold url.setFragment, url.unescape.
    destruct (url.unescapeCheck url.encodeFragment frag); [discriminate|].
    intros [= <-]. simpl. auto.
Qed.

(** [http.NewRequest] with the method GET or PATCH fails exactly when
    [url.Parse] does, with its error, and else takes over the parts of the
    URL. *)
Lemma NewRequest_Parse method rawURL body :
  method = "GET" \/ method = "PATCH" ->
  match url.Parse rawURL with
  | inl e => NewRequest method rawURL body = inl e
  | inr u =>
      exists req,
        NewRequest method rawURL body = inr req
        /\ url.Scheme (URL req) = url.Scheme u
        /\ url.Path (URL req) = url.Path u
        /\ url.RawPath (URL req) = url.RawPath u
        /\ url.RawQuery (URL req) = url.RawQuery u
        /\ url.Fragment (URL req) = url.Fragment u
        /\ url.Host (URL req) = removeEmptyPort (url.Host u)
  end.
Proof.
  intros Hm. unfold NewRequest.
  assert (Hv : negb (validMethod (if String.eqb method "" then "GET"
                                  else method)) = false)
    by (destruct Hm as [-> | ->]; reflexivity).
  rewrite Hv.
  destruct (url.Parse rawURL) as [e|u]; [reflexivity|].
  eexists. split; [reflexivity|]. simpl. repeat split.
Qed.

Lemma url_Parse_error rawURL e :
  url.Parse rawURL = inl e -> exists raw inner, e = url_Error "parse" raw inner.
Proof.
  unfold url.Parse.
  destruct (strings.Cut rawURL "#") as [[u frag] f].
  destruct (url.parse u false) as [e0|url0]; [intros [= <-]; eauto|].
  destruct (String.eqb frag ""); [discriminate|].
  destruct (url.setFragment url0 frag); [intros [= <-]; eauto|discriminate].
Qed.

Lemma readRequest_Parse c ctx rawURL :
  match url.Parse rawURL with
  | inl e => readRequest c ctx rawURL = inl e
  | inr u => exists req, readRequest c ctx rawURL = inr req /\ parsedAs req u
  end.
Proof.
  pose proof (NewRequest_Parse "GET" rawURL None (or_introl eq_refl)) as Hn.
  pose proof (readRequest_shape c ctx rawURL) as Hr.
  destruct (url.Parse rawURL) as [e|u].
  - now rewrite Hn in Hr.
  - destruct Hn as (req0 & Hn & Hp). rewrite Hn in Hr.
    destruct Hr as (req & Hr & _ & Hu & _).
    exists req. split; [exact Hr|]. unfold parsedAs. now rewrite Hu.
Qed.

Lemma writeRequest_Parse c ctx rawURL bs :
  match url.Parse rawURL with
  | inl e => writeRequest c ctx rawURL bs = inl e
  | inr u =>
      exists req, writeRequest c ctx rawURL bs = inr req /\ parsedAs req u
  end.
Proof.
  pose proof (NewRequest_Parse "PATCH" rawURL (Some bs) (or_intror eq_refl))
    as Hn.
  pose proof (writeRequest_shape c ctx rawURL bs) as Hr.
  destruct (url.Parse rawURL) as [e|u].
  - now rewrite Hn in Hr.
  - destruct Hn as (req0 & Hn & Hp). rewrite Hn in Hr.
    destruct Hr as (req & Hr & _ & Hu & _).
    exists req. split; [exact Hr|]. unfold parsedAs. now rewrite Hu.
Qed.

(** C10: [Get] and [Update] put the identifier into the URL text as it is.
    When [url.Parse] rejects the text, the operation returns the error of
    the parser, a [url.Error] and no status error, and hands no request to
    the HTTP client.  When it accepts the text, the request goes to the
    URL it has read.  Under the production endpoint only the identifier up
    to its first [?] or [#] is part of the path; what follows the [?] is
    the query of the request and what follows the [#] its fragment. *)
Theorem identifier_not_escaped
  (c : Client) (ctx : Context) (deviceID : string) (r : UpdateRequest.t)
  (w : World) :
  (forall e,
     url.Parse (APIEndpoint c ++ "/devices/" ++ deviceID) = inl e ->
     Get c ctx deviceID w = ((None, Some e), w)
     /\ (forall bs, json.Encode (encodeUpdateRequest r) = inr bs ->
                    Update c ctx deviceID r w = (Some e, w))
     /\ (exists raw inner, e = url_Error "parse" raw inner)
     /\ (forall code, e <> statusError code))
  /\ (forall u,
        url.Parse (APIEndpoint c ++ "/devices/" ++ deviceID) = inr u ->
        (exists req, sends (Get c ctx deviceID) w req /\ parsedAs req u)
        /\ (forall bs, json.Encode (encodeUpdateRequest r) = inr bs ->
              exists req,
                sends (Update c ctx deviceID r) w req /\ parsedAs req u))
  /\ (APIEndpoint c = ProductionAPIEndpoint ->
      forall req,
        sends (Get c ctx deviceID) w req
        \/ sends (Update c ctx deviceID r) w req ->
        url.Path (URL req)
        = url.unescapeBytes url.encodePath
            ("/v1/devices/" ++ idPath deviceID)
        /\ url.RawQuery (URL req) = idQuery deviceID
        /\ url.Fragment (URL req)
           = url.unescapeBytes url.encodeFragment (idFragment deviceID)).
Proof.
  pose proof (readRequest_Parse c ctx
                (APIEndpoint c ++ "/devices/" ++ deviceID)) as Hr.
  pose proof (fun bs => writeRequest_Parse c ctx
                (APIEndpoint c ++ "/devices/" ++ deviceID) bs) as Hw.
  split; [|split].
  - intros e He. rewrite He in Hr, Hw.
    split; [|split; [|split]].
    + rewrite Get_unfold, Hr. reflexivity.
    + intros bs Hbs. rewrite Update_unfold, Hbs, Hw. reflexivity.
    + apply (url_Parse_error _ _ He).
    + destruct (url_Parse_error _ _ He) as (raw & inner & ->).
      intros code. discriminate.
  - intros u Hu. rewrite Hu in Hr, Hw. split.
    + destruct Hr as (req & Hreq & Hp). exists req.
      split; [now apply Get_sent|exact Hp].
    + intros bs Hbs. destruct (Hw bs) as (req & Hreq & Hp). exists req.
      split; [now apply (Update_sent _ _ _ _ _ bs)|exact Hp].
  - intros Hprod req Hs.
    assert (Hp : exists u,
               url.Parse (APIEndpoint c ++ "/devices/" ++ deviceID) = inr u
               /\ parsedAs req u).
    { destruct Hs as [Hs|Hs].
      - apply Get_sends in Hs as [Hq _].
        destruct (url.Parse _) as [e|u]; [congruence|].
        destruct Hr as (req' & Hr & Hp).
        exists u. split; [reflexivity|]. congruence.
      - apply Update_sends in Hs as (bs & _ & Hq & _).
        specialize (Hw bs).
        destruct (url.Parse _) as [e|u]; [congruence|].
        destruct Hw as (req' & Hw & Hp).
        exists u. split; [reflexivity|]. congruence. }
    destruct Hp as (u & Hu & _ & Hpath & _ & Hquery & Hfrag & _).
    rewrite Hprod in Hu.
    apply Parse_production_id in Hu as (_ & _ & Hp1 & Hp2 & Hp3).
    rewrite Hpath, Hquery, Hfrag. auto.
Qed.

Lemma identifier_not_escaped_witness :
  Get (exampleClient 200 "{}") Background "%zz" emptyWorld
  = ((None,
      Some (url_Error "parse" "https://api.example.test/v1/devices/%zz"
              (url_EscapeError "%zz"))), emptyWorld)
  /\ (exists req,
        sends (Get (exampleClient 200 "{}") Background "d1?x=1") emptyWorld
              req
        /\ url.Path (URL req) = "/v1/devices/d1"
        /\ url.RawQuery (URL req) = "x=1")
  /\ (forall req,
        sends (Get {| APIEndpoint := ProductionAPIEndpoint; token := "abc";
                      http_Client := fixedClient 200 "{}" |}
                   Background "a/b?c=d#e") emptyWorld req ->
        url.Path (URL req) = "/v1/devices/a/b"
        /\ url.RawQuery (URL req) = "c=d"
        /\ url.Fragment (URL req) = "e").
Proof.
  split; [|split].
  - apply (identifier_not_escaped (exampleClient 200 "{}") Background "%zz"
             emptyUpdate emptyWorld). reflexivity.
  - destruct (identifier_not_escaped (exampleClient 200 "{}") Background
                "d1?x=1" emptyUpdate emptyWorld) as (_ & H & _).
    destruct (H _ eq_refl) as [(req & Hs & _ & Hp & _ & Hq & _) _].
    exists req. auto.
  - intros req Hs.
    apply (identifier_not_escaped
             {| APIEndpoint := ProductionAPIEndpoint; token := "abc";
                http_Client := fixedClient 200 "{}" |}
             Background "a/b?c=d#e" emptyUpdate emptyWorld);
      [reflexivity|now left].
Defined.

(** ** Decoding the body of a response *)

Lemma Decode_fresh {T} q (l : list ReadCloser) bytes
      (st : json.value -> T -> json.Dec T) t :
  fst (Decode (length l) st t
         {| requests := q; bodies := (l ++ [freshBody bytes])%list |})
  = decodeBytes st t bytes.
Proof.
  unfold Decode, decodeBytes. simpl.
  rewrite list_lookup_middle by reflexivity. simpl.
  destruct (json.readValue bytes) as [e|[v s]]; reflexivity.
Qed.

Lemma afterList_OK c w req bytes :
  exchange (http_Client c) (requests w) req = inr (200, bytes) ->
  fst (afterList (answer c w req) (afterDo c w req))
  = decodeBytes storeDevices None bytes.
Proof.
  intros Hex. rewrite (answer_status _ _ _ _ _ Hex).
  rewrite (world_eta (afterDo c w req)).
  rewrite (afterDo_bodies _ _ _ _ _ Hex). simpl.
  unfold defer, bind at 1.
  pose proof (Decode_fresh (requests (afterDo c w req)) (bodies w) bytes
                storeDevices None) as Hd.
  destruct (Decode _ _ _ _) as [x w1]. simpl in Hd. subst x.
  reflexivity.
Qed.

Lemma afterGet_OK c w req bytes :
  exchange (http_Client c) (requests w) req = inr (200, bytes) ->
  fst (afterGet (answer c w req) (afterDo c w req))
  = (Some (fst (decodeBytes storeDeviceDetails DeviceDetails_zero bytes)),
     snd (decodeBytes storeDeviceDetails DeviceDetails_zero bytes)).
Proof.
  intros Hex. rewrite (answer_status _ _ _ _ _ Hex).
  rewrite (world_eta (afterDo c w req)).
  rewrite (afterDo_bodies _ _ _ _ _ Hex). simpl.
  unfold defer, bind at 1. unfold bind at 1.
  pose proof (Decode_fresh (requests (afterDo c w req)) (bodies w) bytes
                storeDeviceDetails DeviceDetails_zero) as Hd.
  destruct (Decode _ _ _ _) as [x w1]. simpl in Hd. subst x.
  reflexivity.
Qed.

(** A 200 answer to [ListDevices] and [Get]: the results are those of the
    decoder on the bytes of the body. *)
Lemma ListDevices_OK c ctx w req bytes :
  sends (ListDevices c ctx) w req ->
  exchange (http_Client c) (requests w) req = inr (200, bytes) ->
  fst (ListDevices c ctx w) = decodeBytes storeDevices None bytes.
Proof.
  intros Hs Hex. apply ListDevices_sends in Hs as [_ ->].
  now apply afterList_OK.
Qed.

Lemma Get_OK c ctx deviceID w req bytes :
  sends (Get c ctx deviceID) w req ->
  exchange (http_Client c) (requests w) req = inr (200, bytes) ->
  fst (Get c ctx deviceID w)
  = (Some (fst (decodeBytes storeDeviceDetails DeviceDetails_zero bytes)),
     snd (decodeBytes storeDeviceDetails DeviceDetails_zero bytes)).
Proof.
  intros Hs Hex. apply Get_sends in Hs as [_ ->].
  now apply afterGet_OK.
Qed.

(** *** What is stored does not depend on the error saved so far *)





Lemma steady_storeBool v old : steady (json.storeBool v old).
Proof. destruct v; intros s1 s2; reflexivity. Qed.

Lemma steady_storeInt v old : steady (json.storeInt v old).
Proof.
  destruct v; intros s1 s2; try reflexivity.
  simpl. destruct (strconv.ParseInt lit); reflexivity.
Qed.

Lemma steady_storeFloat64 v old : steady (json.storeFloat64 v old).
Proof.
  destruct v; intros s1 s2; try reflexivity.
  simpl. destruct (strconv.ParseFloat lit); reflexivity.
Qed.




Lemma findField_In {T} (fields : list (json.field T)) key f :
  json.findField fields key = Some f -> In f fields.
Proof.
  unfold json.findField.
  destruct (List.find _ fields) eqn:H1.
  - intros [= <-]. now apply List.find_some in H1.
  - intros H2. now apply List.find_some in H2.
Qed.






(** *** The scanner ends within its fuel *)

Lemma shrinks_map {A B} (f : A -> B) s x : shrinks s x -> shrinks s (json.scan_map f x).
Proof. now destruct x. Qed.
Lemma shrinks_le_map {A B} (f : A -> B) s x : shrinks_le s x -> shrinks_le s (json.scan_map f x).
Proof. now destruct x. Qed.

Lemma shrinks_weaken {A} s s' (x : json.scan A) :
  (String.length s <= String.length s')%nat -> shrinks s x -> shrinks s' x.
Proof. destruct x; simpl; auto. lia. Qed.
Lemma shrinks_le_weaken {A} s s' (x : json.scan A) :
  (String.length s <= String.length s')%nat -> shrinks_le s x -> shrinks_le s' x.
Proof. destruct x; simpl; auto. lia. Qed.
Lemma shrinks_le_cons {A} c s (x : json.scan A) : shrinks_le s x -> shrinks (String c s) x.
Proof. destruct x; simpl; auto. lia. Qed.

Lemma skipSpace_length s : (String.length (json.skipSpace s) <= String.length s)%nat.
Proof. induction s as [|c s IH]; simpl; [lia|]. destruct (json.isSpace c); simpl; lia. Qed.

Lemma unquoteFrom_shrinks s : forall skip, shrinks s (json.unquoteFrom skip s).
Proof.
  induction s as [|c r IH]; intros skip; [exact I|].
  assert (Hr : forall k f, shrinks (String c r) (json.scan_map f (json.unquoteFrom k r) : json.scan string)).
  { intros k f. apply shrinks_map. eapply shrinks_weaken; [|apply IH]. simpl. lia. }
  cbn [json.unquoteFrom].
  destruct skip as [|k].
  - destruct (Ascii.eqb c bytes.dquote); [simpl; lia|].
    destruct (Ascii.eqb c "\").
    + destruct (json.escapeAt r); try exact I. apply Hr.
    + destruct (_ <? 32)%N; [exact I|].
      destruct (_ <? _)%N; [apply Hr|].
      destruct (utf8.DecodeRune c r). apply Hr.
  - eapply shrinks_weaken; [|apply IH]. simpl. lia.
Qed.

Lemma digits_length s : (String.length (snd (json.digits s)) <= String.length s)%nat.
Proof.
  induction s as [|c s IH]; simpl; [lia|].
  destruct (bytes.isDigit c); [|simpl; lia].
  destruct (json.digits s). simpl in *. lia.
Qed.

Lemma digits1_shrinks ctx s : shrinks s (json.digits1 ctx s).
Proof.
  destruct s as [|c s]; [exact I|]. unfold json.digits1.
  destruct (bytes.isDigit c) eqn:Hc; [|exact I].
  simpl. rewrite Hc. pose proof (digits_length s). destruct (json.digits s). simpl in *. lia.
Qed.

Lemma scanExponent_shrinks s : shrinks_le s (json.scanExponent s).
Proof.
  destruct s as [|e r]; [simpl; lia|]. unfold json.scanExponent.
  destruct (_ || _); [|simpl; lia].
  destruct r as [|sg r1]; [exact I|].
  destruct (_ || _).
  - apply shrinks_le_map. pose proof (digits1_shrinks "in exponent of numeric literal" r1).
    destruct (json.digits1 _ r1); simpl in *; auto; lia.
  - apply shrinks_le_map. pose proof (digits1_shrinks "in exponent of numeric literal" (String sg r1)).
    destruct (json.digits1 _ (String sg r1)); simpl in *; auto; lia.
Qed.

Lemma scanFraction_shrinks s : shrinks_le s (json.scanFraction s).
Proof.
  destruct s as [|p r]; [simpl; lia|]. unfold json.scanFraction.
  destruct (Ascii.eqb p "."); [|apply scanExponent_shrinks].
  pose proof (digits1_shrinks "after decimal point in numeric literal" r) as H.
  destruct (json.digits1 _ r) as [d r1| | |]; simpl in *; auto.
  apply shrinks_le_map. pose proof (scanExponent_shrinks r1) as H1.
  destruct (json.scanExponent r1); simpl in *; auto. lia.
Qed.

Lemma scanUnsigned_shrinks s : shrinks s (json.scanUnsigned s).
Proof.
  destruct s as [|c r]; [exact I|]. unfold json.scanUnsigned.
  destruct (Ascii.eqb c "0").
  - apply shrinks_map, shrinks_le_cons, scanFraction_shrinks.
  - destruct (bytes.isDigit c); [|exact I].
    pose proof (digits_length r) as Hd. destruct (json.digits r) as [d r1]. simpl in Hd.
    apply shrinks_map. pose proof (scanFraction_shrinks r1) as H1.
    destruct (json.scanFraction r1); simpl in *; auto. lia.
Qed.

Lemma scanNumber_shrinks s : shrinks s (json.scanNumber s).
Proof.
  destruct s as [|c r]; [exact I|]. unfold json.scanNumber.
  destruct (Ascii.eqb c "-"); [|apply scanUnsigned_shrinks].
  apply shrinks_map. eapply shrinks_weaken; [|apply scanUnsigned_shrinks]. simpl; lia.
Qed.

Lemma expect_shrinks lit name s : shrinks_le s (json.expect lit name s).
Proof.
  revert s. induction lit as [|l lit IH]; intros s; simpl; [lia|].
  destruct s as [|c r]; [exact I|].
  destruct (Ascii.eqb c l); [|exact I].
  eapply shrinks_le_weaken; [|apply IH]. simpl. lia.
Qed.

Lemma skipSpace_cons s c r :
  json.skipSpace s = String c r -> (String.length r < String.length s)%nat.
Proof.
  intros H. pose proof (skipSpace_length s) as Hl. rewrite H in Hl. simpl in Hl. lia.
Qed.

Lemma scan_shrinks fuel :
  (forall s, (2 * String.length s + 1 <= fuel)%nat -> shrinks s (json.scanValue fuel s))
  /\ (forall s, (2 * String.length s + 2 <= fuel)%nat -> shrinks s (json.scanElements fuel s))
  /\ (forall s, (2 * String.length s + 2 <= fuel)%nat -> shrinks s (json.scanMembers fuel s)).
Proof.
  induction fuel as [|f (IHv & IHe & IHm)].
  { repeat split; intros s H; lia. }
  split; [|split]; intros s Hf.
  - cbn [json.scanValue].
    destruct (json.skipSpace s) as [|c r] eqn:Hs; [exact I|].
    apply skipSpace_cons in Hs.
    destruct (Ascii.eqb c "{").
    { destruct (json.skipSpace r) as [|c' r'] eqn:Hr; [exact I|].
      pose proof (skipSpace_length r) as Hl. rewrite Hr in Hl.
      destruct (Ascii.eqb c' "}"); [simpl in *; lia|].
      apply shrinks_map.
      assert (Hm : shrinks (String c' r') (json.scanMembers f (String c' r'))).
      { apply IHm. lia. }
      eapply shrinks_weaken; [|exact Hm]. lia. }
    destruct (Ascii.eqb c "[").
    { destruct (json.skipSpace r) as [|c' r'] eqn:Hr; [exact I|].
      pose proof (skipSpace_length r) as Hl. rewrite Hr in Hl.
      destruct (Ascii.eqb c' "]"); [simpl in *; lia|].
      apply shrinks_map.
      assert (Hm : shrinks (String c' r') (json.scanElements f (String c' r'))).
      { apply IHe. lia. }
      eapply shrinks_weaken; [|exact Hm]. lia. }
    destruct (Ascii.eqb c bytes.dquote).
    { apply shrinks_map. eapply shrinks_weaken; [|apply unquoteFrom_shrinks]. lia. }
    destruct (_ || _).
    { apply shrinks_map. eapply shrinks_weaken; [|apply scanNumber_shrinks]. simpl. lia. }
    destruct (Ascii.eqb c "t").
    { apply shrinks_map. pose proof (expect_shrinks "rue" "true" r) as H.
      destruct (json.expect _ _ r); simpl in *; auto; lia. }
    destruct (Ascii.eqb c "f").
    { apply shrinks_map. pose proof (expect_shrinks "alse" "false" r) as H.
      destruct (json.expect _ _ r); simpl in *; auto; lia. }
    destruct (Ascii.eqb c "n").
    { apply shrinks_map. pose proof (expect_shrinks "ull" "null" r) as H.
      destruct (json.expect _ _ r); simpl in *; auto; lia. }
    exact I.
  - cbn [json.scanElements].
    assert (Hv : shrinks s (json.scanValue f s)) by (apply IHv; lia).
    destruct (json.scanValue f s) as [v r1| | |]; simpl in Hv; auto.
    destruct (json.skipSpace r1) as [|c r2] eqn:Hr; [exact I|].
    apply skipSpace_cons in Hr.
    destruct (Ascii.eqb c ",").
    { apply shrinks_map.
      assert (He : shrinks r2 (json.scanElements f r2)) by (apply IHe; lia).
      eapply shrinks_weaken; [|exact He]. lia. }
    destruct (Ascii.eqb c "]"); [simpl; lia|exact I].
  - cbn [json.scanMembers].
    destruct s as [|q r]; [exact I|].
    destruct (negb _); [exact I|].
    pose proof (unquoteFrom_shrinks r 0) as Hk. fold (json.scanString r) in Hk.
    destruct (json.scanString r) as [k r1| | |]; simpl in Hk; auto.
    destruct (json.skipSpace r1) as [|c1 r2] eqn:Hr1; [exact I|].
    apply skipSpace_cons in Hr1.
    destruct (negb _); [exact I|].
    simpl in Hf.
    assert (Hv : shrinks r2 (json.scanValue f r2)) by (apply IHv; lia).
    destruct (json.scanValue f r2) as [v r3| | |]; simpl in Hv; auto.
    destruct (json.skipSpace r3) as [|c3 r4] eqn:Hr3; [exact I|].
    apply skipSpace_cons in Hr3.
    destruct (Ascii.eqb c3 ",").
    { apply shrinks_map.
      pose proof (skipSpace_length r4) as Hl4.
      assert (He : shrinks (json.skipSpace r4) (json.scanMembers f (json.skipSpace r4)))
        by (apply IHm; lia).
      eapply shrinks_weaken; [|exact He]. simpl. lia. }
    destruct (Ascii.eqb c3 "}"); [simpl; lia|exact I].
Qed.


(** *** Which values a target takes without an error *)
























(** The scenarios of the spec. *)
Example scenario_one_device :
  fst (ListDevices (exampleClient 200 oneDevice) Background emptyWorld)
  = (Some [{| ID := "d1"; Name := "Dock"; Attachments := Some [] |}], None).
Proof. reflexivity. Qed.

Example scenario_empty_list :
  fst (ListDevices (exampleClient 200 "[]") Background emptyWorld)
  = (Some [], None).
Proof. reflexivity. Qed.

Example scenario_unknown_device :
  fst (Get (exampleClient 404 "") Background "unknown" emptyWorld)
  = (None, Some (errorString "expected 200, got 404")).
Proof. reflexivity. Qed.

(** C6 fails on the code: on a decode error [Get] returns its pointer
    beside the error, and the record behind it holds what was stored
    before and after the value that did not fit. *)
Lemma Get_returns_record_beside_decode_error :
  fst (Get (exampleClient 200 partialDetails) Background "d1" emptyWorld)
  = (Some {| About :=
               {| About.FirmwareVersion := ""; About.IpAddress := "";
                  About.LanAddress := ""; About.MacAddress := "";
                  About.Model := "Dock Pro"; About.SerialNumber := "" |};
             Control := Control.zero;
             Status :=
               {| Status.IsConnected := false; Status.IsWaterLow := false;
                  Status.WaterLevel := 3; Status.WaterTemperatureF := 0;
                  Status.WaterTemperatureC := S754_zero false |} |},
     Some (json_UnmarshalTypeError "number" T_Control)).
Proof. reflexivity. Qed.

Lemma ListDevices_returns_slice_beside_decode_error :
  fst (ListDevices (exampleClient 200 ("[{" ++ q "id" ++ ":" ++ q "d1"
                                       ++ "},5]"))
                   Background emptyWorld)
  = (Some [{| ID := "d1"; Name := ""; Attachments := None |}; Device_zero],
     Some (json_UnmarshalTypeError "number" T_Device)).
Proof. reflexivity. Qed.

(** ** The body of an update *)

Lemma encodeFloat64_number f :
  strconv.IsNaN f = false -> strconv.IsInf f = false ->
  json.encodeFloat64 f = inr (json.Number (json.floatText f)).
Proof. unfold json.encodeFloat64. now intros -> ->. Qed.

Lemma encodeUpdateRequest_sparse r :
  isNumber (UpdateRequest.SetTemperatureF r) ->
  isNumber (UpdateRequest.SetTemperatureC r) ->
  encodeUpdateRequest r = inr (json.Object (sparseObject r)).
Proof.
  destruct r as [a f g d t]. unfold isNumber, sparseObject. simpl.
  intros Hf Hg.
  unfold encodeUpdateRequest, json.encodeStruct, UpdateRequest_fields.
  cbn [json.encodeFields json.encFieldOf json.omitEmpty json.isEmptyValue
       json.encode json.tag andb UpdateRequest.ThermalControlStatus
       UpdateRequest.SetTemperatureF UpdateRequest.SetTemperatureC
       UpdateRequest.DisplayTemperatureUnit UpdateRequest.TimeZone].
  destruct a as [a|], f as [f|], g as [g|], d as [d|], t as [t|];
    cbn [json.isNil json.encodePtr json.encodeString];
    rewrite ?(encodeFloat64_number f) by apply Hf;
    rewrite ?(encodeFloat64_number g) by apply Hg;
    reflexivity.
Qed.





(** * The record of [Get] and its serialization *)

(** ** UTF-8: a rune is decoded from its encoding *)

Lemma lor_add (x y n : N) :
  (y < 2 ^ n)%N -> (x mod 2 ^ n = 0)%N -> N.lor x y = (x + y)%N.
Proof.
  intros Hy Hx.
  assert (Hl : N.land x y = 0%N).
  { apply N.bits_inj. intros i. rewrite N.land_spec, N.bits_0.
    destruct (N.lt_ge_cases i n) as [Hi|Hi].
    - assert (Hx' : x = (x / 2 ^ n * 2 ^ n)%N).
      { rewrite (N.div_mod x (2 ^ n)) at 1 by (apply N.pow_nonzero; lia).
        rewrite Hx. lia. }
      rewrite Hx', N.mul_pow2_bits_low by exact Hi. reflexivity.
    - destruct (N.eq_dec y 0%N) as [->|Hy0]; [now rewrite N.bits_0, andb_false_r|].
      rewrite (N.bits_above_log2 y i), andb_false_r; [reflexivity|].
      apply N.log2_lt_pow2; [lia|].
      eapply N.lt_le_trans; [exact Hy|]. apply N.pow_le_mono_r; lia. }
  rewrite <- N.lxor_lor by exact Hl.
  symmetry. apply N.add_nocarry_lxor, Hl.
Qed.

Lemma land63 n : N.land n 63 = (n mod 64)%N.
Proof. apply (N.land_ones n 6). Qed.
Lemma land31 n : N.land n 31 = (n mod 32)%N.
Proof. apply (N.land_ones n 5). Qed.
Lemma land15 n : N.land n 15 = (n mod 16)%N.
Proof. apply (N.land_ones n 4). Qed.
Lemma land7 n : N.land n 7 = (n mod 8)%N.
Proof. apply (N.land_ones n 3). Qed.

Lemma code_of_N n : (n < 256)%N -> bytes.code (ascii_of_N n) = n.
Proof. apply N_ascii_embedding. Qed.

Lemma cont_code n : bytes.code (utf8.cont n) = (128 + n mod 64)%N.
Proof.
  unfold utf8.cont. rewrite land63.
  assert (Hm : (n mod 64 < 64)%N) by (apply N.mod_lt; lia).
  rewrite (lor_add 128 (n mod 64) 6) by (auto; reflexivity).
  apply code_of_N. revert Hm. generalize (n mod 64)%N. intros m Hm. lia.
Qed.

Lemma isCont_cont n : utf8.isCont (utf8.cont n) = true.
Proof.
  unfold utf8.isCont, bytes.between. rewrite cont_code.
  assert (Hm : (n mod 64 < 64)%N) by (apply N.mod_lt; lia).
  revert Hm. generalize (n mod 64)%N. intros m Hm.
  apply andb_true_iff. split; apply N.leb_le; lia.
Qed.

Lemma low6_cont n : utf8.low6 (utf8.cont n) = (n mod 64)%N.
Proof.
  unfold utf8.low6. rewrite cont_code, land63.
  assert (Hm : (n mod 64 < 64)%N) by (apply N.mod_lt; lia).
  revert Hm. generalize (n mod 64)%N. intros m Hm.
  rewrite <- (N.Div0.add_mod_idemp_l 128) by lia.
  change (128 mod 64)%N with 0%N. rewrite N.add_0_l.
  apply N.mod_small, Hm.
Qed.

Lemma checkRange_spec k : forall lo r,
  checkRange k lo = true -> (lo <= r < lo + 2 ^ N.of_nat k)%N ->
  scalar r = true -> decodesBack r = true.
Proof.
  induction k as [|k IH]; intros lo r Hc Hr Hs.
  - simpl in *. assert (r = lo) by lia. subst. now rewrite Hs in Hc.
  - cbn [checkRange] in Hc.
    destruct (checkRange k lo) eqn:H1; [|discriminate].
    rewrite Nat2N.inj_succ, N.pow_succ_r' in Hr.
    destruct (N.lt_ge_cases r (lo + 2 ^ N.of_nat k)) as [Hlt|Hge].
    + apply (IH lo); auto. lia.
    + apply (IH (lo + 2 ^ N.of_nat k)%N); auto. lia.
Qed.

Lemma short_runes : checkRange 16 0 = true.
Proof. vm_compute. reflexivity. Qed.

Lemma shiftr6 x : N.shiftr x 6 = (x / 64)%N.
Proof. apply (N.shiftr_div_pow2 x 6). Qed.

Lemma split64 x : exists q d, x = (64 * q + d)%N /\ (d < 64)%N
                              /\ (x / 64 = q)%N /\ (x mod 64 = d)%N.
Proof.
  exists (x / 64)%N, (x mod 64)%N.
  split; [apply N.div_mod; lia|]. split; [apply N.mod_lt; lia|]. auto.
Qed.

Lemma long_rune r :
  (65536 <= r <= 1114111)%N -> decodesBack r = true.
Proof.
  intros Hr. unfold decodesBack, utf8.EncodeRune, utf8.MaxRune.
  replace (r <=? 127)%N with false by (symmetry; apply N.leb_gt; lia).
  replace (r <=? 2047)%N with false by (symmetry; apply N.leb_gt; lia).
  replace (1114111 <? r)%N with false by (symmetry; apply N.ltb_ge; lia).
  replace (r <=? 57343)%N with false by (symmetry; apply N.leb_gt; lia).
  replace (r <=? 65535)%N with false by (symmetry; apply N.leb_gt; lia).
  rewrite andb_false_r. cbn [orb].
  replace (N.shiftr r 12) with (N.shiftr (N.shiftr r 6) 6)
    by (rewrite N.shiftr_shiftr; reflexivity).
  replace (N.shiftr r 18) with (N.shiftr (N.shiftr (N.shiftr r 6) 6) 6)
    by (rewrite !N.shiftr_shiftr; reflexivity).
  rewrite !shiftr6.
  destruct (split64 r) as (q6 & d & Er & Hd & -> & Hdm).
  destruct (split64 q6) as (q12 & c & Eq6 & Hc & -> & Hcm).
  destruct (split64 q12) as (a & b & Eq12 & Hb & -> & Hbm).
  assert (Ha : (a <= 4)%N) by lia.
  unfold utf8.DecodeRune.
  rewrite !isCont_cont, !low6_cont, Hdm, Hcm, Hbm.
  unfold bytes.between. rewrite !cont_code, Hbm.
  assert (Hcases : a = 0%N \/ a = 1%N \/ a = 2%N \/ a = 3%N \/ a = 4%N) by lia.
  assert (Hsum : forall A, A = Z.to_N (Z.of_N a) ->
            N.lor (N.lor (N.lor (N.shiftl A 18) (N.shiftl b 12)) (N.shiftl c 6)) d = r).
  { intros A ->. rewrite N2Z.id. rewrite !N.shiftl_mul_pow2.
    rewrite (lor_add (a * 2 ^ 18) (b * 2 ^ 12) 18);
      [|change (2 ^ 18)%N with 262144%N; change (2 ^ 12)%N with 4096%N; lia
       |apply N.Div0.mod_mul].
    replace (a * 2 ^ 18 + b * 2 ^ 12)%N with ((a * 64 + b) * 2 ^ 12)%N
      by (change (2 ^ 18)%N with 262144%N; change (2 ^ 12)%N with 4096%N; lia).
    rewrite (lor_add _ (c * 2 ^ 6) 12);
      [|change (2 ^ 12)%N with 4096%N; change (2 ^ 6)%N with 64%N; lia
       |apply N.Div0.mod_mul].
    replace ((a * 64 + b) * 2 ^ 12 + c * 2 ^ 6)%N
      with (((a * 64 + b) * 64 + c) * 2 ^ 6)%N
      by (change (2 ^ 12)%N with 4096%N; change (2 ^ 6)%N with 64%N; lia).
    rewrite (lor_add _ d 6);
      [|change (2 ^ 6)%N with 64%N; lia|apply N.Div0.mod_mul].
    change (2 ^ 6)%N with 64%N. lia. }
  destruct Hcases as [->|[->|[->|[->| ->]]]];
    match goal with
    | |- context [ascii_of_N (N.lor 240 ?a)] =>
        let c0 := eval vm_compute in (ascii_of_N (N.lor 240 a)) in
        change (ascii_of_N (N.lor 240 a)) with c0
    end;
    match goal with
    | |- context [utf8.lead ?c] =>
        let l := eval vm_compute in (utf8.lead c) in
        change (utf8.lead c) with l
    end;
    match goal with
    | |- context [bytes.code ?c] =>
        let l := eval vm_compute in (bytes.code c) in
        change (bytes.code c) with l
    end;
    cbv iota beta;
    match goal with
    | |- context [negb ((?lo <=? ?x)%N && (?x <=? ?hi)%N)] =>
        replace ((lo <=? x)%N && (x <=? hi)%N) with true
          by (symmetry; apply andb_true_iff; split; apply N.leb_le; lia)
    end;
    cbn [negb];
    rewrite Hsum by reflexivity;
    match goal with
    | |- context [(?x <? utf8.RuneSelf)%N] =>
        change (x <? utf8.RuneSelf)%N with false
    end;
    cbv iota beta; rewrite N.eqb_refl; reflexivity.
Qed.

Lemma scalar_decodesBack r : scalar r = true -> decodesBack r = true.
Proof.
  intros Hs.
  destruct (N.lt_ge_cases r 65536) as [Hlt|Hge].
  - apply (checkRange_spec 16 0 r short_runes); [|exact Hs].
    change (2 ^ N.of_nat 16)%N with 65536%N. lia.
  - apply long_rune. unfold scalar, utf8.MaxRune in Hs.
    apply andb_true_iff in Hs as [Hs _]. apply andb_true_iff in Hs as [_ Hs].
    apply N.leb_le in Hs. lia.
Qed.

Lemma DecodeRune_app c t s r n :
  utf8.DecodeRune c t = (r, n) -> n <> 1%nat ->
  utf8.DecodeRune c (t ++ s) = (r, n).
Proof.
  unfold utf8.DecodeRune.
  destruct (_ <? _)%N; [intros [= <- <-]; congruence|].
  destruct (utf8.lead c) as [[[sz lo] hi]|]; [|intros [= <- <-]; congruence].
  destruct t as [|b1 t]; [intros [= <- <-]; congruence|].
  cbn [String.append].
  destruct (negb _); [intros [= <- <-]; congruence|].
  destruct sz as [|[|[|sz]]]; try (intros [= <- <-]; congruence).
  all: destruct t as [|b2 t]; try (intros [= <- <-]; congruence);
    cbn [String.append];
    destruct (negb _); try (intros [= <- <-]; congruence).
  all: try (destruct sz as [|sz]); try (intros [= <- <-]; congruence).
  all: destruct t as [|b3 t]; try (intros [= <- <-]; congruence);
    cbn [String.append]; destruct (negb _); intros [= <- <-]; congruence.
Qed.

Lemma EncodeRune_canonicalRune r :
  (128 <= r)%N -> utf8.EncodeRune (canonicalRune r) = utf8.EncodeRune r.
Proof.
  intros Hr. unfold canonicalRune. destruct (scalar r) eqn:Hs; [reflexivity|].
  change (utf8.EncodeRune utf8.RuneError)
    with (String "239" (String "191" (String "189" ""))).
  unfold scalar, utf8.MaxRune in Hs. unfold utf8.EncodeRune, utf8.MaxRune.
  replace (128 <=? r)%N with true in Hs by (symmetry; apply N.leb_le; lia).
  replace (r <=? 127)%N with false by (symmetry; apply N.leb_gt; lia).
  cbn [andb] in Hs. rewrite N.ltb_antisym.
  destruct (r <=? 1114111)%N eqn:Hmax; cbn [negb andb orb] in *.
  - apply negb_false_iff in Hs. rewrite Hs.
    apply andb_true_iff in Hs as [Hs _]. apply N.leb_le in Hs.
    replace (r <=? 2047)%N with false by (symmetry; apply N.leb_gt; lia).
    reflexivity.
  - apply N.leb_gt in Hmax.
    replace (r <=? 2047)%N with false by (symmetry; apply N.leb_gt; lia).
    reflexivity.
Qed.

Lemma scalar_canonicalRune r : (128 <= r)%N -> scalar (canonicalRune r) = true.
Proof.
  intros Hr. unfold canonicalRune. destruct (scalar r) eqn:Hs; [exact Hs|reflexivity].
Qed.

(** The bytes of a rune from 128 on: a leading byte and continuation
    bytes that decode to the rune, whatever follows them. *)
Lemma EncodeRune_decodes r :
  (128 <= r)%N ->
  exists c t,
    utf8.EncodeRune r = String c t
    /\ (128 <= bytes.code c)%N
    /\ (1 <= String.length t)%nat
    /\ forall s, utf8.DecodeRune c (t ++ s)
                 = (canonicalRune r, S (String.length t)).
Proof.
  intros Hr. rewrite <- (EncodeRune_canonicalRune r Hr).
  pose proof (scalar_decodesBack _ (scalar_canonicalRune r Hr)) as Hd.
  unfold decodesBack in Hd.
  destruct (utf8.EncodeRune (canonicalRune r)) as [|c t]; [discriminate|].
  destruct (utf8.DecodeRune c t) as [r' n] eqn:Hdec.
  apply andb_true_iff in Hd as [Hd H2]. apply andb_true_iff in Hd as [Hd Hn].
  apply andb_true_iff in Hd as [Hc Hr'].
  apply N.leb_le in Hc. apply N.eqb_eq in Hr'. apply Nat.eqb_eq in Hn.
  apply Nat.leb_le in H2. subst r' n.
  exists c, t. repeat split; auto; [lia|].
  intros s. apply DecodeRune_app; [exact Hdec|lia].
Qed.

(** ** String literals: what [appendString] writes, [unquote] reads *)

Lemma append_assoc (a b c : string) : (a ++ b) ++ c = a ++ (b ++ c).
Proof. induction a as [|x a IH]; cbn; [reflexivity|]. now rewrite IH. Qed.

Lemma appendFrom_skip t : forall X,
  json.appendFrom (String.length t) (t ++ X) = json.appendFrom 0 X.
Proof.
  induction t as [|c t IH]; intros X; [reflexivity|].
  cbn [String.length String.append json.appendFrom].
  destruct X; apply IH.
Qed.

Lemma unquoteFrom_skip t : forall X,
  json.unquoteFrom (String.length t) (t ++ X) = json.unquoteFrom 0 X.
Proof.
  induction t as [|c t IH]; intros X; [reflexivity|].
  cbn [String.length String.append json.unquoteFrom]. apply IH.
Qed.

Lemma substring_prefix t : forall X,
  String.substring 0 (String.length t) (t ++ X) = t.
Proof.
  induction t as [|c t IH]; intros X; cbn.
  - now destruct X.
  - now rewrite IH.
Qed.

Lemma ascii_literal c :
  (bytes.code c < 128)%N ->
  forall X,
    json.unquoteFrom 0
      ((if json.htmlSafe c then String c "" else json.escapeByte c) ++ X)
    = json.scan_map (String c) (json.unquoteFrom 0 X).
Proof.
  intros Hc X.
  destruct c as [b0 b1 b2 b3 b4 b5 b6 b7].
  destruct b7; [exfalso; revert Hc;
                destruct b0, b1, b2, b3, b4, b5, b6; vm_compute; congruence|].
  clear Hc.
  destruct b0, b1, b2, b3, b4, b5, b6; reflexivity.
Qed.

Lemma high_byte c :
  (128 <= bytes.code c)%N ->
  (bytes.code c <? utf8.RuneSelf)%N = false
  /\ Ascii.eqb c bytes.dquote = false
  /\ Ascii.eqb c "\" = false
  /\ (bytes.code c <? 32)%N = false.
Proof.
  intros Hc. unfold utf8.RuneSelf. repeat split.
  - apply N.ltb_ge, Hc.
  - destruct (Ascii.eqb_spec c bytes.dquote) as [->|]; [|reflexivity].
    vm_compute in Hc. congruence.
  - destruct (Ascii.eqb_spec c "\") as [->|]; [|reflexivity].
    vm_compute in Hc. congruence.
  - apply N.ltb_ge. lia.
Qed.

Lemma rune_literal r s X :
  json.unquoteFrom 0 (json.appendFrom 0 (utf8.EncodeRune r ++ s) ++ X)
  = json.scan_map (append (utf8.EncodeRune r))
      (json.unquoteFrom 0 (json.appendFrom 0 s ++ X)).
Proof.
  destruct (N.lt_ge_cases r 128) as [Hlt|Hge].
  - unfold utf8.EncodeRune.
    replace (r <=? 127)%N with true by (symmetry; apply N.leb_le; lia).
    cbn [String.append json.appendFrom].
    assert (Hc : bytes.code (ascii_of_N r) = r) by (apply code_of_N; lia).
    replace (bytes.code (ascii_of_N r) <? utf8.RuneSelf)%N with true
      by (symmetry; rewrite Hc; apply N.ltb_lt, Hlt).
    rewrite append_assoc. apply ascii_literal. rewrite Hc. exact Hlt.
  - destruct (EncodeRune_decodes r Hge) as (c & t & He & Hc & Ht & Hd).
    rewrite He. destruct (high_byte c Hc) as (H1 & H2 & H3 & H4).
    cbn [String.append json.appendFrom]. rewrite H1, Hd.
    replace (S (String.length t) =? 1)%nat with false
      by (symmetry; apply Nat.eqb_neq; lia).
    rewrite andb_false_r.
    replace (S (String.length t) - 1)%nat with (String.length t) by lia.
    rewrite appendFrom_skip.
    destruct (N.eqb_spec (canonicalRune r) 8232) as [E1|N1].
    { assert (Hx : String c t = utf8.EncodeRune 8232)
        by (rewrite <- He, <- (EncodeRune_canonicalRune r Hge), E1; reflexivity).
      vm_compute in Hx. injection Hx as -> ->. rewrite E1. reflexivity. }
    destruct (N.eqb_spec (canonicalRune r) 8233) as [E2|N2].
    { assert (Hx : String c t = utf8.EncodeRune 8233)
        by (rewrite <- He, <- (EncodeRune_canonicalRune r Hge), E2; reflexivity).
      vm_compute in Hx. injection Hx as -> ->. rewrite E2. reflexivity. }
    cbn [orb].
    change (String.substring 0 (S (String.length t)) (String c (t ++ s)))
      with (String c (String.substring 0 (String.length t) (t ++ s))).
    rewrite substring_prefix.
    cbn [String.append json.unquoteFrom]. rewrite H2, H3, H4, H1.
    rewrite append_assoc, Hd.
    replace (S (String.length t) - 1)%nat with (String.length t) by lia.
    rewrite unquoteFrom_skip, <- He, (EncodeRune_canonicalRune r Hge).
    reflexivity.
Qed.

Lemma runeText_literal rs rest :
  json.unquoteFrom 0
    (json.appendFrom 0 (runeText rs) ++ String bytes.dquote rest)
  = json.Scanned (runeText rs) rest.
Proof.
  induction rs as [|r rs IH]; [reflexivity|].
  cbn [runeText]. rewrite rune_literal, IH. reflexivity.
Qed.

(** A well-formed text is read back from the literal written for it. *)
Lemma scanString_appendString s rest :
  wellFormed s ->
  json.scanString (json.appendFrom 0 s ++ String bytes.dquote rest)
  = json.Scanned s rest.
Proof. intros [rs ->]. apply runeText_literal. Qed.

Lemma wellFormed_nil : wellFormed "".
Proof. now exists []. Qed.

Lemma wellFormed_rune r s : wellFormed s -> wellFormed (utf8.EncodeRune r ++ s).
Proof. intros [rs ->]. now exists (r :: rs). Qed.

Lemma wellFormed_ascii c s :
  (bytes.code c < 128)%N -> wellFormed s -> wellFormed (String c s).
Proof.
  intros Hc Hs.
  replace (String c s) with (utf8.EncodeRune (bytes.code c) ++ s).
  - now apply wellFormed_rune.
  - unfold utf8.EncodeRune.
    replace (bytes.code c <=? 127)%N with true
      by (symmetry; apply N.leb_le; lia).
    unfold bytes.code. now rewrite ascii_N_embedding.
Qed.

Lemma escapeAt_wellFormed r t n s :
  json.escapeAt r = json.EscText t n -> wellFormed s -> wellFormed (t ++ s).
Proof.
  unfold json.escapeAt. intros He Hs.
  destruct r as [|e r1]; [discriminate|].
  destruct (_ || _) eqn:H1.
  { injection He as <- <-. apply wellFormed_ascii; [|exact Hs].
    apply orb_true_iff in H1 as [H1|H1];
      [apply orb_true_iff in H1 as [H1|H1]|];
      apply Ascii.eqb_eq in H1; subst e; vm_compute; reflexivity. }
  repeat (match type of He with
          | (if Ascii.eqb e ?x then json.EscText _ _ else _) = _ =>
              destruct (Ascii.eqb e x);
              [injection He as <- <-; apply wellFormed_ascii;
               [vm_compute; reflexivity|exact Hs]|]
          end).
  destruct (Ascii.eqb e "u"); [|discriminate].
  destruct r1 as [|h1 r2]; [discriminate|].
  destruct (negb (bytes.ishex h1)); [discriminate|].
  destruct r2 as [|h2 r3]; [discriminate|].
  destruct (negb (bytes.ishex h2)); [discriminate|].
  destruct r3 as [|h3 r4]; [discriminate|].
  destruct (negb (bytes.ishex h3)); [discriminate|].
  destruct r4 as [|h4 r5]; [discriminate|].
  destruct (negb (bytes.ishex h4)); [discriminate|].
  cbv zeta in He.
  destruct (utf16.IsSurrogate _).
  - destruct (json.getu4 r5); [destruct (negb _)|];
      injection He as <- <-; now apply wellFormed_rune.
  - injection He as <- <-; now apply wellFormed_rune.
Qed.

Lemma unquoteFrom_wellFormed s : forall skip x rest,
  json.unquoteFrom skip s = json.Scanned x rest -> wellFormed x.
Proof.
  induction s as [|c r IH]; intros skip x rest H; [discriminate|].
  cbn [json.unquoteFrom] in H.
  destruct skip as [|k]; [|eapply IH, H].
  destruct (Ascii.eqb c bytes.dquote).
  { injection H as <- <-. apply wellFormed_nil. }
  destruct (Ascii.eqb c "\").
  { destruct (json.escapeAt r) as [t n| |] eqn:He; try discriminate.
    destruct (json.unquoteFrom n r) as [x' rest'| | |] eqn:Hu; try discriminate.
    injection H as <- <-. eapply escapeAt_wellFormed; [exact He|].
    eapply IH, Hu. }
  destruct (bytes.code c <? 32)%N; [discriminate|].
  destruct (bytes.code c <? utf8.RuneSelf)%N eqn:Hc.
  { destruct (json.unquoteFrom 0 r) as [x' rest'| | |] eqn:Hu; try discriminate.
    injection H as <- <-. apply wellFormed_ascii; [now apply N.ltb_lt|].
    eapply IH, Hu. }
  destruct (utf8.DecodeRune c r) as [rr size].
  destruct (json.unquoteFrom (size - 1) r) as [x' rest'| | |] eqn:Hu;
    try discriminate.
  injection H as <- <-. apply wellFormed_rune. eapply IH, Hu.
Qed.

(** ** Numbers: what [Itoa] writes, the scanner and [ParseInt] read *)

Lemma append_nil_r (s : string) : s ++ "" = s.
Proof. induction s as [|c s IH]; cbn; [reflexivity|]. now rewrite IH. Qed.

Lemma endsNumber_digit c r : endsNumber (String c r) = true -> bytes.isDigit c = false.
Proof.
  cbn. intros H. apply negb_true_iff in H.
  destruct (bytes.isDigit c); [discriminate|reflexivity].
Qed.

Lemma digits_app s : forall d r rest,
  endsNumber rest = true -> json.digits s = (d, r) ->
  json.digits (s ++ rest) = (d, r ++ rest).
Proof.
  induction s as [|c s IH]; intros d r rest Hrest H.
  - injection H as <- <-. cbn [String.append].
    destruct rest as [|c r]; [reflexivity|].
    cbn [json.digits]. now rewrite (endsNumber_digit c r Hrest).
  - cbn [String.append json.digits] in *.
    destruct (bytes.isDigit c).
    + destruct (json.digits s) as [d' r'] eqn:Hd.
      injection H as <- <-. now rewrite (IH d' r' rest Hrest eq_refl).
    + injection H as <- <-. reflexivity.
Qed.

Lemma digits1_app ctx s d r rest :
  endsNumber rest = true -> json.digits1 ctx s = json.Scanned d r ->
  json.digits1 ctx (s ++ rest) = json.Scanned d (r ++ rest).
Proof.
  intros Hrest H. destruct s as [|c s]; [discriminate|].
  unfold json.digits1 in *. cbn [String.append].
  destruct (bytes.isDigit c) eqn:Hc; [|discriminate].
  destruct (json.digits (String c s)) as [d' r'] eqn:Hd.
  injection H as <- <-.
  change (String c (s ++ rest)) with (String c s ++ rest).
  now rewrite (digits_app _ _ _ rest Hrest Hd).
Qed.

Lemma scan_map_app {A B} (f : A -> B) (x : json.scan A) b r :
  json.scan_map f x = json.Scanned b r ->
  exists a, x = json.Scanned a r /\ b = f a.
Proof. destruct x; try discriminate. intros [= <- <-]. eauto. Qed.

Lemma scanExponent_app s x r rest :
  endsNumber rest = true -> json.scanExponent s = json.Scanned x r ->
  json.scanExponent (s ++ rest) = json.Scanned x (r ++ rest).
Proof.
  intros Hrest H. destruct s as [|e s].
  - injection H as <- <-. cbn [String.append].
    destruct rest as [|c r]; [reflexivity|].
    cbn in Hrest. apply negb_true_iff in Hrest.
    unfold json.scanExponent.
    destruct (Ascii.eqb c "e"); [now rewrite !orb_true_r in Hrest|].
    destruct (Ascii.eqb c "E"); [now rewrite !orb_true_r in Hrest|].
    reflexivity.
  - unfold json.scanExponent in *. cbn [String.append].
    destruct (_ || _); [|injection H as <- <-; reflexivity].
    destruct s as [|sg s1]; [discriminate|]. cbn [String.append].
    destruct (_ || _).
    + apply scan_map_app in H as (d & H & ->).
      now rewrite (digits1_app _ _ _ _ rest Hrest H).
    + apply scan_map_app in H as (d & H & ->).
      change (String sg (s1 ++ rest)) with (String sg s1 ++ rest).
      now rewrite (digits1_app _ _ _ _ rest Hrest H).
Qed.

Lemma scanFraction_app s x r rest :
  endsNumber rest = true -> json.scanFraction s = json.Scanned x r ->
  json.scanFraction (s ++ rest) = json.Scanned x (r ++ rest).
Proof.
  intros Hrest H. destruct s as [|p s].
  - injection H as <- <-. cbn [String.append].
    destruct rest as [|c r]; [reflexivity|].
    pose proof (scanExponent_app "" "" "" (String c r) Hrest eq_refl) as He.
    cbn [String.append] in He.
    cbn in Hrest. apply negb_true_iff in Hrest.
    unfold json.scanFraction.
    destruct (Ascii.eqb c "."); [|exact He].
    destruct (bytes.isDigit c); discriminate.
  - unfold json.scanFraction in *. cbn [String.append].
    destruct (Ascii.eqb p ".").
    + destruct (json.digits1 _ s) as [d r1| | |] eqn:Hd; try discriminate.
      apply scan_map_app in H as (e & H & ->).
      rewrite (digits1_app _ _ _ _ rest Hrest Hd).
      now rewrite (scanExponent_app _ _ _ rest Hrest H).
    + change (String p (s ++ rest)) with (String p s ++ rest).
      now apply scanExponent_app.
Qed.

Lemma scanUnsigned_app s x r rest :
  endsNumber rest = true -> json.scanUnsigned s = json.Scanned x r ->
  json.scanUnsigned (s ++ rest) = json.Scanned x (r ++ rest).
Proof.
  intros Hrest H. destruct s as [|c s]; [discriminate|].
  unfold json.scanUnsigned in *. cbn [String.append].
  destruct (Ascii.eqb c "0").
  - apply scan_map_app in H as (e & H & ->).
    now rewrite (scanFraction_app _ _ _ rest Hrest H).
  - destruct (bytes.isDigit c); [|discriminate].
    destruct (json.digits s) as [d r1] eqn:Hd.
    apply scan_map_app in H as (e & H & ->).
    rewrite (digits_app _ _ _ rest Hrest Hd).
    now rewrite (scanFraction_app _ _ _ rest Hrest H).
Qed.

(** A literal the scanner takes whole is taken whole before any text that
    cannot continue a number. *)
Lemma scanNumber_app s x r rest :
  endsNumber rest = true -> json.scanNumber s = json.Scanned x r ->
  json.scanNumber (s ++ rest) = json.Scanned x (r ++ rest).
Proof.
  intros Hrest H. destruct s as [|c s]; [discriminate|].
  unfold json.scanNumber in *. cbn [String.append].
  destruct (Ascii.eqb c "-").
  - apply scan_map_app in H as (e & H & ->).
    now rewrite (scanUnsigned_app _ _ _ rest Hrest H).
  - change (String c (s ++ rest)) with (String c s ++ rest).
    now apply scanUnsigned_app.
Qed.








Lemma ParseInt_int64 s n : strconv.ParseInt s = Some n -> int64 n = true.
Proof.
  unfold strconv.ParseInt, int64.
  destruct (strconv.allDigits _); [|discriminate].
  destruct (NilZero.int_of_string _) as [d|]; [|discriminate].
  destruct (_ && _) eqn:H; [|discriminate].
  now intros [= <-].
Qed.

(** ** Values: what the encoder prints, the scanner reads *)

Lemma scansWith_le n m v : (n <= m)%nat -> scansWith n v -> scansWith m v.
Proof. intros Hnm H fuel rest Hf. apply H. lia. Qed.

Lemma scans_Str s : wellFormed s -> scansWith 1 (json.Str s).
Proof.
  intros Hs fuel rest Hf _. destruct fuel as [|f]; [lia|].
  cbn [json.print]. unfold json.appendString.
  cbn [String.append json.scanValue json.skipSpace].
  change (json.isSpace bytes.dquote) with false. cbv iota.
  change (Ascii.eqb bytes.dquote "{") with false.
  change (Ascii.eqb bytes.dquote "[") with false.
  change (Ascii.eqb bytes.dquote bytes.dquote) with true. cbv iota.
  rewrite append_assoc. cbn [String.append].
  now rewrite scanString_appendString.
Qed.


Lemma scans_Null : scansWith 1 json.Null.
Proof.
  intros fuel rest Hf _. destruct fuel as [|f]; [lia|]. reflexivity.
Qed.

Lemma number_head c l x r :
  json.scanNumber (String c l) = json.Scanned x r ->
  Ascii.eqb c "-" || bytes.isDigit c = true.
Proof.
  unfold json.scanNumber, json.scanUnsigned.
  destruct (Ascii.eqb c "-"); [reflexivity|].
  destruct (Ascii.eqb_spec c "0") as [->|]; [reflexivity|].
  destruct (bytes.isDigit c); [reflexivity|discriminate].
Qed.

Lemma scans_Number lit :
  json.scanNumber lit = json.Scanned lit "" -> scansWith 1 (json.Number lit).
Proof.
  intros Hl fuel rest Hf Hrest. destruct fuel as [|f]; [lia|].
  cbn [json.print].
  pose proof (scanNumber_app lit lit "" rest Hrest Hl) as Hn.
  cbn [String.append] in Hn.
  destruct lit as [|c l]; [discriminate|].
  pose proof (number_head c l _ _ Hl) as Hc.
  cbn [String.append] in *.
  assert (Hsp : json.isSpace c = false
                /\ Ascii.eqb c "{" = false /\ Ascii.eqb c "[" = false
                /\ Ascii.eqb c bytes.dquote = false).
  { clear - Hc. destruct c as [b0 b1 b2 b3 b4 b5 b6 b7].
    destruct b0, b1, b2, b3, b4, b5, b6, b7;
      first [discriminate Hc | repeat split; reflexivity]. }
  destruct Hsp as (H1 & H2 & H3 & H4).
  cbn [json.scanValue json.skipSpace]. rewrite H1, H2, H3, H4, Hc, Hn.
  reflexivity.
Qed.

Lemma print_Object ms :
  json.print (json.Object ms) = "{" ++ json.join (map memberText ms) ++ "}".
Proof. reflexivity. Qed.

Lemma memberText_head kv :
  memberText kv
  = String bytes.dquote
      (json.appendFrom 0 (fst kv)
       ++ String bytes.dquote (":" ++ json.print (snd kv))).
Proof.
  unfold memberText, json.appendString. cbn [String.append].
  now rewrite append_assoc.
Qed.

Lemma join_cons x l :
  l <> [] -> json.join (x :: l) = x ++ "," ++ json.join l.
Proof. destruct l; [congruence|reflexivity]. Qed.

Lemma scanMembers_print n ms :
  ms <> [] ->
  Forall (fun kv => wellFormed (fst kv) /\ scansWith n (snd kv)) ms ->
  forall fuel rest, (n + length ms <= fuel)%nat ->
    json.scanMembers fuel (json.join (map memberText ms) ++ "}" ++ rest)
    = json.Scanned ms rest.
Proof.
  induction ms as [|[k v] ms IH]; [congruence|].
  intros _ Hall fuel rest Hf.
  inversion Hall as [|? ? [Hk Hv] Hall']; subst. cbn [fst snd] in *.
  cbn [length] in Hf. destruct fuel as [|f]; [lia|].
  destruct ms as [|kv' ms'].
  - cbn [map json.join]. rewrite memberText_head. cbn [fst snd String.append].
    cbn [json.scanMembers].
    change (negb (Ascii.eqb bytes.dquote bytes.dquote)) with false. cbv iota.
    rewrite !append_assoc. cbn [String.append].
    rewrite (scanString_appendString k _ Hk).
    cbn [json.skipSpace]. change (json.isSpace ":") with false. cbv iota.
    change (negb (Ascii.eqb ":" ":")) with false. cbv iota.
    rewrite ?append_assoc.
    rewrite (Hv f (String "}" rest)); [|lia|reflexivity].
    reflexivity.
  - rewrite map_cons, join_cons by discriminate.
    rewrite memberText_head. cbn [fst snd String.append].
    cbn [json.scanMembers].
    change (negb (Ascii.eqb bytes.dquote bytes.dquote)) with false. cbv iota.
    rewrite !append_assoc. cbn [String.append].
    rewrite (scanString_appendString k _ Hk).
    cbn [json.skipSpace]. change (json.isSpace ":") with false. cbv iota.
    change (negb (Ascii.eqb ":" ":")) with false. cbv iota.
    rewrite ?append_assoc. cbn [String.append].
    rewrite (Hv f _); [|lia|reflexivity].
    cbn [json.skipSpace]. change (json.isSpace ",") with false. cbv iota.
    change (Ascii.eqb "," ",") with true. cbv iota.
    assert (Hsk : forall X, json.skipSpace
                    (json.join (map memberText (kv' :: ms')) ++ X)
                  = json.join (map memberText (kv' :: ms')) ++ X).
    { intros X. cbn [map]. destruct ms'; cbn [json.join map];
        rewrite memberText_head; reflexivity. }
    rewrite Hsk.
    change (String "}" rest) with ("}" ++ rest).
    rewrite IH; [reflexivity|discriminate|exact Hall'|cbn [length] in *; lia].
Qed.

Lemma scans_Object n ms :
  Forall (fun kv => wellFormed (fst kv) /\ scansWith n (snd kv)) ms ->
  scansWith (n + length ms + 1) (json.Object ms).
Proof.
  intros Hall fuel rest Hf _. destruct fuel as [|f]; [lia|].
  rewrite print_Object. cbn [String.append json.scanValue json.skipSpace].
  change (json.isSpace "{") with false. cbv iota.
  change (Ascii.eqb "{" "{") with true. cbv iota.
  destruct ms as [|kv ms]; [reflexivity|].
  rewrite append_assoc.
  pose proof (scanMembers_print n (kv :: ms) ltac:(discriminate) Hall f rest
                ltac:(lia)) as Hm.
  assert (Hhead : exists X, json.join (map memberText (kv :: ms))
                              ++ "}" ++ rest
                            = String bytes.dquote X).
  { cbn [map]. destruct ms; cbn [json.join map];
      rewrite memberText_head; cbn [String.append]; eauto. }
  destruct Hhead as [X HX]. rewrite HX in *.
  cbn [json.skipSpace]. change (json.isSpace bytes.dquote) with false.
  cbv iota. change (Ascii.eqb bytes.dquote "}") with false. cbv iota.
  now rewrite Hm.
Qed.










Lemma wellFormed_isASCII s : isASCII s = true -> wellFormed s.
Proof.
  induction s as [|c s IH]; cbn [isASCII]; intros H; [apply wellFormed_nil|].
  apply andb_true_iff in H as [Hc Hs].
  apply wellFormed_ascii; [now apply N.ltb_lt|auto].
Qed.










(** ** What the decoder leaves in a record *)

Lemma scan_wf fuel :
  (forall s v r, json.scanValue fuel s = json.Scanned v r -> wfValue v)
  /\ (forall s l r, json.scanElements fuel s = json.Scanned l r ->
                    Forall wfValue l)
  /\ (forall s ms r, json.scanMembers fuel s = json.Scanned ms r ->
                     Forall (fun kv => wfValue (snd kv)) ms).
Proof.
  induction fuel as [|f (IHv & IHe & IHm)].
  { repeat split; intros; discriminate. }
  split; [|split].
  - intros s v r H. cbn [json.scanValue] in H.
    destruct (json.skipSpace s) as [|c t]; [discriminate|].
    destruct (Ascii.eqb c "{").
    { destruct (json.skipSpace t) as [|c' t']; [discriminate|].
      destruct (Ascii.eqb c' "}").
      - injection H as <- <-. constructor. constructor.
      - apply scan_map_app in H as (ms & H & ->).
        constructor. eapply IHm, H. }
    destruct (Ascii.eqb c "[").
    { destruct (json.skipSpace t) as [|c' t']; [discriminate|].
      destruct (Ascii.eqb c' "]").
      - injection H as <- <-. constructor. constructor.
      - apply scan_map_app in H as (ms & H & ->).
        constructor. eapply IHe, H. }
    destruct (Ascii.eqb c bytes.dquote).
    { apply scan_map_app in H as (x & H & ->). constructor.
      eapply unquoteFrom_wellFormed, H. }
    destruct (_ || _).
    { apply scan_map_app in H as (x & H & ->). constructor. }
    destruct (Ascii.eqb c "t").
    { apply scan_map_app in H as (x & H & ->). constructor. }
    destruct (Ascii.eqb c "f").
    { apply scan_map_app in H as (x & H & ->). constructor. }
    destruct (Ascii.eqb c "n").
    { apply scan_map_app in H as (x & H & ->). constructor. }
    discriminate.
  - intros s l r H. cbn [json.scanElements] in H.
    destruct (json.scanValue f s) as [v r1| | |] eqn:Hv; try discriminate.
    apply IHv in Hv.
    destruct (json.skipSpace r1) as [|c r2]; [discriminate|].
    destruct (Ascii.eqb c ",").
    { apply scan_map_app in H as (x & H & ->). constructor; [exact Hv|].
      eapply IHe, H. }
    destruct (Ascii.eqb c "]"); [|discriminate].
    injection H as <- <-. now constructor.
  - intros s ms r H. cbn [json.scanMembers] in H.
    destruct s as [|q0 t]; [discriminate|].
    destruct (negb _); [discriminate|].
    destruct (json.scanString t) as [k r1| | |]; try discriminate.
    destruct (json.skipSpace r1) as [|c1 r2]; [discriminate|].
    destruct (negb _); [discriminate|].
    destruct (json.scanValue f r2) as [v r3| | |] eqn:Hv; try discriminate.
    apply IHv in Hv.
    destruct (json.skipSpace r3) as [|c3 r4]; [discriminate|].
    destruct (Ascii.eqb c3 ",").
    { apply scan_map_app in H as (x & H & ->). constructor; [exact Hv|].
      eapply IHm, H. }
    destruct (Ascii.eqb c3 "}"); [|discriminate].
    injection H as <- <-. now constructor.
Qed.

Lemma readValue_wf data v rest :
  json.readValue data = inr (v, rest) -> wfValue v.
Proof.
  unfold json.readValue.
  destruct (json.skipSpace data) as [|c s]; [discriminate|].
  destruct (json.scanValue _ _) as [v' r| | |] eqn:Hs; try discriminate.
  intros [= <- <-]. eapply (proj1 (scan_wf _)), Hs.
Qed.

Lemma keeps_storeString : keeps wellFormed json.storeString.
Proof.
  intros v old saved Hv Hold. destruct v; cbn; auto. now inversion Hv.
Qed.

Lemma keeps_storeInt : keeps (fun n => int64 n = true) json.storeInt.
Proof.
  intros v old saved Hv Hold. destruct v; cbn; auto.
  destruct (strconv.ParseInt lit) as [n|] eqn:Hp; cbn; auto.
  eapply ParseInt_int64, Hp.
Qed.

Lemma keeps_True {A} (st : json.value -> A -> json.Dec A) :
  keeps (fun _ => True) st.
Proof. intros v old saved _ _. exact I. Qed.

Lemma keeps_fieldOf {T A} (P : T -> Prop) (Q : A -> Prop) n
      (get : T -> A) (set : A -> T -> T) st :
  (forall t, P t -> Q (get t)) ->
  (forall a t, Q a -> P t -> P (set a t)) ->
  keeps Q st -> keeps P (json.store (json.fieldOf n get set st)).
Proof.
  intros Hget Hset Hst v old saved Hv Hold.
  cbn [json.store json.fieldOf]. unfold json.bind, json.ret.
  specialize (Hst v (get old) saved Hv (Hget old Hold)).
  destruct (st v (get old) saved) as [a saved']. cbn [fst] in *.
  now apply Hset.
Qed.

Lemma keeps_storeMembers {T} (P : T -> Prop) (fields : list (json.field T)) :
  Forall (fun f => keeps P (json.store f)) fields ->
  forall ms t saved,
    Forall (fun kv => wfValue (snd kv)) ms -> P t ->
    P (fst (json.storeMembers fields ms t saved)).
Proof.
  intros Hf ms. induction ms as [|[k v] ms IH]; intros t saved Hms Ht.
  - exact Ht.
  - inversion Hms as [|? ? Hv Hms']; subst. cbn [snd] in Hv.
    cbn [json.storeMembers]. unfold json.bind at 1.
    destruct (json.findField fields k) as [f|] eqn:Hfind.
    + apply findField_In in Hfind.
      rewrite List.Forall_forall in Hf.
      pose proof (Hf f Hfind v t saved Hv Ht) as Hk.
      destruct (json.store f v t saved) as [t' saved']. now apply IH.
    + cbn [json.ret]. now apply IH.
Qed.

Lemma keeps_storeStruct {T} (P : T -> Prop) ty (fields : list (json.field T)) :
  Forall (fun f => keeps P (json.store f)) fields ->
  keeps P (json.storeStruct ty fields).
Proof.
  intros Hf v old saved Hv Hold. destruct v; cbn; auto.
  apply keeps_storeMembers; auto. now inversion Hv.
Qed.

Ltac keeps_table :=
  repeat (apply List.Forall_cons;
          [eapply keeps_fieldOf;
           [ |
            |first [apply keeps_storeString | apply keeps_storeInt
                   | apply keeps_True]];
           [intros t Ht; first [exact I | apply Ht]
           |intros a t Ha Ht; unfold goodAbout, goodControl, goodStatus in *;
            cbn; tauto]|]);
  try apply List.Forall_nil.

Lemma keeps_About : keeps goodAbout (json.storeStruct T_About About_fields).
Proof. apply keeps_storeStruct. unfold About_fields. keeps_table. Qed.

Lemma keeps_Control :
  keeps goodControl (json.storeStruct T_Control Control_fields).
Proof. apply keeps_storeStruct. unfold Control_fields. keeps_table. Qed.

Lemma keeps_Status :
  keeps goodStatus (json.storeStruct T_Status Status_fields).
Proof. apply keeps_storeStruct. unfold Status_fields. keeps_table. Qed.

Lemma keeps_DeviceDetails : keeps goodDetails storeDeviceDetails.
Proof.
  apply keeps_storeStruct. unfold DeviceDetails_fields.
  repeat apply List.Forall_cons; try apply List.Forall_nil.
  - apply (keeps_fieldOf goodDetails goodAbout); [| |apply keeps_About].
    + intros t (H & _). exact H.
    + intros a t Ha (_ & Hc & Hs). split; [|split]; assumption.
  - apply (keeps_fieldOf goodDetails goodControl); [| |apply keeps_Control].
    + intros t (_ & H & _). exact H.
    + intros a t Ha (H & _ & Hs). split; [|split]; assumption.
  - apply (keeps_fieldOf goodDetails goodStatus); [| |apply keeps_Status].
    + intros t (_ & _ & H). exact H.
    + intros a t Ha (H & Hc & _). split; [|split]; assumption.
Qed.

Lemma goodDetails_zero : goodDetails DeviceDetails_zero.
Proof. repeat split; apply wellFormed_nil. Qed.

(** Whatever the bytes, the record the decoder leaves holds well-formed
    strings and integers of 64 bits. *)
Lemma decodeBytes_good body :
  goodDetails (fst (decodeBytes storeDeviceDetails DeviceDetails_zero body)).
Proof.
  unfold decodeBytes.
  destruct (json.readValue body) as [e|[v rest]] eqn:Hr.
  - apply goodDetails_zero.
  - apply keeps_DeviceDetails; [eapply readValue_wf, Hr|apply goodDetails_zero].
Qed.




(** * Further properties of the operations *)

(** ** A transport that fails *)

Lemma answer_failure c w req err :
  exchange (http_Client c) (requests w) req = inl err ->
  answer c w req = inl err /\ afterDo c w req = afterFailure w req.
Proof.
  unfold answer, afterDo, Do, afterFailure. intros ->. auto.
Qed.

(** X1: When the HTTP client returns an error instead of a response (the
    connection fails, the context is cancelled), [ListDevices], [Get] and
    [Update] return that very error, [ListDevices] and [Get] with a nil
    result; the request is on record and there is no body to close. *)
Theorem transport_error_returned
  (c : Client) (ctx : Context) (deviceID : string) (r : UpdateRequest.t)
  (w : World) (req : Request) (err : error) :
  exchange (http_Client c) (requests w) req = inl err ->
  (sends (ListDevices c ctx) w req ->
   ListDevices c ctx w = ((None, Some err), afterFailure w req))
  /\ (sends (Get c ctx deviceID) w req ->
      Get c ctx deviceID w = ((None, Some err), afterFailure w req))
  /\ (sends (Update c ctx deviceID r) w req ->
      Update c ctx deviceID r w = (Some err, afterFailure w req)).
Proof.
  intros Hex. destruct (answer_failure c w req err Hex) as [Ha Hd].
  repeat split; intros Hs.
  - apply ListDevices_sends in Hs as [_ ->]. now rewrite Ha, Hd.
  - apply Get_sends in Hs as [_ ->]. now rewrite Ha, Hd.
  - apply Update_sends in Hs as (bs & _ & _ & ->). now rewrite Ha, Hd.
Qed.

Lemma transport_error_returned_witness :
  fst (ListDevices (unreachableClient (foreign "dial tcp: timeout"))
                   Background emptyWorld)
  = (None, Some (foreign "dial tcp: timeout"))
  /\ bodies (snd (Get (unreachableClient (foreign "dial tcp: timeout"))
                      Background "d1" emptyWorld)) = []
  /\ fst (Update (unreachableClient (foreign "dial tcp: timeout"))
                 Background "d1" emptyUpdate emptyWorld)
     = Some (foreign "dial tcp: timeout").
Proof.
  pose proof (fun req =>
    transport_error_returned (unreachableClient (foreign "dial tcp: timeout"))
      Background "d1" emptyUpdate emptyWorld req
      (foreign "dial tcp: timeout") eq_refl) as H.
  split; [|split].
  - assert (Hs : exists req,
               sends (ListDevices
                        (unreachableClient (foreign "dial tcp: timeout"))
                        Background) emptyWorld req)
      by (eexists; reflexivity).
    destruct Hs as [req Hs]. destruct (H req) as (H1 & _ & _).
    now rewrite (H1 Hs).
  - assert (Hs : exists req,
               sends (Get (unreachableClient (foreign "dial tcp: timeout"))
                          Background "d1") emptyWorld req)
      by (eexists; reflexivity).
    destruct Hs as [req Hs]. destruct (H req) as (_ & H2 & _).
    now rewrite (H2 Hs).
  - assert (Hs : exists req,
               sends (Update (unreachableClient (foreign "dial tcp: timeout"))
                             Background "d1" emptyUpdate) emptyWorld req)
      by (eexists; reflexivity).
    destruct Hs as [req Hs]. destruct (H req) as (_ & _ & H3).
    now rewrite (H3 Hs).
Defined.

(** ** The result of [Update] *)

(** X2: Once a response has come, the result of [Update] is decided by the
    status code alone: nil for 200, whatever the body holds, and the
    status error otherwise. *)
Theorem Update_result_is_the_status
  (c : Client) (ctx : Context) (deviceID : string) (r : UpdateRequest.t)
  (w : World) (req : Request) (code : Z) (bytes : string) :
  exchange (http_Client c) (requests w) req = inr (code, bytes) ->
  sends (Update c ctx deviceID r) w req ->
  fst (Update c ctx deviceID r w)
  = (if code =? 200 then None else Some (statusError code))
  /\ (fst (Update c ctx deviceID r w) = None <-> code = 200).
Proof.
  intros Hex Hs. apply Update_sends in Hs as (bs & _ & _ & ->).
  rewrite (answer_status _ _ _ _ _ Hex). simpl. unfold StatusOK.
  destruct (Z.eqb_spec code 200) as [->|Hne]; simpl.
  - split; [reflexivity|]. split; auto.
  - split; [reflexivity|]. split; [discriminate|contradiction].
Qed.

Lemma Update_result_is_the_status_witness :
  fst (Update (exampleClient 200 "<html>no JSON</html>") Background "d1"
              emptyUpdate emptyWorld) = None.
Proof.
  pose proof (fun req =>
    Update_result_is_the_status
      (exampleClient 200 "<html>no JSON</html>") Background "d1"
      emptyUpdate emptyWorld req 200 "<html>no JSON</html>" eq_refl) as H.
  edestruct H as [H1 _]; [reflexivity|exact H1].
Defined.

(** ** What a request carries besides its two headers *)

Lemma NewRequest_extent method rawURL body req :
  NewRequest method rawURL body = inr req ->
  ContentLength req
  = match body with
    | Some b => Z.of_nat (String.length b)
    | None => 0
    end
  /\ Host req = url.Host (URL req) /\ Header req = ∅.
Proof.
  unfold NewRequest.
  destruct (negb (validMethod _)); [discriminate|].
  destruct (url.Parse rawURL); [discriminate|].
  intros [= <-]. auto.
Qed.

Lemma readRequest_extent c ctx rawURL req :
  readRequest c ctx rawURL = inr req ->
  http.ctx req = ctx /\ ContentLength req = 0 /\ Body req = None
  /\ Host req = url.Host (URL req)
  /\ Header req
     = <["Authorization" := ["Bearer " ++ token c]]>
         (<["Accept" := ["application/json"]]> ∅).
Proof.
  unfold readRequest.
  destruct (NewRequest "GET" rawURL None) as [e|req0] eqn:Hn; [discriminate|].
  pose proof (NewRequest_fields _ _ _ _ Hn) as (_ & _ & Hb).
  apply NewRequest_extent in Hn as (Hl & Hh & Hhd).
  intros [= <-]. simpl. rewrite Hhd. auto.
Qed.

Lemma writeRequest_extent c ctx rawURL bs req :
  writeRequest c ctx rawURL bs = inr req ->
  http.ctx req = ctx /\ ContentLength req = Z.of_nat (String.length bs)
  /\ Body req = Some bs /\ Host req = url.Host (URL req)
  /\ Header req
     = <["Authorization" := ["Bearer " ++ token c]]>
         (<["Content-Type" := ["application/json"]]> ∅).
Proof.
  unfold writeRequest.
  destruct (NewRequest "PATCH" rawURL (Some bs)) as [e|req0] eqn:Hn;
    [discriminate|].
  pose proof (NewRequest_fields _ _ _ _ Hn) as (_ & _ & Hb).
  apply NewRequest_extent in Hn as (Hl & Hh & Hhd).
  intros [= <-]. simpl. rewrite Hhd. auto.
Qed.

Lemma two_headers (k1 k2 k : string) (v1 v2 : list string) :
  k <> k1 -> k <> k2 ->
  (<[k2 := v2]> (<[k1 := v1]> (∅ : gmap string (list string)))) !! k = None.
Proof.
  intros H1 H2.
  rewrite lookup_insert_ne by congruence.
  rewrite lookup_insert_ne by congruence.
  apply lookup_empty.
Qed.

(** X3: The request an operation sends carries the context of the caller and
    no header besides its two; a read has no body and a content length of
    zero, an update the length of its body; the [Host] of the request is
    the host of its URL. *)
Theorem requests_carry_context
  (c : Client) (ctx : Context) (deviceID : string) (r : UpdateRequest.t)
  (w : World) (req : Request) :
  (sends (ListDevices c ctx) w req \/ sends (Get c ctx deviceID) w req ->
   http.ctx req = ctx /\ Body req = None /\ ContentLength req = 0
   /\ Host req = url.Host (URL req)
   /\ forall k, k <> "Accept" -> k <> "Authorization" ->
                Header req !! k = None)
  /\ (sends (Update c ctx deviceID r) w req ->
      http.ctx req = ctx
      /\ (exists bs, Body req = Some bs
                     /\ ContentLength req = Z.of_nat (String.length bs))
      /\ Host req = url.Host (URL req)
      /\ forall k, k <> "Content-Type" -> k <> "Authorization" ->
                   Header req !! k = None).
Proof.
  split.
  - intros Hs.
    assert (Hr : exists rawURL, readRequest c ctx rawURL = inr req).
    { destruct Hs as [Hs|Hs].
      - apply ListDevices_sends in Hs as [Hr _]. eauto.
      - apply Get_sends in Hs as [Hr _]. eauto. }
    destruct Hr as (rawURL & Hr).
    apply readRequest_extent in Hr as (H1 & H2 & H3 & H4 & H5).
    repeat split; auto. intros k Hk1 Hk2. rewrite H5.
    now apply two_headers.
  - intros Hs. apply Update_sends in Hs as (bs & _ & Hr & _).
    apply writeRequest_extent in Hr as (H1 & H2 & H3 & H4 & H5).
    repeat split; eauto. intros k Hk1 Hk2. rewrite H5.
    now apply two_headers.
Qed.

Lemma requests_carry_context_witness :
  exists req,
    sends (Update (exampleClient 200 "") 7%nat "d1" emptyUpdate) emptyWorld req
    /\ http.ctx req = 7%nat
    /\ Header req !! "Accept" = None.
Proof.
  assert (Hs : exists req,
             sends (Update (exampleClient 200 "") 7%nat "d1" emptyUpdate)
                   emptyWorld req) by (eexists; reflexivity).
  destruct Hs as [req Hs]. exists req. split; [exact Hs|].
  destruct (requests_carry_context (exampleClient 200 "") 7%nat "d1"
              emptyUpdate emptyWorld req) as [_ H].
  destruct (H Hs) as (H1 & _ & _ & H4).
  split; [exact H1|]. apply H4; discriminate.
Defined.

(** ** White space in a body *)

Lemma skipSpace_allSpace ws s :
  allSpace ws = true -> json.skipSpace (ws ++ s) = json.skipSpace s.
Proof.
  induction ws as [|c ws IH]; cbn [allSpace String.append]; [reflexivity|].
  intros H. apply andb_true_iff in H as [Hc Hws].
  cbn [json.skipSpace]. rewrite Hc. auto.
Qed.

Lemma readValue_allSpace ws s :
  allSpace ws = true -> json.readValue (ws ++ s) = json.readValue s.
Proof.
  intros H. unfold json.readValue. now rewrite (skipSpace_allSpace ws s H).
Qed.

Lemma readValue_blank ws : allSpace ws = true -> json.readValue ws = inl io_EOF.
Proof.
  intros H. rewrite <- (append_nil_r ws), (readValue_allSpace ws "" H).
  reflexivity.
Qed.

(** X4: On a 200 response whose body is empty or holds white space only, the
    decoder meets the end of the input before any value: [ListDevices]
    returns a nil slice and [io.EOF], [Get] a pointer to a record of zero
    values and [io.EOF]. *)
Theorem blank_body_is_EOF
  (c : Client) (ctx : Context) (deviceID : string) (w : World)
  (req : Request) (body : string) :
  exchange (http_Client c) (requests w) req = inr (200, body) ->
  allSpace body = true ->
  (sends (ListDevices c ctx) w req ->
   fst (ListDevices c ctx w) = (None, Some io_EOF))
  /\ (sends (Get c ctx deviceID) w req ->
      fst (Get c ctx deviceID w) = (Some DeviceDetails_zero, Some io_EOF)).
Proof.
  intros Hex Hb. split; intros Hs.
  - rewrite (ListDevices_OK _ _ _ _ _ Hs Hex). unfold decodeBytes.
    now rewrite (readValue_blank body Hb).
  - rewrite (Get_OK _ _ _ _ _ _ Hs Hex). unfold decodeBytes.
    now rewrite (readValue_blank body Hb).
Qed.

Lemma blank_body_is_EOF_witness :
  fst (ListDevices (exampleClient 200 "") Background emptyWorld)
  = (None, Some io_EOF)
  /\ fst (Get (exampleClient 200 (String bytes.LF " ")) Background "d1"
              emptyWorld)
     = (Some DeviceDetails_zero, Some io_EOF).
Proof.
  split.
  - edestruct (fun req =>
      blank_body_is_EOF (exampleClient 200 "") Background "d1" emptyWorld
        req "" eq_refl eq_refl) as [H _].
    apply H. reflexivity.
  - edestruct (fun req =>
      blank_body_is_EOF (exampleClient 200 (String bytes.LF " ")) Background
        "d1" emptyWorld req (String bytes.LF " ") eq_refl eq_refl) as [_ H].
    apply H. reflexivity.
Defined.



(** ** What a record of [Get] holds *)

Lemma Get_Some c ctx deviceID w d err :
  fst (Get c ctx deviceID w) = (Some d, err) ->
  exists req body,
    sends (Get c ctx deviceID) w req
    /\ exchange (http_Client c) (requests w) req = inr (200, body)
    /\ decodeBytes storeDeviceDetails DeviceDetails_zero body = (d, err).
Proof.
  intros H.
  destruct (readRequest c ctx (APIEndpoint c ++ "/devices/" ++ deviceID))
    as [e|req] eqn:Hr.
  { rewrite Get_unfold, Hr in H. discriminate. }
  pose proof (Get_sent c ctx deviceID w req Hr) as Hs.
  destruct (exchange (http_Client c) (requests w) req) as [e|[code body]]
    eqn:Hex.
  { destruct (answer_failure c w req e Hex) as [Ha Hd].
    apply Get_sends in Hs as [_ Hg]. rewrite Hg, Ha in H. discriminate. }
  destruct (Z.eq_dec code 200) as [->|Hne].
  - exists req, body. split; [exact Hs|]. split; [exact Hex|].
    rewrite (Get_OK _ _ _ _ _ _ Hs Hex) in H.
    destruct (decodeBytes _ _ _) as [d' e']. cbn [fst snd] in H. congruence.
  - apply Get_sends in Hs as [_ Hg].
    rewrite Hg, (answer_status _ _ _ _ _ Hex) in H. simpl in H.
    rewrite (not_OK _ Hne) in H. discriminate.
Qed.

(** X6: Whatever bytes the server sends, every string of a record that [Get]
    returns is well-formed UTF-8 (the decoder puts U+FFFD where the bytes
    are not), and every integer is within 64 bits. *)
Theorem Get_record_is_well_formed
  (c : Client) (ctx : Context) (deviceID : string) (w : World)
  (d : DeviceDetails) (err : option error) :
  fst (Get c ctx deviceID w) = (Some d, err) -> goodDetails d.
Proof.
  intros H. apply Get_Some in H as (req & body & _ & _ & Hd).
  pose proof (decodeBytes_good body) as Hg. now rewrite Hd in Hg.
Qed.

Lemma Get_record_is_well_formed_witness :
  goodDetails
    {| About :=
         {| About.FirmwareVersion := ""; About.IpAddress := "";
            About.LanAddress := ""; About.MacAddress := "";
            About.Model := String "239" (String "191" (String "189" ""));
            About.SerialNumber := "" |};
       Control := Control.zero;
       Status := Status.zero |}.
Proof.
  apply (Get_record_is_well_formed (exampleClient 200 illFormedDetails)
           Background "d1" emptyWorld _ None).
  reflexivity.
Defined.

(** ** From [New] to the first request *)

(** X7: A client that [New] makes without options sends its requests to the
    production endpoint with the token it was given: [ListDevices] sends a
    GET to [https://api.developer.sleep.me/v1/devices], host
    [api.developer.sleep.me], through the HTTP client of [New]. *)
Theorem New_client_talks_to_production
  (DefaultClient : http.Client) (tok : string) (ctx : Context)
  (w w' : World) (c : Client) :
  fst (New DefaultClient tok [] w) = (Some c, None) ->
  http_Client c = DefaultClient
  /\ exists req,
       sends (ListDevices c ctx) w' req
       /\ Method req = "GET"
       /\ url.Scheme (URL req) = "https"
       /\ url.Host (URL req) = "api.developer.sleep.me"
       /\ Host req = "api.developer.sleep.me"
       /\ url.Path (URL req) = "/v1/devices"
       /\ url.RawQuery (URL req) = ""
       /\ Header req !! "Authorization" = Some ["Bearer " ++ tok].
Proof.
  unfold New. cbn [applyOptions ret fst]. intros [= <-].
  split; [reflexivity|].
  cbn [APIEndpoint].
  pose proof (readRequest_shape
                {| token := tok; APIEndpoint := ProductionAPIEndpoint;
                   http_Client := DefaultClient |} ctx
                (ProductionAPIEndpoint ++ "/devices")) as H.
  destruct (NewRequest "GET" (ProductionAPIEndpoint ++ "/devices") None)
    as [e|req0] eqn:Hn; [vm_compute in Hn; discriminate|].
  destruct H as (req & Hr & Hm & Hu & _ & _ & Hh).
  pose proof (readRequest_extent _ _ _ _ Hr) as (_ & _ & _ & Hhost & _).
  exists req. split; [now apply ListDevices_sent|].
  rewrite Hhost, Hu, Hh. cbn [token].
  vm_compute in Hn. injection Hn as <-.
  repeat split. exact Hm.
Qed.

Lemma New_client_talks_to_production_witness :
  exists req,
    sends (ListDevices
             {| APIEndpoint := ProductionAPIEndpoint; token := "abc";
                http_Client := fixedClient 200 "[]" |} Background)
          emptyWorld req
    /\ url.Path (URL req) = "/v1/devices"
    /\ Header req !! "Authorization" = Some ["Bearer abc"].
Proof.
  destruct (New_client_talks_to_production (fixedClient 200 "[]") "abc"
              Background emptyWorld emptyWorld
              {| APIEndpoint := ProductionAPIEndpoint; token := "abc";
                 http_Client := fixedClient 200 "[]" |} eq_refl)
    as (_ & req & Hs & _ & _ & _ & _ & Hp & _ & Ha).
  exists req. auto.
Defined.

(** ** Where the token goes *)

Lemma readRequest_same c1 c2 ctx rawURL req1 req2 :
  readRequest c1 ctx rawURL = inr req1 ->
  readRequest c2 ctx rawURL = inr req2 ->
  sameButAuthorization req1 req2.
Proof.
  intros H1 H2.
  pose proof (readRequest_shape c1 ctx rawURL) as S1.
  pose proof (readRequest_shape c2 ctx rawURL) as S2.
  destruct (NewRequest "GET" rawURL None) as [e|req0]; [congruence|].
  destruct S1 as (r1 & E1 & M1 & U1 & _). destruct S2 as (r2 & E2 & M2 & U2 & _).
  assert (r1 = req1) by congruence. assert (r2 = req2) by congruence.
  subst r1 r2.
  apply readRequest_extent in H1 as (C1 & L1 & B1 & Ho1 & Hd1).
  apply readRequest_extent in H2 as (C2 & L2 & B2 & Ho2 & Hd2).
  unfold sameButAuthorization.
  rewrite M1, M2, U1, U2, B1, B2, L1, L2, Ho1, Ho2, U1, U2, C1, C2, Hd1, Hd2.
  rewrite !delete_insert_eq. repeat split.
Qed.

Lemma writeRequest_same c1 c2 ctx rawURL bs req1 req2 :
  writeRequest c1 ctx rawURL bs = inr req1 ->
  writeRequest c2 ctx rawURL bs = inr req2 ->
  sameButAuthorization req1 req2.
Proof.
  intros H1 H2.
  pose proof (writeRequest_shape c1 ctx rawURL bs) as S1.
  pose proof (writeRequest_shape c2 ctx rawURL bs) as S2.
  destruct (NewRequest "PATCH" rawURL (Some bs)) as [e|req0]; [congruence|].
  destruct S1 as (r1 & E1 & M1 & U1 & _). destruct S2 as (r2 & E2 & M2 & U2 & _).
  assert (r1 = req1) by congruence. assert (r2 = req2) by congruence.
  subst r1 r2.
  apply writeRequest_extent in H1 as (C1 & L1 & B1 & Ho1 & Hd1).
  apply writeRequest_extent in H2 as (C2 & L2 & B2 & Ho2 & Hd2).
  unfold sameButAuthorization.
  rewrite M1, M2, U1, U2, B1, B2, L1, L2, Ho1, Ho2, U1, U2, C1, C2, Hd1, Hd2.
  rewrite !delete_insert_eq. repeat split.
Qed.

(** X8: The token reaches the request through the [Authorization] header and
    nowhere else: two clients of one endpoint that differ in their tokens
    send, for the same call, requests with the same method, URL, body,
    context and other headers. *)
Theorem token_only_in_Authorization
  (c1 c2 : Client) (ctx : Context) (deviceID : string)
  (r : UpdateRequest.t) (w1 w2 : World) (req1 req2 : Request) :
  APIEndpoint c1 = APIEndpoint c2 ->
  (sends (ListDevices c1 ctx) w1 req1 -> sends (ListDevices c2 ctx) w2 req2 ->
   sameButAuthorization req1 req2)
  /\ (sends (Get c1 ctx deviceID) w1 req1 ->
      sends (Get c2 ctx deviceID) w2 req2 ->
      sameButAuthorization req1 req2)
  /\ (sends (Update c1 ctx deviceID r) w1 req1 ->
      sends (Update c2 ctx deviceID r) w2 req2 ->
      sameButAuthorization req1 req2).
Proof.
  intros He. split; [|split]; intros H1 H2.
  - apply ListDevices_sends in H1 as [H1 _].
    apply ListDevices_sends in H2 as [H2 _].
    rewrite He in H1. exact (readRequest_same _ _ _ _ _ _ H1 H2).
  - apply Get_sends in H1 as [H1 _]. apply Get_sends in H2 as [H2 _].
    rewrite He in H1. exact (readRequest_same _ _ _ _ _ _ H1 H2).
  - apply Update_sends in H1 as (bs1 & E1 & H1 & _).
    apply Update_sends in H2 as (bs2 & E2 & H2 & _).
    assert (bs1 = bs2) by congruence. subst bs2.
    rewrite He in H1. exact (writeRequest_same _ _ _ _ _ _ _ H1 H2).
Qed.

Lemma token_only_in_Authorization_witness :
  exists req1 req2,
    sends (Get (exampleClient 200 "{}") Background "d1") emptyWorld req1
    /\ sends (Get {| APIEndpoint := "https://api.example.test/v1";
                     token := "another token";
                     http_Client := fixedClient 200 "{}" |} Background "d1")
             emptyWorld req2
    /\ URL req1 = URL req2
    /\ Header req1 !! "Accept" = Header req2 !! "Accept".
Proof.
  assert (H1 : exists req,
             sends (Get (exampleClient 200 "{}") Background "d1")
                   emptyWorld req) by (eexists; reflexivity).
  assert (H2 : exists req,
             sends (Get {| APIEndpoint := "https://api.example.test/v1";
                           token := "another token";
                           http_Client := fixedClient 200 "{}" |}
                        Background "d1") emptyWorld req)
    by (eexists; reflexivity).
  destruct H1 as [req1 H1]. destruct H2 as [req2 H2].
  exists req1, req2. split; [exact H1|]. split; [exact H2|].
  destruct (token_only_in_Authorization (exampleClient 200 "{}")
              {| APIEndpoint := "https://api.example.test/v1";
                 token := "another token";
                 http_Client := fixedClient 200 "{}" |}
              Background "d1" emptyUpdate emptyWorld emptyWorld req1 req2
              eq_refl) as (_ & H & _).
  destruct (H H1 H2) as (_ & Hu & _ & _ & _ & _ & Hh).
  split; [exact Hu|].
  apply (f_equal (fun m => m !! "Accept")) in Hh.
  now rewrite !lookup_delete_ne in Hh by discriminate.
Defined.

(** * The list of [ListDevices] and its serialization *)

(** ** More fuel does not change what the scanner reads *)

Lemma scan_map_fuel {A B} (f : A -> B) (x : json.scan A) :
  json.scan_map f x <> json.ScanFuel -> x <> json.ScanFuel.
Proof. destruct x; cbn; congruence. Qed.

Lemma scan_mono fuel :
  (forall s fuel', (fuel <= fuel')%nat ->
     json.scanValue fuel s <> json.ScanFuel ->
     json.scanValue fuel' s = json.scanValue fuel s)
  /\ (forall s fuel', (fuel <= fuel')%nat ->
        json.scanElements fuel s <> json.ScanFuel ->
        json.scanElements fuel' s = json.scanElements fuel s)
  /\ (forall s fuel', (fuel <= fuel')%nat ->
        json.scanMembers fuel s <> json.ScanFuel ->
        json.scanMembers fuel' s = json.scanMembers fuel s).
Proof.
  induction fuel as [|f (IHv & IHe & IHm)].
  { repeat split; intros s fuel' _ H; now destruct H. }
  split; [|split]; intros s fuel' Hle H;
    (destruct fuel' as [|f']; [lia|]);
    assert (Hf : (f <= f')%nat) by lia.
  - cbn [json.scanValue] in *.
    destruct (json.skipSpace s) as [|c r]; [reflexivity|].
    destruct (Ascii.eqb c "{").
    { destruct (json.skipSpace r) as [|c' r']; [reflexivity|].
      destruct (Ascii.eqb c' "}"); [reflexivity|].
      apply scan_map_fuel in H. now rewrite (IHm _ f' Hf H). }
    destruct (Ascii.eqb c "[").
    { destruct (json.skipSpace r) as [|c' r']; [reflexivity|].
      destruct (Ascii.eqb c' "]"); [reflexivity|].
      apply scan_map_fuel in H. now rewrite (IHe _ f' Hf H). }
    reflexivity.
  - cbn [json.scanElements] in *.
    assert (Hv : json.scanValue f s <> json.ScanFuel).
    { intros E. rewrite E in H. now apply H. }
    rewrite (IHv s f' Hf Hv).
    destruct (json.scanValue f s) as [v r1| | |]; try reflexivity.
    destruct (json.skipSpace r1) as [|c r2]; [reflexivity|].
    destruct (Ascii.eqb c ","); [|reflexivity].
    apply scan_map_fuel in H. now rewrite (IHe _ f' Hf H).
  - cbn [json.scanMembers] in *.
    destruct s as [|q0 r]; [reflexivity|].
    destruct (negb _); [reflexivity|].
    destruct (json.scanString r) as [k r1| | |]; try reflexivity.
    destruct (json.skipSpace r1) as [|c1 r2]; [reflexivity|].
    destruct (negb _); [reflexivity|].
    assert (Hv : json.scanValue f r2 <> json.ScanFuel).
    { intros E. rewrite E in H. now apply H. }
    rewrite (IHv r2 f' Hf Hv).
    destruct (json.scanValue f r2) as [v r3| | |]; try reflexivity.
    destruct (json.skipSpace r3) as [|c3 r4]; [reflexivity|].
    destruct (Ascii.eqb c3 ","); [|reflexivity].
    apply scan_map_fuel in H. now rewrite (IHm _ f' Hf H).
Qed.

(** What the scanner reads on some fuel, the decoder reads. *)
Lemma readValue_of_scan fuel c r v rest :
  json.isSpace c = false ->
  json.scanValue fuel (String c r) = json.Scanned v rest ->
  json.readValue (String c r) = inr (v, rest).
Proof.
  intros Hc Hs. unfold json.readValue.
  cbn [json.skipSpace]. rewrite Hc.
  set (F := (2 * String.length (String c r) + 1)%nat).
  destruct (scan_shrinks F) as [Ht _].
  specialize (Ht (String c r) (le_n _)).
  assert (Hnf : json.scanValue F (String c r) <> json.ScanFuel).
  { intros E. rewrite E in Ht. exact Ht. }
  assert (Hnf' : json.scanValue fuel (String c r) <> json.ScanFuel)
    by (rewrite Hs; discriminate).
  pose proof (proj1 (scan_mono F) (String c r) (Nat.max F fuel)
                (Nat.le_max_l _ _) Hnf) as H1.
  pose proof (proj1 (scan_mono fuel) (String c r) (Nat.max F fuel)
                (Nat.le_max_r _ _) Hnf') as H2.
  rewrite <- H1, H2, Hs. reflexivity.
Qed.

(** ** Arrays: what the encoder prints, the scanner reads *)

Lemma skipSpace_idem s : json.skipSpace (json.skipSpace s) = json.skipSpace s.
Proof.
  induction s as [|c s IH]; [reflexivity|]. cbn [json.skipSpace].
  destruct (json.isSpace c) eqn:Hc; [exact IH|].
  cbn [json.skipSpace]. now rewrite Hc.
Qed.

(** A text the scanner reads a value from starts, after its white space,
    with a byte that is no closing bracket. *)
Lemma scanValue_head fuel s v r :
  json.scanValue fuel s = json.Scanned v r ->
  exists c t, json.skipSpace s = String c t /\ Ascii.eqb c "]" = false.
Proof.
  destruct fuel as [|f]; [discriminate|]. cbn [json.scanValue].
  destruct (json.skipSpace s) as [|c t]; [discriminate|].
  intros H. exists c, t. split; [reflexivity|].
  destruct (Ascii.eqb_spec c "]") as [->|]; [discriminate H|reflexivity].
Qed.

Lemma scanValue_skipSpace fuel s :
  json.scanValue fuel (json.skipSpace s) = json.scanValue fuel s.
Proof.
  destruct fuel as [|f]; [reflexivity|]. cbn [json.scanValue].
  now rewrite skipSpace_idem.
Qed.

Lemma scanElements_skipSpace fuel s :
  json.scanElements fuel (json.skipSpace s) = json.scanElements fuel s.
Proof.
  destruct fuel as [|f]; [reflexivity|]. cbn [json.scanElements].
  now rewrite scanValue_skipSpace.
Qed.

Lemma scanElements_print n l :
  l <> [] ->
  Forall (scansWith n) l ->
  forall fuel rest, (n + length l <= fuel)%nat ->
    json.scanElements fuel (json.join (map json.print l) ++ "]" ++ rest)
    = json.Scanned l rest.
Proof.
  induction l as [|v l IH]; [congruence|].
  intros _ Hall fuel rest Hf.
  inversion Hall as [|? ? Hv Hall']; subst.
  cbn [length] in Hf. destruct fuel as [|f]; [lia|].
  cbn [json.scanElements].
  destruct l as [|v' l'].
  - cbn [map json.join String.append].
    rewrite (Hv f (String "]" rest)); [|lia|reflexivity].
    reflexivity.
  - rewrite map_cons, join_cons by discriminate.
    rewrite !append_assoc. cbn [String.append].
    rewrite (Hv f _); [|lia|reflexivity].
    cbn [json.skipSpace]. change (json.isSpace ",") with false. cbv iota.
    change (Ascii.eqb "," ",") with true. cbv iota.
    change (String "]" rest) with ("]" ++ rest).
    rewrite IH; [reflexivity|discriminate|exact Hall'|cbn [length] in *; lia].
Qed.

Lemma scans_Array n l :
  Forall (scansWith n) l -> scansWith (n + length l + 1) (json.Array l).
Proof.
  intros Hall fuel rest Hf _. destruct fuel as [|f]; [lia|].
  change (json.print (json.Array l))
    with ("[" ++ json.join (map json.print l) ++ "]").
  cbn [String.append json.scanValue json.skipSpace].
  change (json.isSpace "[") with false. cbv iota.
  change (Ascii.eqb "[" "{") with false.
  change (Ascii.eqb "[" "[") with true. cbv iota.
  destruct l as [|v l]; [reflexivity|].
  rewrite append_assoc.
  pose proof (scanElements_print n (v :: l) ltac:(discriminate) Hall f rest
                ltac:(lia)) as He.
  assert (Hhead : exists c t,
             json.skipSpace (json.join (map json.print (v :: l))
                             ++ "]" ++ rest) = String c t
             /\ Ascii.eqb c "]" = false).
  { inversion Hall as [|? ? Hv _]; subst.
    destruct l as [|v' l'].
    - cbn [map json.join String.append]. eapply scanValue_head.
      apply (Hv n (String "]" rest)); [lia|reflexivity].
    - rewrite map_cons, join_cons by discriminate.
      rewrite !append_assoc. eapply scanValue_head.
      apply (Hv n); [lia|reflexivity]. }
  destruct Hhead as (c & t & Hsk & Hc).
  rewrite <- scanElements_skipSpace, Hsk in He.
  rewrite Hsk, Hc, He. reflexivity.
Qed.

Lemma scansSome_uniform l :
  Forall scansSome l -> exists n, Forall (scansWith n) l.
Proof.
  induction 1 as [|v l [m Hm] _ [n Hn]]; [now exists O|].
  exists (Nat.max m n). constructor.
  - eapply scansWith_le; [apply Nat.le_max_l|exact Hm].
  - eapply Forall_impl; [exact Hn|].
    intros x Hx. eapply scansWith_le; [apply Nat.le_max_r|exact Hx].
Qed.

Lemma scansSome_Array l : Forall scansSome l -> scansSome (json.Array l).
Proof.
  intros H. apply scansSome_uniform in H as [n Hn].
  eexists. apply scans_Array, Hn.
Qed.

Lemma scansSome_Object ms :
  Forall (fun kv => wellFormed (fst kv) /\ scansSome (snd kv)) ms ->
  scansSome (json.Object ms).
Proof.
  intros H.
  assert (Hu : exists n, Forall (fun kv => wellFormed (fst kv)
                                           /\ scansWith n (snd kv)) ms).
  { induction H as [|[k v] l [Hk [m Hm]] _ [n Hn]]; [now exists O|].
    exists (Nat.max m n). constructor.
    - split; [exact Hk|].
      eapply scansWith_le; [apply Nat.le_max_l|exact Hm].
    - eapply Forall_impl; [exact Hn|].
      intros x [Hx1 Hx2]. split; [exact Hx1|].
      eapply scansWith_le; [apply Nat.le_max_r|exact Hx2]. }
  destruct Hu as [n Hn]. eexists. apply scans_Object, Hn.
Qed.

(** The decoder reads back a value the scanner reads back, when its text
    does not start with white space. *)
Lemma readValue_print v :
  scansSome v ->
  json.readValue (json.print v) = inr (v, "").
Proof.
  intros [n Hn].
  pose proof (Hn n "" (le_n _) eq_refl) as Hs. rewrite append_nil_r in Hs.
  destruct (scanValue_head _ _ _ _ Hs) as (c & t & Hsk & _).
  unfold json.readValue. rewrite Hsk.
  assert (Hc : json.isSpace c = false).
  { pose proof (skipSpace_idem (json.print v)) as Hi. rewrite Hsk in Hi.
    cbn [json.skipSpace] in Hi.
    destruct (json.isSpace c); [|reflexivity].
    apply (f_equal String.length) in Hi.
    pose proof (skipSpace_length t). cbn [String.length] in Hi. lia. }
  rewrite <- scanValue_skipSpace, Hsk in Hs.
  pose proof (readValue_of_scan n c t v "" Hc Hs) as Hr.
  unfold json.readValue in Hr. cbn [json.skipSpace] in Hr.
  rewrite Hc in Hr. exact Hr.
Qed.

(** ** A list of devices, written and read *)

Lemma encodeElements_strings l :
  json.encodeElements json.encodeString l = inr (map json.Str l).
Proof. induction l as [|a l IH]; cbn; [reflexivity|]. now rewrite IH. Qed.

Lemma encodeDevice_value d : encodeDevice d = inr (deviceValue d).
Proof.
  unfold encodeDevice, json.encodeStruct, Device_encFields, json.encFieldOf.
  cbn [json.encodeFields json.omitEmpty json.isEmptyValue json.encode
       json.tag andb json.encodeString].
  unfold deviceValue, stringsValue, json.encodeSlice.
  destruct (Attachments d) as [l|]; [|reflexivity].
  now rewrite encodeElements_strings.
Qed.

Lemma encodeDevices_value l : encodeDevices l = inr (devicesValue l).
Proof.
  unfold encodeDevices, json.encodeSlice, devicesValue.
  destruct l as [ds|]; [|reflexivity].
  assert (H : json.encodeElements encodeDevice ds = inr (map deviceValue ds)).
  { induction ds as [|d ds IH]; cbn; [reflexivity|].
    now rewrite encodeDevice_value, IH. }
  now rewrite H.
Qed.

Lemma storeElements_exact {A} (st : json.value -> A -> json.Dec A)
      (zero : A) (val : A -> json.value) (l : list A) :
  (forall a old saved, st (val a) old saved = (a, saved)) ->
  forall old saved,
    json.storeElements st zero (map val l) old saved = (l, saved).
Proof.
  intros Hst. induction l as [|a l IH]; intros old saved; [reflexivity|].
  cbn [map json.storeElements]. unfold json.bind at 1. rewrite Hst.
  unfold json.bind at 1. rewrite IH. reflexivity.
Qed.

Lemma storeStrings_value a old saved :
  json.storeSlice T_string json.storeString "" (stringsValue a) old saved
  = (a, saved).
Proof.
  destruct a as [l|]; [|reflexivity].
  cbn [stringsValue json.storeSlice]. unfold json.bind.
  rewrite (storeElements_exact json.storeString "" json.Str l);
    [reflexivity|reflexivity].
Qed.

Lemma storeDevice_value d old saved :
  storeDevice (deviceValue d) old saved = (d, saved).
Proof.
  destruct d as [i n a]. unfold storeDevice, deviceValue.
  cbn -[json.storeSlice stringsValue].
  unfold json.bind, json.ret. cbn [ID Name Attachments].
  rewrite storeStrings_value. reflexivity.
Qed.

Lemma storeDevices_value l old saved :
  storeDevices (devicesValue l) old saved = (l, saved).
Proof.
  destruct l as [ds|]; [|reflexivity].
  unfold storeDevices. cbn [devicesValue json.storeSlice]. unfold json.bind.
  rewrite (storeElements_exact storeDevice Device_zero deviceValue ds
             storeDevice_value).
  reflexivity.
Qed.

Lemma scansSome_Str s : wellFormed s -> scansSome (json.Str s).
Proof. intros H. exists 1%nat. now apply scans_Str. Qed.

Lemma scansSome_strings a : goodStrings a -> scansSome (stringsValue a).
Proof.
  destruct a as [l|]; cbn [goodStrings stringsValue]; intros H.
  - apply scansSome_Array. apply Forall_map.
    eapply Forall_impl; [exact H|]. intros s Hs. now apply scansSome_Str.
  - exists 1%nat. apply scans_Null.
Qed.

Lemma scansSome_device d : goodDevice d -> scansSome (deviceValue d).
Proof.
  intros (Hi & Hn & Ha). apply scansSome_Object.
  repeat (apply List.Forall_cons;
          [split; [apply wellFormed_isASCII; reflexivity|]|]);
    [now apply scansSome_Str|now apply scansSome_Str
    |now apply scansSome_strings|apply List.Forall_nil].
Qed.

Lemma scansSome_devices l : goodDevices l -> scansSome (devicesValue l).
Proof.
  destruct l as [ds|]; cbn [goodDevices devicesValue]; intros H.
  - apply scansSome_Array. apply Forall_map.
    eapply Forall_impl; [exact H|]. intros d Hd. now apply scansSome_device.
  - exists 1%nat. apply scans_Null.
Qed.

(** ** What the decoder leaves in a list of devices *)

Lemma keeps_storeElements {A} (Q : A -> Prop)
      (st : json.value -> A -> json.Dec A) (zero : A) :
  keeps Q st -> Q zero ->
  forall elems old saved,
    Forall wfValue elems -> Forall Q old ->
    Forall Q (fst (json.storeElements st zero elems old saved)).
Proof.
  intros Hst Hz elems.
  induction elems as [|v vs IH]; intros old saved Hv Hold; [constructor|].
  inversion Hv as [|? ? Hv1 Hv2]; subst.
  cbn [json.storeElements]. unfold json.bind at 1.
  assert (Hhd : Q (hd zero old)) by (destruct Hold; assumption).
  assert (Htl : Forall Q (tl old)) by (destruct Hold; [constructor|assumption]).
  pose proof (Hst v (hd zero old) saved Hv1 Hhd) as Ha.
  destruct (st v (hd zero old) saved) as [a saved1]. cbn [fst] in Ha.
  unfold json.bind at 1.
  pose proof (IH (tl old) saved1 Hv2 Htl) as Hr.
  destruct (json.storeElements st zero vs (tl old) saved1) as [r saved2].
  cbn [fst] in *. now constructor.
Qed.

Lemma keeps_storeSlice {A} (Q : A -> Prop) ty
      (st : json.value -> A -> json.Dec A) (zero : A) :
  keeps Q st -> Q zero ->
  keeps (fun l => match l with Some x => Forall Q x | None => True end)
        (json.storeSlice ty st zero).
Proof.
  intros Hst Hz v old saved Hv Hold.
  destruct v; cbn; auto.
  unfold json.bind.
  pose proof (keeps_storeElements Q st zero Hst Hz elems (default [] old)
                saved) as H.
  destruct (json.storeElements st zero elems (default [] old) saved)
    as [l saved']. cbn [fst] in *.
  apply H; [now inversion Hv|]. destruct old; [exact Hold|constructor].
Qed.

Lemma keeps_Device : keeps goodDevice storeDevice.
Proof.
  apply keeps_storeStruct. unfold Device_fields.
  repeat apply List.Forall_cons; try apply List.Forall_nil.
  - apply (keeps_fieldOf goodDevice wellFormed); [| |apply keeps_storeString].
    + intros t (H & _). exact H.
    + intros a t Ha (_ & Hn & Hs). split; [|split]; assumption.
  - apply (keeps_fieldOf goodDevice wellFormed); [| |apply keeps_storeString].
    + intros t (_ & H & _). exact H.
    + intros a t Ha (Hi & _ & Hs). split; [|split]; assumption.
  - apply (keeps_fieldOf goodDevice goodStrings);
      [| |apply (keeps_storeSlice wellFormed);
          [apply keeps_storeString|apply wellFormed_nil]].
    + intros t (_ & _ & H). exact H.
    + intros a t Ha (Hi & Hn & _). split; [|split]; assumption.
Qed.

Lemma goodDevice_zero : goodDevice Device_zero.
Proof. repeat split; apply wellFormed_nil. Qed.

Lemma decodeDevices_good body :
  goodDevices (fst (decodeBytes storeDevices None body)).
Proof.
  unfold decodeBytes.
  destruct (json.readValue body) as [e|[v rest]] eqn:Hr; [exact I|].
  apply (keeps_storeSlice goodDevice T_Device storeDevice Device_zero
           keeps_Device goodDevice_zero);
    [eapply readValue_wf, Hr|exact I].
Qed.

Lemma ListDevices_Some c ctx w l err :
  fst (ListDevices c ctx w) = (Some l, err) ->
  exists req body,
    sends (ListDevices c ctx) w req
    /\ exchange (http_Client c) (requests w) req = inr (200, body)
    /\ decodeBytes storeDevices None body = (Some l, err).
Proof.
  intros H.
  destruct (readRequest c ctx (APIEndpoint c ++ "/devices")) as [e|req]
    eqn:Hr.
  { rewrite ListDevices_unfold, Hr in H. discriminate. }
  pose proof (ListDevices_sent c ctx w req Hr) as Hs.
  destruct (exchange (http_Client c) (requests w) req) as [e|[code body]]
    eqn:Hex.
  { destruct (answer_failure c w req e Hex) as [Ha Hd].
    apply ListDevices_sends in Hs as [_ Hg]. rewrite Hg, Ha in H.
    discriminate. }
  destruct (Z.eq_dec code 200) as [->|Hne].
  - exists req, body. split; [exact Hs|]. split; [exact Hex|].
    now rewrite (ListDevices_OK _ _ _ _ _ Hs Hex) in H.
  - apply ListDevices_sends in Hs as [_ Hg].
    rewrite Hg, (answer_status _ _ _ _ _ Hex) in H. simpl in H.
    rewrite (not_OK _ Hne) in H. discriminate.
Qed.

(** X9: Whatever bytes the server sends, every string of the devices that
    [ListDevices] returns, identifiers, names and attachments, is
    well-formed UTF-8. *)
Theorem ListDevices_strings_are_well_formed
  (c : Client) (ctx : Context) (w : World) (l : list Device)
  (err : option error) :
  fst (ListDevices c ctx w) = (Some l, err) -> Forall goodDevice l.
Proof.
  intros H. apply ListDevices_Some in H as (req & body & _ & _ & Hd).
  pose proof (decodeDevices_good body) as Hg. now rewrite Hd in Hg.
Qed.

Lemma ListDevices_strings_are_well_formed_witness :
  Forall goodDevice
    [{| ID := "d1"; Name := "Dock";
        Attachments := Some ["CHILIPAD_PRO_ME"] |};
     {| ID := "d2"; Name := ""; Attachments := None |}].
Proof.
  apply (ListDevices_strings_are_well_formed (exampleClient 200 twoDevices)
           Background emptyWorld _ None).
  reflexivity.
Defined.

(** X10: The list [ListDevices] returns for a 200 response round-trips through
    its serialization: it is serialized without an error to [null] for a
    nil slice and else to the array of the objects of its devices, each
    with its [id], [name] and [attachments]; the decoder reads that text
    back, and [ListDevices] on a response with that text returns the same
    list, and no error. *)
Theorem ListDevices_round_trips
  (c : Client) (ctx : Context) (w : World) (req : Request)
  (body : string) (l : option (list Device)) (err : option error) :
  sends (ListDevices c ctx) w req ->
  exchange (http_Client c) (requests w) req = inr (200, body) ->
  fst (ListDevices c ctx w) = (l, err) ->
  exists text,
    json.Marshal (encodeDevices l) = inr text
    /\ json.readValue text = inr (devicesValue l, "")
    /\ forall c' ctx' w' req',
         sends (ListDevices c' ctx') w' req' ->
         exchange (http_Client c') (requests w') req' = inr (200, text) ->
         fst (ListDevices c' ctx' w') = (l, None).
Proof.
  intros Hs Hex Hl.
  rewrite (ListDevices_OK _ _ _ _ _ Hs Hex) in Hl.
  pose proof (decodeDevices_good body) as Hg. rewrite Hl in Hg.
  cbn [fst] in Hg.
  pose proof (readValue_print _ (scansSome_devices l Hg)) as Hr.
  exists (json.print (devicesValue l)).
  split; [now rewrite encodeDevices_value|]. split; [exact Hr|].
  intros c' ctx' w' req' Hs' Hex'.
  rewrite (ListDevices_OK _ _ _ _ _ Hs' Hex').
  unfold decodeBytes. rewrite Hr. apply storeDevices_value.
Qed.

Lemma ListDevices_round_trips_witness :
  exists text,
    json.Marshal
      (encodeDevices
         (Some [{| ID := "d1"; Name := "Dock";
                   Attachments := Some ["CHILIPAD_PRO_ME"] |};
                {| ID := "d2"; Name := ""; Attachments := None |}]))
    = inr text
    /\ json.readValue text
       = inr (devicesValue
                (Some [{| ID := "d1"; Name := "Dock";
                          Attachments := Some ["CHILIPAD_PRO_ME"] |};
                       {| ID := "d2"; Name := ""; Attachments := None |}]),
              "")
    /\ forall c' ctx' w' req',
         sends (ListDevices c' ctx') w' req' ->
         exchange (http_Client c') (requests w') req' = inr (200, text) ->
         fst (ListDevices c' ctx' w')
         = (Some [{| ID := "d1"; Name := "Dock";
                     Attachments := Some ["CHILIPAD_PRO_ME"] |};
                  {| ID := "d2"; Name := ""; Attachments := None |}], None).
Proof.
  eapply (ListDevices_round_trips (exampleClient 200 twoDevices) Background
            emptyWorld _ twoDevices _ None); reflexivity.
Defined.

(** * The body of [Update], read as JSON *)

(** ** Any string: what [appendString] writes, [unquote] reads *)

Lemma substring_cons n c s :
  String.substring 0 (S n) (String c s) = String c (String.substring 0 n s).
Proof. reflexivity. Qed.

(** A sequence of two bytes or more is decoded from its own bytes,
    whatever follows them. *)
Lemma DecodeRune_prefix c r rr size X :
  utf8.DecodeRune c r = (rr, size) -> size <> 1%nat ->
  String.length (String.substring 0 (size - 1) r) = (size - 1)%nat
  /\ utf8.DecodeRune c (String.substring 0 (size - 1) r ++ X) = (rr, size).
Proof.
  unfold utf8.DecodeRune.
  destruct (_ <? _)%N; [intros [= <- <-]; congruence|].
  destruct (utf8.lead c) as [[[sz lo] hi]|]; [|intros [= <- <-]; congruence].
  destruct r as [|b1 [|b2 [|b3 [|b4 r4]]]];
    destruct sz as [|[|[|[|sz]]]];
    try destruct (negb (bytes.between lo hi b1)) eqn:H1;
    try destruct (negb (utf8.isCont b2)) eqn:H2;
    try destruct (negb (utf8.isCont b3)) eqn:H3;
    intros [= <- <-] Hne; try congruence;
    cbn; rewrite ?H1, ?H2, ?H3; auto.
Qed.

Lemma DecodeRune_size c r rr size :
  utf8.DecodeRune c r = (rr, size) -> (1 <= size)%nat.
Proof.
  unfold utf8.DecodeRune.
  repeat match goal with
         | |- context [if ?b then _ else _] => destruct b
         | |- context [match ?x with _ => _ end] => destruct x
         end; intros [= <- <-]; lia.
Qed.

Lemma string_literal s : forall skip rest,
  json.unquoteFrom 0 (json.appendFrom skip s ++ String bytes.dquote rest)
  = json.Scanned (validFrom skip s) rest.
Proof.
  induction s as [|c r IH]; intros skip rest; [reflexivity|].
  cbn [json.appendFrom validFrom].
  destruct skip as [|k]; [|apply IH].
  destruct (bytes.code c <? utf8.RuneSelf)%N eqn:Hc.
  { rewrite append_assoc, ascii_literal by (now apply N.ltb_lt).
    now rewrite IH. }
  apply N.ltb_ge in Hc. destruct (high_byte c Hc) as (H1 & H2 & H3 & H4).
  destruct (utf8.DecodeRune c r) as [rr size] eqn:Hd.
  pose proof (DecodeRune_size _ _ _ _ Hd) as Hsz.
  destruct (N.eqb rr utf8.RuneError && Nat.eqb size 1) eqn:Herr.
  { apply andb_true_iff in Herr as [Hr Hs].
    apply N.eqb_eq in Hr. apply Nat.eqb_eq in Hs. subst rr size.
    cbn [Nat.sub]. rewrite append_assoc.
    change (json.unquoteFrom 0
              ("\ufffd" ++ json.appendFrom 0 r ++ String bytes.dquote rest))
      with (json.scan_map (append (utf8.EncodeRune utf8.RuneError))
              (json.unquoteFrom 0
                 (json.appendFrom 0 r ++ String bytes.dquote rest))).
    now rewrite IH. }
  destruct (N.eqb rr 8232 || N.eqb rr 8233) eqn:Hls.
  { rewrite !append_assoc.
    apply orb_true_iff in Hls as [Hr|Hr]; apply N.eqb_eq in Hr; subst rr.
    - change (json.unquoteFrom 0
                ("\u202" ++ String (json.hexLower (N.land 8232 15)) ""
                 ++ json.appendFrom (size - 1) r ++ String bytes.dquote rest))
        with (json.scan_map (append (utf8.EncodeRune 8232))
                (json.unquoteFrom 0
                   (json.appendFrom (size - 1) r
                    ++ String bytes.dquote rest))).
      now rewrite IH.
    - change (json.unquoteFrom 0
                ("\u202" ++ String (json.hexLower (N.land 8233 15)) ""
                 ++ json.appendFrom (size - 1) r ++ String bytes.dquote rest))
        with (json.scan_map (append (utf8.EncodeRune 8233))
                (json.unquoteFrom 0
                   (json.appendFrom (size - 1) r
                    ++ String bytes.dquote rest))).
      now rewrite IH. }
  assert (Hbig : size <> 1%nat).
  { intros ->. unfold utf8.DecodeRune in Hd.
    apply N.ltb_ge in Hc. rewrite Hc in Hd.
    assert (rr = utf8.RuneError).
    { revert Hd.
      repeat match goal with
             | |- context [if ?b then _ else _] => destruct b
             | |- context [match ?x with _ => _ end] => destruct x
             end; intros [= <-]; try reflexivity; discriminate. }
    subst rr. discriminate Herr. }
  destruct size as [|n]; [lia|].
  rewrite substring_cons.
  replace (S n - 1)%nat with n in * by lia.
  destruct (DecodeRune_prefix c r rr (S n)
              (json.appendFrom n r ++ String bytes.dquote rest) Hd Hbig)
    as [Hlen Hpre].
  replace (S n - 1)%nat with n in * by lia.
  rewrite append_assoc. cbn [String.append json.unquoteFrom].
  rewrite H2, H3, H4, H1, ?append_assoc, Hpre.
  replace (S n - 1)%nat with n by lia.
  rewrite <- Hlen at 1. rewrite unquoteFrom_skip, IH. reflexivity.
Qed.

Lemma toValid_wellFormed s : wellFormed s -> toValid s = s.
Proof.
  intros H.
  pose proof (string_literal s 0 "") as H1.
  pose proof (scanString_appendString s "" H) as H2.
  unfold json.scanString in H2. rewrite H1 in H2. now injection H2.
Qed.

(** ** The object of a request *)

Lemma scansTo_Str s : scansTo 1 (json.Str s) (json.Str (toValid s)).
Proof.
  intros fuel rest Hf _. destruct fuel as [|f]; [lia|].
  cbn [json.print]. unfold json.appendString.
  cbn [String.append json.scanValue json.skipSpace].
  change (json.isSpace bytes.dquote) with false. cbv iota.
  change (Ascii.eqb bytes.dquote "{") with false.
  change (Ascii.eqb bytes.dquote "[") with false.
  change (Ascii.eqb bytes.dquote bytes.dquote) with true. cbv iota.
  rewrite append_assoc. cbn [String.append]. unfold json.scanString.
  now rewrite string_literal.
Qed.

Lemma scanMembers_to n ms :
  ms <> [] ->
  Forall (fun kv => scansTo n (snd kv) (readBack (snd kv))) ms ->
  forall fuel rest, (n + length ms <= fuel)%nat ->
    json.scanMembers fuel (json.join (map memberText ms) ++ "}" ++ rest)
    = json.Scanned (map readBackMember ms) rest.
Proof.
  induction ms as [|[k v] ms IH]; [congruence|].
  intros _ Hall fuel rest Hf.
  inversion Hall as [|? ? Hv Hall']; subst. cbn [fst snd] in *.
  cbn [length] in Hf. destruct fuel as [|f]; [lia|].
  destruct ms as [|kv' ms'].
  - cbn [map json.join]. rewrite memberText_head. cbn [fst snd String.append].
    cbn [json.scanMembers].
    change (negb (Ascii.eqb bytes.dquote bytes.dquote)) with false. cbv iota.
    rewrite !append_assoc. cbn [String.append]. unfold json.scanString.
    rewrite string_literal.
    cbn [json.skipSpace]. change (json.isSpace ":") with false. cbv iota.
    change (negb (Ascii.eqb ":" ":")) with false. cbv iota.
    rewrite ?append_assoc.
    rewrite (Hv f (String "}" rest)); [|lia|reflexivity].
    reflexivity.
  - rewrite map_cons, join_cons by discriminate.
    rewrite memberText_head. cbn [fst snd String.append].
    cbn [json.scanMembers].
    change (negb (Ascii.eqb bytes.dquote bytes.dquote)) with false. cbv iota.
    rewrite !append_assoc. cbn [String.append]. unfold json.scanString.
    rewrite string_literal.
    cbn [json.skipSpace]. change (json.isSpace ":") with false. cbv iota.
    change (negb (Ascii.eqb ":" ":")) with false. cbv iota.
    rewrite ?append_assoc. cbn [String.append].
    rewrite (Hv f _); [|lia|reflexivity].
    cbn [json.skipSpace]. change (json.isSpace ",") with false. cbv iota.
    change (Ascii.eqb "," ",") with true. cbv iota.
    assert (Hsk : forall X, json.skipSpace
                    (json.join (map memberText (kv' :: ms')) ++ X)
                  = json.join (map memberText (kv' :: ms')) ++ X).
    { intros X. cbn [map]. destruct ms'; cbn [json.join map];
        rewrite memberText_head; reflexivity. }
    rewrite Hsk.
    change (String "}" rest) with ("}" ++ rest).
    rewrite IH; [reflexivity|discriminate|exact Hall'|cbn [length] in *; lia].
Qed.

Lemma scansTo_Object n ms :
  Forall (fun kv => scansTo n (snd kv) (readBack (snd kv))) ms ->
  scansTo (n + length ms + 1) (json.Object ms)
          (json.Object (map readBackMember ms)).
Proof.
  intros Hall fuel rest Hf _. destruct fuel as [|f]; [lia|].
  rewrite print_Object. cbn [String.append json.scanValue json.skipSpace].
  change (json.isSpace "{") with false. cbv iota.
  change (Ascii.eqb "{" "{") with true. cbv iota.
  destruct ms as [|kv ms]; [reflexivity|].
  rewrite append_assoc.
  pose proof (scanMembers_to n (kv :: ms) ltac:(discriminate) Hall f rest
                ltac:(lia)) as Hm.
  assert (Hhead : exists X, json.join (map memberText (kv :: ms))
                              ++ "}" ++ rest
                            = String bytes.dquote X).
  { cbn [map]. destruct ms; cbn [json.join map];
      rewrite memberText_head; cbn [String.append]; eauto. }
  destruct Hhead as [X HX]. rewrite HX in *.
  cbn [json.skipSpace]. change (json.isSpace bytes.dquote) with false.
  cbv iota. change (Ascii.eqb bytes.dquote "}") with false. cbv iota.
  now rewrite Hm.
Qed.

Lemma scannedWhole_spec lit :
  scannedWhole lit = true -> json.scanNumber lit = json.Scanned lit "".
Proof.
  unfold scannedWhole.
  destruct (json.scanNumber lit) as [x [|? ?]| | |]; try discriminate.
  intros H. apply String.eqb_eq in H. now subst.
Qed.

Lemma scansTo_float f :
  scannedWhole (json.floatText f) = true ->
  scansTo 1 (json.Number (json.floatText f))
          (readBack (json.Number (json.floatText f))).
Proof. intros H. apply scans_Number, scannedWhole_spec, H. Qed.

Lemma sparseObject_scans r :
  numberText (UpdateRequest.SetTemperatureF r) ->
  numberText (UpdateRequest.SetTemperatureC r) ->
  Forall (fun kv => scansTo 1 (snd kv) (readBack (snd kv))) (sparseObject r).
Proof.
  destruct r as [a f g d t]. unfold sparseObject, numberText.
  cbn [UpdateRequest.ThermalControlStatus UpdateRequest.SetTemperatureF
       UpdateRequest.SetTemperatureC UpdateRequest.DisplayTemperatureUnit
       UpdateRequest.TimeZone].
  intros Hf Hg.
  repeat apply Forall_app_2.
  - destruct a; cbn; repeat constructor. apply scansTo_Str.
  - destruct f; cbn; repeat constructor. apply scansTo_float, Hf.
  - destruct g; cbn; repeat constructor. apply scansTo_float, Hg.
  - destruct d; cbn; repeat constructor. apply scansTo_Str.
  - destruct t; cbn; repeat constructor. apply scansTo_Str.
Qed.

Lemma sparseObject_keys r :
  map readBackMember (sparseObject r)
  = map (fun kv => (fst kv, readBack (snd kv))) (sparseObject r).
Proof.
  destruct r as [[a|] [f|] [g|] [d|] [t|]]; reflexivity.
Qed.

Lemma sparseObject_same r :
  textOK (UpdateRequest.ThermalControlStatus r) ->
  textOK (UpdateRequest.DisplayTemperatureUnit r) ->
  textOK (UpdateRequest.TimeZone r) ->
  map (fun kv => (fst kv, readBack (snd kv))) (sparseObject r)
  = sparseObject r.
Proof.
  destruct r as [a f g d t]. unfold sparseObject, textOK.
  cbn [UpdateRequest.ThermalControlStatus UpdateRequest.SetTemperatureF
       UpdateRequest.SetTemperatureC UpdateRequest.DisplayTemperatureUnit
       UpdateRequest.TimeZone].
  intros Ha Hd Ht.
  rewrite !map_app.
  destruct a as [a|], f as [f|], g as [g|], d as [d|], t as [t|];
    cbn [member fmap option_fmap option_map map fst snd readBack];
    rewrite ?(toValid_wellFormed a Ha), ?(toValid_wellFormed d Hd),
      ?(toValid_wellFormed t Ht);
    reflexivity.
Qed.

(** X11: The body [Update] sends is one complete JSON value and a line feed:
    for every request whose temperatures, where set, are written as
    numbers of JSON, a reader takes from the body the object of the
    fields that are set, each string with U+FFFD for the bytes that are no
    UTF-8, and is left with the line feed; when the strings are
    well-formed UTF-8 the object read is the object written. *)
Theorem Update_body_is_JSON
  (r : UpdateRequest.t) (c : Client) (ctx : Context) (deviceID : string)
  (w : World) (req : Request) :
  numberText (UpdateRequest.SetTemperatureF r) ->
  numberText (UpdateRequest.SetTemperatureC r) ->
  sends (Update c ctx deviceID r) w req ->
  exists bs,
    Body req = Some bs
    /\ json.readValue bs
       = inr (json.Object
                (map (fun kv => (fst kv, readBack (snd kv)))
                     (sparseObject r)),
              String bytes.LF "")
    /\ (textOK (UpdateRequest.ThermalControlStatus r) ->
        textOK (UpdateRequest.DisplayTemperatureUnit r) ->
        textOK (UpdateRequest.TimeZone r) ->
        json.readValue bs
        = inr (json.Object (sparseObject r), String bytes.LF "")).
Proof.
  intros Hf Hg Hs.
  apply Update_sends in Hs as (bs & Hbs & Hw & _).
  apply writeRequest_extent in Hw as (_ & _ & Hb & _).
  exists bs. split; [exact Hb|].
  assert (Hnum : isNumber (UpdateRequest.SetTemperatureF r)
                 /\ isNumber (UpdateRequest.SetTemperatureC r)).
  { unfold isNumber, numberText in *.
    destruct (UpdateRequest.SetTemperatureF r),
      (UpdateRequest.SetTemperatureC r); tauto. }
  destruct Hnum as [Hnf Hng].
  rewrite (encodeUpdateRequest_sparse r Hnf Hng) in Hbs.
  cbn [json.Encode] in Hbs. injection Hbs as <-.
  pose proof (scansTo_Object 1 (sparseObject r) (sparseObject_scans r Hf Hg))
    as Hsc.
  rewrite sparseObject_keys in Hsc.
  assert (Hr : json.readValue
                 (json.print (json.Object (sparseObject r))
                  ++ String bytes.LF "")
               = inr (json.Object
                        (map (fun kv => (fst kv, readBack (snd kv)))
                             (sparseObject r)),
                      String bytes.LF "")).
  { specialize (Hsc _ (String bytes.LF "") (le_n _) eq_refl).
    rewrite print_Object in *. cbn [String.append] in *.
    eapply readValue_of_scan; [reflexivity|exact Hsc]. }
  split; [exact Hr|].
  intros Ha Hd Ht. now rewrite (sparseObject_same r Ha Hd Ht) in Hr.
Qed.

Lemma Update_body_is_JSON_witness :
  exists req bs,
    sends (Update (exampleClient 200 "") Background "d1" illFormedUpdate)
          emptyWorld req
    /\ Body req = Some bs
    /\ json.readValue bs
       = inr (json.Object
                [("thermal_control_status", json.Str "active");
                 ("set_temperature_f", json.Number "72");
                 ("time_zone",
                  json.Str ("UTC" ++ String "239" (String "191"
                                       (String "189" ""))))],
              String bytes.LF "").
Proof.
  eexists.
  edestruct (fun req H =>
    Update_body_is_JSON illFormedUpdate (exampleClient 200 "") Background
      "d1" emptyWorld req (conj eq_refl (conj eq_refl eq_refl)) I H)
    as (bs & Hb & Hr & _); [reflexivity|].
  exists bs. split; [reflexivity|]. split; [exact Hb|exact Hr].
Defined.

(** * Members the types do not have *)















(** * Which member reaches which field *)

Lemma find_name {T} (fields : list (json.field T)) (p : string -> bool) f :
  List.find (fun f => p (json.name f)) fields = Some f ->
  In f fields /\ p (json.name f) = true.
Proof. apply List.find_some. Qed.













(** * Bytes after the first value *)

(** ** Numbers *)

Lemma digits_cut s : forall d r junk,
  cutOff r junk -> json.digits s = (d, r) ->
  json.digits (s ++ junk) = (d, r ++ junk).
Proof.
  induction s as [|c s IH]; intros d r junk Hcut H.
  - injection H as <- <-. destruct Hcut as [Hr|Hj]; [congruence|].
    exact (digits_app "" "" "" junk Hj eq_refl).
  - cbn [String.append json.digits] in *.
    destruct (bytes.isDigit c).
    + destruct (json.digits s) as [d' r'] eqn:Hd.
      injection H as <- <-. now rewrite (IH d' r' junk Hcut eq_refl).
    + injection H as <- <-. reflexivity.
Qed.

Lemma digits1_cut ctx s d r junk :
  cutOff r junk -> json.digits1 ctx s = json.Scanned d r ->
  json.digits1 ctx (s ++ junk) = json.Scanned d (r ++ junk).
Proof.
  intros Hcut H. destruct s as [|c s]; [discriminate|].
  unfold json.digits1 in *. cbn [String.append].
  destruct (bytes.isDigit c) eqn:Hc; [|discriminate].
  destruct (json.digits (String c s)) as [d' r'] eqn:Hd.
  injection H as <- <-.
  change (String c (s ++ junk)) with (String c s ++ junk).
  now rewrite (digits_cut _ _ _ junk Hcut Hd).
Qed.

Lemma cutOff_before {A} s r junk (x : json.scan A) a :
  shrinks_le s x -> x = json.Scanned a r -> cutOff r junk -> cutOff s junk.
Proof.
  intros Hs -> [Hr|Hj]; [left|now right].
  cbn in Hs. destruct s; [|discriminate]. destruct r; [congruence|].
  cbn in Hs. lia.
Qed.

Lemma scanExponent_cut s x r junk :
  cutOff r junk -> json.scanExponent s = json.Scanned x r ->
  json.scanExponent (s ++ junk) = json.Scanned x (r ++ junk).
Proof.
  intros Hcut H. destruct s as [|e s].
  - injection H as <- <-. destruct Hcut as [Hr|Hj]; [congruence|].
    exact (scanExponent_app "" "" "" junk Hj eq_refl).
  - unfold json.scanExponent in *. cbn [String.append].
    destruct (_ || _); [|injection H as <- <-; reflexivity].
    destruct s as [|sg s1]; [discriminate|]. cbn [String.append].
    destruct (_ || _).
    + apply scan_map_app in H as (d & H & ->).
      now rewrite (digits1_cut _ _ _ _ junk Hcut H).
    + apply scan_map_app in H as (d & H & ->).
      change (String sg (s1 ++ junk)) with (String sg s1 ++ junk).
      now rewrite (digits1_cut _ _ _ _ junk Hcut H).
Qed.

Lemma scanFraction_cut s x r junk :
  cutOff r junk -> json.scanFraction s = json.Scanned x r ->
  json.scanFraction (s ++ junk) = json.Scanned x (r ++ junk).
Proof.
  intros Hcut H. destruct s as [|p s].
  - injection H as <- <-. destruct Hcut as [Hr|Hj]; [congruence|].
    exact (scanFraction_app "" "" "" junk Hj eq_refl).
  - unfold json.scanFraction in *. cbn [String.append].
    destruct (Ascii.eqb p ".").
    + destruct (json.digits1 _ s) as [d r1| | |] eqn:Hd; try discriminate.
      apply scan_map_app in H as (e & H & ->).
      pose proof (cutOff_before r1 r junk _ e (scanExponent_shrinks r1) H Hcut)
        as Hcut1.
      rewrite (digits1_cut _ _ _ _ junk Hcut1 Hd).
      now rewrite (scanExponent_cut _ _ _ junk Hcut H).
    + change (String p (s ++ junk)) with (String p s ++ junk).
      now apply scanExponent_cut.
Qed.

Lemma scanUnsigned_cut s x r junk :
  cutOff r junk -> json.scanUnsigned s = json.Scanned x r ->
  json.scanUnsigned (s ++ junk) = json.Scanned x (r ++ junk).
Proof.
  intros Hcut H. destruct s as [|c s]; [discriminate|].
  unfold json.scanUnsigned in *. cbn [String.append].
  destruct (Ascii.eqb c "0").
  - apply scan_map_app in H as (e & H & ->).
    now rewrite (scanFraction_cut _ _ _ junk Hcut H).
  - destruct (bytes.isDigit c); [|discriminate].
    destruct (json.digits s) as [d r1] eqn:Hd.
    apply scan_map_app in H as (e & H & ->).
    pose proof (cutOff_before r1 r junk _ e (scanFraction_shrinks r1) H Hcut)
      as Hcut1.
    rewrite (digits_cut _ _ _ junk Hcut1 Hd).
    now rewrite (scanFraction_cut _ _ _ junk Hcut H).
Qed.

Lemma scanNumber_cut s x r junk :
  cutOff r junk -> json.scanNumber s = json.Scanned x r ->
  json.scanNumber (s ++ junk) = json.Scanned x (r ++ junk).
Proof.
  intros Hcut H. destruct s as [|c s]; [discriminate|].
  unfold json.scanNumber in *. cbn [String.append].
  destruct (Ascii.eqb c "-").
  - apply scan_map_app in H as (e & H & ->).
    now rewrite (scanUnsigned_cut _ _ _ junk Hcut H).
  - change (String c (s ++ junk)) with (String c s ++ junk).
    now apply scanUnsigned_cut.
Qed.

(** ** Literals and white space *)

Lemma expect_junk lit name : forall s r junk,
  json.expect lit name s = json.Scanned tt r ->
  json.expect lit name (s ++ junk) = json.Scanned tt (r ++ junk).
Proof.
  induction lit as [|l lit IH]; intros s r junk H.
  - cbn in *. now injection H as <-.
  - cbn [json.expect] in *. destruct s as [|c s]; [discriminate|].
    cbn [String.append]. destruct (Ascii.eqb c l); [|discriminate].
    now apply IH.
Qed.

Lemma skipSpace_junk s c r junk :
  json.skipSpace s = String c r ->
  json.skipSpace (s ++ junk) = String c (r ++ junk).
Proof.
  induction s as [|c0 s IH]; [discriminate|].
  cbn [json.skipSpace String.append].
  destruct (json.isSpace c0); [exact IH|]. now intros [= <- <-].
Qed.

(** ** Strings *)

(** A byte of a sequence, not its first, starts no sequence. *)
Lemma lead_range c sz lo hi :
  utf8.lead c = Some (sz, lo, hi) -> (128 <= lo)%N /\ (hi <= 191)%N.
Proof.
  unfold utf8.lead.
  repeat match goal with
         | |- context [if ?b then _ else _] => destruct b
         end; intros [= <- <- <-]; lia.
Qed.

Lemma between_code lo hi b :
  bytes.between lo hi b = true -> (lo <= bytes.code b <= hi)%N.
Proof.
  unfold bytes.between. intros H. apply andb_true_iff in H as [H1 H2].
  apply N.leb_le in H1, H2. lia.
Qed.

Lemma tail_byte b :
  (128 <= bytes.code b <= 191)%N ->
  forall r, utf8.DecodeRune b r = (utf8.RuneError, 1%nat).
Proof.
  intros Hb r. unfold utf8.DecodeRune, utf8.lead, utf8.RuneSelf.
  replace (bytes.code b <? 128)%N with false
    by (symmetry; apply N.ltb_ge; lia).
  replace (bytes.code b <? 194)%N with true
    by (symmetry; apply N.ltb_lt; lia).
  reflexivity.
Qed.

Lemma unquote_tail_bytes b r :
  (128 <= bytes.code b <= 191)%N ->
  json.unquoteFrom 0 (String b r)
  = json.scan_map (append (utf8.EncodeRune utf8.RuneError))
      (json.unquoteFrom 0 r).
Proof.
  intros Hb. cbn [json.unquoteFrom].
  destruct (high_byte b) as (H1 & H2 & H3 & H4); [lia|].
  rewrite H2, H3, H4, H1, (tail_byte b Hb). reflexivity.
Qed.

(** The rune at the head of a text that holds a closing quote is the
    rune at the head of the text with anything after it. *)
Lemma DecodeRune_junk c r rr size x rest junk :
  (128 <= bytes.code c)%N ->
  utf8.DecodeRune c r = (rr, size) ->
  json.unquoteFrom (size - 1) r = json.Scanned x rest ->
  utf8.DecodeRune c (r ++ junk) = (rr, size).
Proof.
  intros Hc Hd Hu.
  destruct (Nat.eq_dec size 1%nat) as [->|Hne];
    [|now apply DecodeRune_app].
  cbn [Nat.sub] in Hu.
  unfold utf8.DecodeRune in *.
  destruct (_ <? _)%N; [exact Hd|].
  destruct (utf8.lead c) as [[[sz lo] hi]|] eqn:Hl; [|exact Hd].
  apply lead_range in Hl as [Hlo Hhi].
  destruct r as [|b1 r1]; [discriminate Hu|]. cbn [String.append].
  destruct (negb (bytes.between lo hi b1)) eqn:H1; [exact Hd|].
  apply negb_false_iff, between_code in H1.
  assert (Hb1 : (128 <= bytes.code b1 <= 191)%N) by lia.
  rewrite (unquote_tail_bytes b1 r1 Hb1) in Hu.
  apply scan_map_app in Hu as (x1 & Hu & _).
  destruct sz as [|[|[|sz]]]; try discriminate Hd.
  all: destruct r1 as [|b2 r2]; [discriminate Hu|]; cbn [String.append];
    destruct (negb (utf8.isCont b2)) eqn:H2; [exact Hd|];
    apply negb_false_iff in H2; unfold utf8.isCont in H2;
    apply between_code in H2;
    rewrite (unquote_tail_bytes b2 r2 H2) in Hu;
    apply scan_map_app in Hu as (x2 & Hu & _).
  all: try (destruct sz as [|sz]); try discriminate Hd.
  all: destruct r2 as [|b3 r3]; [discriminate Hu|]; cbn [String.append];
    destruct (negb (utf8.isCont b3)); [exact Hd|discriminate Hd].
Qed.

Lemma getu4_Some s rr :
  json.getu4 s = Some rr ->
  exists h1 h2 h3 h4 t,
    s = String "\" (String "u" (String h1 (String h2
          (String h3 (String h4 t)))))
    /\ bytes.ishex h1 = true /\ bytes.ishex h2 = true
    /\ bytes.ishex h3 = true /\ bytes.ishex h4 = true.
Proof.
  destruct s as [|b [|u [|h1 [|h2 [|h3 [|h4 t]]]]]]; try discriminate.
  cbn [json.getu4].
  destruct (Ascii.eqb_spec b "\") as [->|]; [|discriminate].
  destruct (Ascii.eqb_spec u "u") as [->|]; [|discriminate].
  destruct (bytes.ishex h1) eqn:X1; [|discriminate].
  destruct (bytes.ishex h2) eqn:X2; [|discriminate].
  destruct (bytes.ishex h3) eqn:X3; [|discriminate].
  destruct (bytes.ishex h4) eqn:X4; [|discriminate].
  intros _. exists h1, h2, h3, h4, t. repeat split; assumption.
Qed.

Lemma getu4_Some_app s rr junk :
  json.getu4 s = Some rr -> json.getu4 (s ++ junk) = Some rr.
Proof.
  destruct s as [|b [|u [|h1 [|h2 [|h3 [|h4 t]]]]]]; try discriminate.
  exact (fun H => H).
Qed.

(** A text that ends inside a [\u] escape holds no closing quote. *)
Lemma getu4_junk r5 junk x rest :
  json.unquoteFrom 0 r5 = json.Scanned x rest ->
  json.getu4 (r5 ++ junk) = json.getu4 r5.
Proof.
  intros Hu.
  destruct (json.getu4 r5) as [rr|] eqn:Hg;
    [now apply getu4_Some_app|].
  destruct (json.getu4 (r5 ++ junk)) as [rr|] eqn:Hj; [exfalso|reflexivity].
  apply getu4_Some in Hj as (h1 & h2 & h3 & h4 & t & E & X1 & X2 & X3 & X4).
  destruct r5 as [|b [|u [|k1 [|k2 [|k3 [|k4 r6]]]]]];
    cbn [String.append] in E; try discriminate Hu.
  - injection E as -> E. cbn in Hu. discriminate.
  - injection E as -> -> E. cbn in Hu. discriminate.
  - injection E as -> -> -> E. cbn in Hu. rewrite X1 in Hu. discriminate.
  - injection E as -> -> -> -> E. cbn in Hu. rewrite X1, X2 in Hu.
    discriminate.
  - injection E as -> -> -> -> -> E. cbn in Hu. rewrite X1, X2, X3 in Hu.
    discriminate.
  - injection E as -> -> -> -> -> -> E.
    cbn [json.getu4] in Hg.
    change (Ascii.eqb "\" "\") with true in Hg.
    change (Ascii.eqb "u" "u") with true in Hg.
    rewrite X1, X2, X3, X4 in Hg. discriminate.
Qed.

Lemma escapeAt_junk r t n x rest junk :
  json.escapeAt r = json.EscText t n ->
  json.unquoteFrom n r = json.Scanned x rest ->
  json.escapeAt (r ++ junk) = json.EscText t n.
Proof.
  unfold json.escapeAt. intros He Hu.
  destruct r as [|e r1]; [discriminate|]. cbn [String.append].
  destruct (_ || _); [exact He|].
  repeat match type of He with
         | (if Ascii.eqb e ?c then json.EscText _ _ else _) = _ =>
             destruct (Ascii.eqb e c); [exact He|]
         end.
  destruct (Ascii.eqb e "u"); [|discriminate].
  destruct r1 as [|h1 r2]; [discriminate|]. cbn [String.append].
  destruct (negb (bytes.ishex h1)); [discriminate|].
  destruct r2 as [|h2 r3]; [discriminate|]. cbn [String.append].
  destruct (negb (bytes.ishex h2)); [discriminate|].
  destruct r3 as [|h3 r4]; [discriminate|]. cbn [String.append].
  destruct (negb (bytes.ishex h3)); [discriminate|].
  destruct r4 as [|h4 r5]; [discriminate|]. cbn [String.append].
  destruct (negb (bytes.ishex h4)); [discriminate|].
  cbv zeta in *.
  destruct (utf16.IsSurrogate _); [|exact He].
  destruct (json.getu4 r5) as [rr1|] eqn:Hg.
  - now rewrite (getu4_Some_app r5 rr1 junk Hg).
  - injection He as <- <-. cbn [json.unquoteFrom] in Hu.
    now rewrite (getu4_junk r5 junk x rest Hu), Hg.
Qed.

(** A literal is read from its text the same, whatever follows its
    closing quote. *)
Lemma unquoteFrom_junk s : forall skip x rest junk,
  json.unquoteFrom skip s = json.Scanned x rest ->
  json.unquoteFrom skip (s ++ junk) = json.Scanned x (rest ++ junk).
Proof.
  induction s as [|c r IH]; intros skip x rest junk H; [discriminate|].
  cbn [String.append json.unquoteFrom] in *.
  destruct skip as [|k]; [|now apply IH].
  destruct (Ascii.eqb c bytes.dquote).
  { now injection H as <- <-. }
  destruct (Ascii.eqb c "\").
  { destruct (json.escapeAt r) as [t n| |] eqn:He; try discriminate.
    apply scan_map_app in H as (x' & H & ->).
    rewrite (escapeAt_junk r t n x' rest junk He H).
    now rewrite (IH n x' rest junk H). }
  destruct (bytes.code c <? 32)%N; [discriminate|].
  destruct (bytes.code c <? utf8.RuneSelf)%N eqn:Hc.
  { apply scan_map_app in H as (x' & H & ->).
    now rewrite (IH 0%nat x' rest junk H). }
  apply N.ltb_ge in Hc.
  destruct (utf8.DecodeRune c r) as [rr size] eqn:Hd.
  apply scan_map_app in H as (x' & H & ->).
  rewrite (DecodeRune_junk c r rr size x' rest junk Hc Hd H).
  now rewrite (IH _ x' rest junk H).
Qed.

(** ** Values *)

Lemma skipSpace_head s c r :
  json.skipSpace s = String c r -> json.isSpace c = false.
Proof.
  induction s as [|c0 s IH]; [discriminate|]. cbn [json.skipSpace].
  destruct (json.isSpace c0) eqn:Hc; [exact IH|]. now intros [= <- <-].
Qed.

Lemma cutOff_left c r junk : cutOff (String c r) junk.
Proof. now left. Qed.

(** A value, the elements of an array and the members of an object are
    read the same with anything after them; for a number, as long as what
    follows cannot continue it. *)
Lemma scan_junk fuel :
  (forall s v r junk,
     json.scanValue fuel s = json.Scanned v r ->
     closedValue v = true \/ cutOff r junk ->
     json.scanValue fuel (s ++ junk) = json.Scanned v (r ++ junk))
  /\ (forall s l r junk,
        json.scanElements fuel s = json.Scanned l r ->
        json.scanElements fuel (s ++ junk) = json.Scanned l (r ++ junk))
  /\ (forall s l r junk,
        json.scanMembers fuel s = json.Scanned l r ->
        json.scanMembers fuel (s ++ junk) = json.Scanned l (r ++ junk)).
Proof.
  induction fuel as [|f (IHv & IHe & IHm)].
  { repeat split; intros; discriminate. }
  split; [|split].
  - intros s v r0 junk H Hv. cbn [json.scanValue] in *.
    destruct (json.skipSpace s) as [|c r] eqn:Hs; [discriminate|].
    rewrite (skipSpace_junk s c r junk Hs).
    destruct (Ascii.eqb c "{").
    { destruct (json.skipSpace r) as [|c' r'] eqn:Hr; [discriminate|].
      rewrite (skipSpace_junk r c' r' junk Hr).
      destruct (Ascii.eqb c' "}"); [now injection H as <- <-|].
      apply scan_map_app in H as (l & H & ->).
      change (String c' (r' ++ junk)) with (String c' r' ++ junk).
      now rewrite (IHm _ _ _ junk H). }
    destruct (Ascii.eqb c "[").
    { destruct (json.skipSpace r) as [|c' r'] eqn:Hr; [discriminate|].
      rewrite (skipSpace_junk r c' r' junk Hr).
      destruct (Ascii.eqb c' "]"); [now injection H as <- <-|].
      apply scan_map_app in H as (l & H & ->).
      change (String c' (r' ++ junk)) with (String c' r' ++ junk).
      now rewrite (IHe _ _ _ junk H). }
    destruct (Ascii.eqb c bytes.dquote).
    { apply scan_map_app in H as (x & H & ->). unfold json.scanString in *.
      now rewrite (unquoteFrom_junk r 0%nat x r0 junk H). }
    destruct (_ || _).
    { apply scan_map_app in H as (x & H & ->).
      destruct Hv as [Hv|Hv]; [discriminate Hv|].
      change (String c (r ++ junk)) with (String c r ++ junk).
      now rewrite (scanNumber_cut _ _ _ junk Hv H). }
    destruct (Ascii.eqb c "t").
    { apply scan_map_app in H as ([] & H & ->).
      now rewrite (expect_junk _ _ _ _ junk H). }
    destruct (Ascii.eqb c "f").
    { apply scan_map_app in H as ([] & H & ->).
      now rewrite (expect_junk _ _ _ _ junk H). }
    destruct (Ascii.eqb c "n"); [|discriminate].
    apply scan_map_app in H as ([] & H & ->).
    now rewrite (expect_junk _ _ _ _ junk H).
  - intros s l r0 junk H. cbn [json.scanElements] in *.
    destruct (json.scanValue f s) as [v r1| | |] eqn:Hv; try discriminate.
    destruct (json.skipSpace r1) as [|c r2] eqn:Hr; [discriminate|].
    assert (Hcut : cutOff r1 junk).
    { left. intros ->. discriminate Hr. }
    rewrite (IHv s v r1 junk Hv (or_intror Hcut)).
    rewrite (skipSpace_junk r1 c r2 junk Hr).
    destruct (Ascii.eqb c ",").
    { apply scan_map_app in H as (l' & H & ->).
      now rewrite (IHe _ _ _ junk H). }
    destruct (Ascii.eqb c "]"); [|discriminate].
    now injection H as <- <-.
  - intros s l r0 junk H. cbn [json.scanMembers] in *.
    destruct s as [|q r]; [discriminate|]. cbn [String.append].
    destruct (negb (Ascii.eqb q bytes.dquote)); [discriminate|].
    unfold json.scanString in *.
    destruct (json.unquoteFrom 0 r) as [k r1| | |] eqn:Hk; try discriminate.
    rewrite (unquoteFrom_junk r 0%nat k r1 junk Hk).
    destruct (json.skipSpace r1) as [|c1 r2] eqn:Hr1; [discriminate|].
    rewrite (skipSpace_junk r1 c1 r2 junk Hr1).
    destruct (negb (Ascii.eqb c1 ":")); [discriminate|].
    destruct (json.scanValue f r2) as [v r3| | |] eqn:Hv; try discriminate.
    destruct (json.skipSpace r3) as [|c3 r4] eqn:Hr3; [discriminate|].
    assert (Hcut : cutOff r3 junk).
    { left. intros ->. discriminate Hr3. }
    rewrite (IHv r2 v r3 junk Hv (or_intror Hcut)).
    rewrite (skipSpace_junk r3 c3 r4 junk Hr3).
    destruct (Ascii.eqb c3 ",").
    { apply scan_map_app in H as (l' & H & ->).
      destruct (json.skipSpace r4) as [|c4 r5] eqn:Hr4.
      { destruct f; discriminate H. }
      rewrite (skipSpace_junk r4 c4 r5 junk Hr4).
      change (String c4 (r5 ++ junk)) with (String c4 r5 ++ junk).
      now rewrite (IHm _ _ _ junk H). }
    destruct (Ascii.eqb c3 "}"); [|discriminate].
    now injection H as <- <-.
Qed.

(** The decoder reads its first value and leaves what follows: a body
    with more bytes after a value that is no number gives the value the
    body gives. *)
Lemma readValue_junk body v rest junk :
  json.readValue body = inr (v, rest) ->
  closedValue v = true ->
  json.readValue (body ++ junk) = inr (v, rest ++ junk).
Proof.
  intros H Hv. unfold json.readValue in H.
  destruct (json.skipSpace body) as [|c r] eqn:Hs; [discriminate|].
  destruct (json.scanValue _ (String c r)) as [v' rest'| | |] eqn:Hsc;
    try discriminate.
  injection H as -> ->.
  destruct (scan_junk (2 * String.length (String c r) + 1)) as [Hj _].
  specialize (Hj _ _ _ junk Hsc (or_introl Hv)).
  pose proof (skipSpace_head _ _ _ Hs) as Hc.
  pose proof (readValue_of_scan _ c (r ++ junk) v (rest ++ junk) Hc Hj)
    as Hr.
  unfold json.readValue in *.
  rewrite (skipSpace_junk body c r junk Hs).
  cbn [json.skipSpace] in Hr. rewrite Hc in Hr. exact Hr.
Qed.

(** X14: Bytes after the first value of a body are not looked at: when the
    body of a response starts with a value that is no number, [ListDevices]
    and [Get] return the same with anything appended to the body. *)
Theorem trailing_bytes_ignored
  (c c' : Client) (ctx ctx' : Context) (deviceID deviceID' : string)
  (w w' : World) (req req' : Request) (body junk rest : string)
  (v : json.value) :
  json.readValue body = inr (v, rest) ->
  closedValue v = true ->
  exchange (http_Client c) (requests w) req = inr (200, body ++ junk) ->
  exchange (http_Client c') (requests w') req' = inr (200, body) ->
  (sends (ListDevices c ctx) w req -> sends (ListDevices c' ctx') w' req' ->
   fst (ListDevices c ctx w) = fst (ListDevices c' ctx' w'))
  /\ (sends (Get c ctx deviceID) w req ->
      sends (Get c' ctx' deviceID') w' req' ->
      fst (Get c ctx deviceID w) = fst (Get c' ctx' deviceID' w')).
Proof.
  intros Hr Hv Hex Hex'. split; intros Hs Hs'.
  - rewrite (ListDevices_OK _ _ _ _ _ Hs Hex),
      (ListDevices_OK _ _ _ _ _ Hs' Hex').
    unfold decodeBytes. now rewrite (readValue_junk _ _ _ junk Hr Hv), Hr.
  - rewrite (Get_OK _ _ _ _ _ _ Hs Hex), (Get_OK _ _ _ _ _ _ Hs' Hex').
    unfold decodeBytes. now rewrite (readValue_junk _ _ _ junk Hr Hv), Hr.
Qed.

Lemma trailing_bytes_ignored_witness :
  fst (ListDevices (exampleClient 200 (oneDevice ++ "] not JSON"))
                   Background emptyWorld)
  = fst (ListDevices (exampleClient 200 oneDevice) Background emptyWorld).
Proof.
  destruct (json.readValue oneDevice) as [e|[v rest]] eqn:Hr;
    [discriminate Hr|].
  assert (Hv : closedValue v = true).
  { vm_compute in Hr. now injection Hr as <- <-. }
  edestruct (fun req req' =>
    trailing_bytes_ignored
      (exampleClient 200 (oneDevice ++ "] not JSON"))
      (exampleClient 200 oneDevice) Background Background "d1" "d1"
      emptyWorld emptyWorld req req' oneDevice "] not JSON" rest v
      Hr Hv eq_refl eq_refl) as [H _].
  apply H; reflexivity.
Defined.
